(** * Streaming cursors and the pipeline of toloka-kit

    A shallow embedding of [src/streaming/cursor.py] and of the parts of
    [src/streaming/pipeline.py] that decide how completed tasks are
    handled, together with the properties of the specification that can
    be settled on them.  The metrics of [src/metrics/metrics.py] that
    count the events of cursors, and [wait_operation] of
    [src/async_client/client.py], are embedded as well.

    Conventions of the embedding.

    - A [datetime] is a number of seconds ([Z]); only its order matters
      (for [wait_operation] the unit is the microsecond).
    - An item of the remote collection is a record with an [id] and the
      value of the time attribute the cursor reads with [_get_time].
    - A search request is an immutable record; [attr.evolve] is a
      functional update of one field.
    - The fetcher is an external collaborator.  Its behaviour is a
      script: the list of answers (a response or an exception) it gives
      to the successive calls.  Every call is logged together with the
      request that was issued, so assumptions on the remote service are
      stated on the log.
    - A generator is run to its end; what it does is a list of actions
      (calls of the fetcher and yields) in the order in which they
      happen, and the way it ends is an [Outcome].
    - [_seen_ids] is a mutable Python set.  Sets live in a heap and a
      cursor holds the address of its set, so that [set.add] is an
      update in place and two cursors may share one set. *)

From stdpp Require Import gmap strings list fin_maps sorting.
From Stdlib Require Import ZArith Lia.

Set Warnings "-clear-no-such-hyp".

Local Open Scope Z_scope.

(** ** Data model *)

Definition datetime := Z.

(** [DATETIME_MIN = datetime.fromtimestamp(0)] *)
Definition DATETIME_MIN : datetime := 0.

Record Item := {
  item_id : string;      (* item.id *)
  item_time : datetime;  (* getattr(item, self._get_time_field()) *)
}.

(** [ResponseObjectType]: both attributes are [Optional]. *)
Record Response := {
  items : option (list Item);
  has_more : option bool;
}.

(** Truth value of [response.items]: [None] and the empty list are false. *)
Definition items_list (response : Response) : list Item :=
  default [] (items response).

(** Truth value of [response.has_more]. *)
Definition has_more_true (response : Response) : bool :=
  default false (has_more response).

(** The predicates of a search request a cursor reads or writes, for the
    cursor's time field [T]: [T_gte], [T_gt], [T_lte] and [id_gt].  The
    other predicates of a request (pool, status, ...) are never touched
    by a cursor and are left out. *)
Record SearchRequest := {
  T_gte : option datetime;
  T_gt : option datetime;
  T_lte : option datetime;
  id_gt : option string;
}.

(** [attr.evolve(request, T_gte=v)] and its three siblings. *)
Definition evolve_T_gte (request : SearchRequest) (v : datetime) : SearchRequest :=
  {| T_gte := Some v; T_gt := T_gt request; T_lte := T_lte request; id_gt := id_gt request |}.

Definition evolve_T_gt (request : SearchRequest) (v : datetime) : SearchRequest :=
  {| T_gte := T_gte request; T_gt := Some v; T_lte := T_lte request; id_gt := id_gt request |}.

Definition evolve_T_lte (request : SearchRequest) (v : datetime) : SearchRequest :=
  {| T_gte := T_gte request; T_gt := T_gt request; T_lte := Some v; id_gt := id_gt request |}.

Definition evolve_id_gt (request : SearchRequest) (v : string) : SearchRequest :=
  {| T_gte := T_gte request; T_gt := T_gt request; T_lte := T_lte request; id_gt := Some v |}.

(** Python exceptions that occur in the modelled code. *)
#[warnings="-register-all"]
Inductive Exn :=
  | ValueError (msg : string)
  | KeyError (key : string)
  | TypeError (msg : string)
  | ComplexException (exceptions : list Exn)
  | RemoteError (msg : string).

(** One answer of the fetcher, and a script of answers. *)
Inductive FetchResult :=
  | Fetched (response : Response)
  | FetchFailed (e : Exn).

Abbreviation Script := (list FetchResult).

(** How the run of a generator ends: it returns, an exception leaves it,
    the script has no answer left for the call it makes, or the fuel of
    the model is used up. *)
Inductive Outcome :=
  | Returned
  | Raised (e : Exn)
  | Blocked
  | OutOfFuel.

(** ** [_ByIdCursor] *)

Module ByIdCursor.

(** What [__iter__] does, in order: a call of [self.fetcher] with
    [sort='id'], a [yield item], an assignment to [self.request]. *)
Inductive Action :=
  | Fetch (request : SearchRequest) (res : FetchResult)
  | Yield (item : Item)
  | SetRequest (request : SearchRequest).

Record Run := {
  actions : list Action;
  request : SearchRequest;   (* self.request at the end *)
  rest : Script;             (* answers not consumed *)
  outcome : Outcome;
}.

Definition prepend (acts : list Action) (r : Run) : Run :=
  {| actions := acts ++ actions r; request := request r; rest := rest r; outcome := outcome r |}.

(** The body of [if response.items:]: every item is yielded, then
    [self.request] gets [id_gt] of the last item ([item] still holds it
    after the [for]). *)
Definition page (request : SearchRequest) (response : Response) : list Action * SearchRequest :=
  match items_list response with
  | [] => ([], request)
  | item0 :: more =>
      let item := List.last more item0 in
      let request' := evolve_id_gt request (item_id item) in
      (map Yield (item0 :: more) ++ [SetRequest request'], request')
  end.

Fixpoint __iter__ (script : Script) (request : SearchRequest) : Run :=
  match script with
  | [] => {| actions := []; request := request; rest := []; outcome := Blocked |}
  | FetchFailed e :: script' =>
      {| actions := [Fetch request (FetchFailed e)]; request := request;
         rest := script'; outcome := Raised e |}
  | Fetched response :: script' =>
      let '(acts, request') := page request response in
      if has_more_true response
      then prepend (Fetch request (Fetched response) :: acts) (__iter__ script' request')
      else {| actions := Fetch request (Fetched response) :: acts; request := request';
              rest := script'; outcome := Returned |}
  end.

Definition yields (acts : list Action) : list Item :=
  omap (fun a => match a with Yield item => Some item | _ => None end) acts.

(** The run the specification describes for a list of responses: for
    each response the call, then the items of the page in page order, and
    only then, when the page has items, the assignment of [id_gt] of the
    last of them to the request, with which the next call is made. *)
Fixpoint described (request : SearchRequest) (pages : list Response)
  : list Action * SearchRequest :=
  match pages with
  | [] => ([], request)
  | p :: ps =>
      let request' :=
        match last (items_list p) with
        | Some item => evolve_id_gt request (item_id item)
        | None => request
        end in
      let '(acts, final) := described request' ps in
      (Fetch request (Fetched p) :: map Yield (items_list p)
         ++ match last (items_list p) with
            | Some _ => [SetRequest request']
            | None => []
            end ++ acts,
       final)
  end.

End ByIdCursor.

(** ** [BaseCursor] and the typed cursors *)

Module BaseCursor.

(** The heap of Python sets: an address is a [nat]. *)
Abbreviation Heap := (gmap nat (gset string)).

(** A new set object: an address the heap does not use. *)
Definition alloc (σ : Heap) : nat := fresh (dom σ).

(** The typed cursors differ in the client method they fetch with, in
    the time field and in the event they construct.  The time field of
    [AssignmentCursor] and [UserSkillCursor] is the [time_key] of their
    event type, which is declared outside [cursor.py]. *)
Inductive CursorClass :=
  | AssignmentCursor (time_key : string)
  | TaskCursor
  | UserBonusCursor
  | UserSkillCursor (time_key : string)
  | UserRestrictionCursor
  | MessageThreadCursor.

Definition _get_time_field (cls : CursorClass) : string :=
  match cls with
  | AssignmentCursor time_key => time_key
  | TaskCursor => "created"
  | UserBonusCursor => "created"
  | UserSkillCursor time_key => time_key
  | UserRestrictionCursor => "created"
  | MessageThreadCursor => "created"
  end.

Definition _get_time (item : Item) : datetime := item_time item.

(** [BaseEvent]: the item and [event_time], the item's time. *)
Record Event := {
  event_item : Item;
  event_time : datetime;
}.

Definition _construct_event (item : Item) : Event :=
  {| event_item := item; event_time := _get_time item |}.

(** The attributes of a cursor object.  [toloka_client] is the script. *)
Record Cursor := {
  cursor_class : CursorClass;
  _request : SearchRequest;
  _prev_response : option Response;
  _seen_ids : nat;   (* address of the set *)
}.

Definition set_request (c : Cursor) (request : SearchRequest) : Cursor :=
  {| cursor_class := cursor_class c; _request := request;
     _prev_response := _prev_response c; _seen_ids := _seen_ids c |}.

Definition set_prev_response (c : Cursor) (response : option Response) : Cursor :=
  {| cursor_class := cursor_class c; _request := _request c;
     _prev_response := response; _seen_ids := _seen_ids c |}.

Definition set_seen_ids (c : Cursor) (l : nat) : Cursor :=
  {| cursor_class := cursor_class c; _request := _request c;
     _prev_response := _prev_response c; _seen_ids := l |}.

(** The contents of the set [self._seen_ids]. *)
Definition seen (σ : Heap) (c : Cursor) : gset string := σ !!! _seen_ids c.

(** [self._seen_ids.add(v)] *)
Definition seen_add (σ : Heap) (c : Cursor) (v : string) : Heap :=
  <[_seen_ids c := {[v]} ∪ seen σ c]> σ.

(** What the cursor can be observed to hold. *)
Definition observable (σ : Heap) (c : Cursor)
  : SearchRequest * option Response * gset string :=
  (_request c, _prev_response c, seen σ c).

(** What [__iter__] does, in order: a call of the fetcher with the
    value of [sort], a [yield] of an event. *)
Inductive Action :=
  | Fetch (request : SearchRequest) (sort : string) (res : FetchResult)
  | Yield (event : Event).

Definition yields (acts : list Action) : list Event :=
  omap (fun a => match a with Yield event => Some event | _ => None end) acts.

Definition yielded_ids (acts : list Action) : list string :=
  map (fun event => item_id (event_item event)) (yields acts).

(** The first [for item in response.items]. *)
Fixpoint new_items (items : list Item) (c : Cursor) (σ : Heap)
  : list Action * Cursor * Heap :=
  match items with
  | [] => ([], c, σ)
  | item :: more =>
      if decide (item_id item ∈ seen σ c) then new_items more c σ
      else
        let c' := set_request c (evolve_T_gte (_request c) (_get_time item)) in
        let σ' := seen_add σ c (item_id item) in
        let '(acts, c'', σ'') := new_items more c' σ' in
        (Yield (_construct_event item) :: acts, c'', σ'')
  end.

(** [for item in _ByIdCursor(fetcher, fixed_time_request)]: the calls of
    the sub-cursor are calls of the same fetcher, the items it yields
    are filtered through [_seen_ids], its own request is its own. *)
Fixpoint drain (acts : list ByIdCursor.Action) (c : Cursor) (σ : Heap)
  : list Action * Heap :=
  match acts with
  | [] => ([], σ)
  | ByIdCursor.Fetch request res :: more =>
      let '(out, σ') := drain more c σ in
      (Fetch request "id" res :: out, σ')
  | ByIdCursor.Yield item :: more =>
      if decide (item_id item ∈ seen σ c) then drain more c σ
      else
        let '(out, σ') := drain more c (seen_add σ c (item_id item)) in
        (Yield (_construct_event item) :: out, σ')
  | ByIdCursor.SetRequest _ :: more => drain more c σ
  end.

(** [self._seen_ids = {item.id for item in response.items}]: a new set. *)
Definition strip (items : list Item) (c : Cursor) (σ : Heap) : Cursor * Heap :=
  let l := alloc σ in
  (set_seen_ids c l, <[l := list_to_set (map item_id items)]> σ).

(** One pass through the body of [while True]. *)
Inductive Flow :=
  | Continue
  | Stop (o : Outcome).

Record Step := {
  step_actions : list Action;
  step_cursor : Cursor;
  step_heap : Heap;
  step_rest : Script;
  step_flow : Flow;
}.

Definition body (script : Script) (c : Cursor) (σ : Heap) : Step :=
  match script with
  | [] =>
      {| step_actions := []; step_cursor := c; step_heap := σ;
         step_rest := []; step_flow := Stop Blocked |}
  | FetchFailed e :: script' =>
      {| step_actions := [Fetch (_request c) (_get_time_field (cursor_class c)) (FetchFailed e)];
         step_cursor := c; step_heap := σ;
         step_rest := script'; step_flow := Stop (Raised e) |}
  | Fetched response :: script' =>
      let call := Fetch (_request c) (_get_time_field (cursor_class c)) (Fetched response) in
      match items_list response with
      | [] =>
          {| step_actions := [call]; step_cursor := c; step_heap := σ;
             step_rest := script'; step_flow := Stop Returned |}
      | item0 :: more =>
          let max_time := _get_time (List.last more item0) in
          let c1 := set_prev_response c (Some response) in
          let '(acts1, c2, σ2) := new_items (item0 :: more) c1 σ in
          if negb (has_more_true response) then
            {| step_actions := call :: acts1; step_cursor := c2; step_heap := σ2;
               step_rest := script'; step_flow := Stop Returned |}
          else if decide (_get_time item0 = max_time) then
            let fixed_time_request := evolve_T_lte (_request c2) max_time in
            let sub := ByIdCursor.__iter__ script' fixed_time_request in
            let '(acts2, σ3) := drain (ByIdCursor.actions sub) c2 σ2 in
            match ByIdCursor.outcome sub with
            | Returned =>
                let c3 := set_request c2 (evolve_T_gt (_request c2) max_time) in
                let '(c4, σ4) := strip (item0 :: more) c3 σ3 in
                {| step_actions := call :: acts1 ++ acts2; step_cursor := c4; step_heap := σ4;
                   step_rest := ByIdCursor.rest sub; step_flow := Continue |}
            | o =>
                {| step_actions := call :: acts1 ++ acts2; step_cursor := c2; step_heap := σ3;
                   step_rest := ByIdCursor.rest sub; step_flow := Stop o |}
            end
          else
            let '(c4, σ4) := strip (item0 :: more) c2 σ2 in
            {| step_actions := call :: acts1; step_cursor := c4; step_heap := σ4;
               step_rest := script'; step_flow := Continue |}
      end
  end.

Record Run := {
  actions : list Action;
  cursor : Cursor;    (* the attributes of the cursor at the end *)
  heap : Heap;
  rest : Script;      (* answers not consumed *)
  outcome : Outcome;
}.

Definition prepend (acts : list Action) (r : Run) : Run :=
  {| actions := acts ++ actions r; cursor := cursor r; heap := heap r;
     rest := rest r; outcome := outcome r |}.

(** [while True]: the fuel bounds the number of passes. *)
Fixpoint loop (fuel : nat) (script : Script) (c : Cursor) (σ : Heap) : Run :=
  match fuel with
  | O => {| actions := []; cursor := c; heap := σ; rest := script; outcome := OutOfFuel |}
  | S fuel' =>
      let s := body script c σ in
      match step_flow s with
      | Stop o =>
          {| actions := step_actions s; cursor := step_cursor s; heap := step_heap s;
             rest := step_rest s; outcome := o |}
      | Continue =>
          prepend (step_actions s) (loop fuel' (step_rest s) (step_cursor s) (step_heap s))
      end
  end.

(** Every pass that continues consumes an answer, so one more pass than
    there are answers is enough fuel (see [loop_fuel]). *)
Definition __iter__ (script : Script) (c : Cursor) (σ : Heap) : Run :=
  loop (S (length script)) script c σ.

(** Several iterations of one cursor object, one after the other, as in
    [list(it)] followed later by [list(it)]: the next iteration starts
    when the previous one has returned, and the fetcher goes on
    answering from where it was. *)
Fixpoint iterations (n : nat) (script : Script) (c : Cursor) (σ : Heap) : Run :=
  match n with
  | O => {| actions := []; cursor := c; heap := σ; rest := script; outcome := Returned |}
  | S n' =>
      let r := __iter__ script c σ in
      match outcome r with
      | Returned => prepend (actions r) (iterations n' (rest r) (cursor r) (heap r))
      | _ => r
      end
  end.

(** *** State, [inject], construction *)

Definition State : Type := SearchRequest * option Response * nat.

Definition _get_state (c : Cursor) : State :=
  (_request c, _prev_response c, _seen_ids c).

Definition _set_state (c : Cursor) (state : State) : Cursor :=
  let '(request, prev_response, seen_ids) := state in
  {| cursor_class := cursor_class c; _request := request;
     _prev_response := prev_response; _seen_ids := seen_ids |}.

Definition inject (c injection : Cursor) : Cursor :=
  _set_state c (_get_state injection).

(** [copy.deepcopy] of a state tuple: the request and the response are
    never mutated, the set is copied into a new object. *)
Definition deepcopy (state : State) (σ : Heap) : State * Heap :=
  let '(request, prev_response, seen_ids) := state in
  let l := alloc σ in
  ((request, prev_response, l), <[l := σ !!! seen_ids]> σ).

(** [copy.deepcopy(c)]: a new cursor object with a copy of the state. *)
Definition deepcopy_cursor (c : Cursor) (σ : Heap) : Cursor * Heap :=
  let '(state, σ') := deepcopy (_get_state c) σ in
  (_set_state c state, σ').

(** [if not getattr(self._request, self._time_field_gte)]: the value is
    [None] or a [datetime], and a [datetime] is never false. *)
Definition __attrs_post_init__ (c : Cursor) : Cursor :=
  match T_gte (_request c) with
  | Some _ => c
  | None => set_request c (evolve_T_gte (_request c) DATETIME_MIN)
  end.

(** The [__init__] that [attr.s] generates: [_prev_response] is [None],
    [_seen_ids] is a new empty set, then [__attrs_post_init__] runs. *)
Definition new (cls : CursorClass) (request : SearchRequest) (σ : Heap) : Cursor * Heap :=
  let l := alloc σ in
  (__attrs_post_init__
     {| cursor_class := cls; _request := request; _prev_response := None; _seen_ids := l |},
   <[l := ∅]> σ).

(** *** [CursorFetchContext] *)

(** The context keeps a reference to the cursor; the attributes of that
    one cursor are the [Cursor] passed along. *)
Record CursorFetchContext := {
  _start_state : option State;
  _finish_state : option State;
}.

Definition try_fetch_all (c : Cursor) : CursorFetchContext :=
  {| _start_state := None; _finish_state := None |}.

(** [__enter__] returns the list of events, or the iteration inside it
    does not return and [__enter__] ends the same way. *)
Inductive Enter :=
  | Entered (res : list Event) (ctx : CursorFetchContext) (c : Cursor) (σ : Heap) (rest : Script)
  | NotEntered (o : Outcome) (ctx : CursorFetchContext) (c : Cursor) (σ : Heap) (rest : Script).

Definition __enter__ (ctx : CursorFetchContext) (script : Script) (c : Cursor) (σ : Heap) : Enter :=
  let '(start_state, σ1) := deepcopy (_get_state c) σ in
  let ctx1 := {| _start_state := Some start_state; _finish_state := _finish_state ctx |} in
  let r := __iter__ script c σ1 in
  match outcome r with
  | Returned =>
      let res := yields (actions r) in
      let ctx2 := {| _start_state := Some start_state;
                     _finish_state := Some (_get_state (cursor r)) |} in
      Entered res ctx2 (_set_state (cursor r) start_state) (heap r) (rest r)
  | o => NotEntered o ctx1 (cursor r) (heap r) (rest r)
  end.

(** [__exit__] returns [None], so an exception of the block goes on. *)
Definition __exit__ (ctx : CursorFetchContext) (exc_type : option Exn) (c : Cursor) : Exn + Cursor :=
  match exc_type with
  | None =>
      match _finish_state ctx with
      | Some state => inr (_set_state c state)
      | None => inl (TypeError "cannot unpack non-iterable NoneType object")
      end
  | Some _ => inr c
  end.

(** [with cursor.try_fetch_all() as res: block].  The block gets the
    events and returns ([None]) or raises; it does not touch the cursor. *)
Record WithRun := {
  with_cursor : Cursor;
  with_heap : Heap;
  with_rest : Script;
  with_outcome : Outcome;
}.

Definition with_try_fetch_all (block : list Event -> option Exn)
    (script : Script) (c : Cursor) (σ : Heap) : WithRun :=
  match __enter__ (try_fetch_all c) script c σ with
  | Entered res ctx c1 σ1 rest =>
      let exc := block res in
      match __exit__ ctx exc c1 with
      | inr c2 =>
          {| with_cursor := c2; with_heap := σ1; with_rest := rest;
             with_outcome := match exc with None => Returned | Some e => Raised e end |}
      | inl e =>
          {| with_cursor := c1; with_heap := σ1; with_rest := rest; with_outcome := Raised e |}
      end
  | NotEntered o ctx c1 σ1 rest =>
      {| with_cursor := c1; with_heap := σ1; with_rest := rest; with_outcome := o |}
  end.

(** *** Assumptions on the remote service *)

Definition bound (p : datetime -> bool) (o : option datetime) : bool :=
  match o with
  | None => true
  | Some v => p v
  end.

(** The item satisfies the predicates of the request. *)
Definition satisfies (request : SearchRequest) (item : Item) : bool :=
  bound (fun v => v <=? item_time item) (T_gte request)
  && bound (fun v => v <? item_time item) (T_gt request)
  && bound (fun v => item_time item <=? v) (T_lte request)
  && match id_gt request with
     | None => true
     | Some v => String.ltb v (item_id item)
     end.

Definition sorted_by_time (l : list Item) : Prop :=
  StronglySorted (fun a b => item_time a <= item_time b) l.

(** A call of the fetcher is well answered when the items of the
    response satisfy the predicates of the request that was issued, and
    when the response of a call sorted by the cursor's time field is sorted
    by time. *)
Definition well_answered (time_field : string) (a : Action) : Prop :=
  match a with
  | Fetch request sort (Fetched response) =>
      Forall (fun item => satisfies request item = true) (items_list response)
      /\ (sort = time_field -> sorted_by_time (items_list response))
  | _ => True
  end.

(** The items [l] answer the request: every one of them satisfies the
    predicates and carries the time [tm] gives to its id (the time of an
    item never changes). *)
Definition answers (tm : string -> datetime) (request : SearchRequest) (l : list Item) : Prop :=
  Forall (fun item => satisfies request item = true
                      /\ item_time item = tm (item_id item)) l.

(** A call of the fetcher is honest when the items of the response
    answer the request that was issued, and when the response of a call
    sorted by the cursor's time field is sorted by time.  Nothing is asked
    of a call that fails. *)
Definition honest (tm : string -> datetime) (time_field : string) (a : Action) : Prop :=
  match a with
  | Fetch request sort (Fetched response) =>
      answers tm request (items_list response)
      /\ (sort = time_field -> sorted_by_time (items_list response))
  | _ => True
  end.

(** *** Notions used to state the properties *)

(** The items of [l] that are yielded by a loop that skips the ids of the
    set, when the set holds [X] at the start: an item is yielded when its
    id is not in the set, and its id is then added. *)
Fixpoint unseen (X : gset string) (l : list Item) : list Item :=
  match l with
  | [] => []
  | item :: more =>
      if decide (item_id item ∈ X) then unseen X more
      else item :: unseen ({[item_id item]} ∪ X) more
  end.

Definition ids (l : list Item) : gset string := list_to_set (map item_id l).

(** The request after the items [l] were yielded by the first loop. *)
Definition advance (request : SearchRequest) (l : list Item) : SearchRequest :=
  match last l with
  | Some item => evolve_T_gte request (item_time item)
  | None => request
  end.

(** The heap after the ids of [l] were added to the set of [c]. *)
Definition add_all (l : list Item) (c : Cursor) (σ : Heap) : Heap :=
  foldl (fun σ' item => seen_add σ' c (item_id item)) σ l.

(** The calls of the sub-cursor, as calls of the cursor. *)
Definition calls_by_id (acts : list ByIdCursor.Action) : list Action :=
  omap (fun a => match a with
                 | ByIdCursor.Fetch request res => Some (Fetch request "id" res)
                 | _ => None
                 end) acts.

(** The time [t] passes the lower bounds of the request. *)
Definition lower_ok (request : SearchRequest) (t : datetime) : Prop :=
  (forall v, T_gte request = Some v -> v <= t)
  /\ (forall v, T_gt request = Some v -> v < t).

(** The time [t] is not after the lower bounds of the request. *)
Definition covered (request : SearchRequest) (t : datetime) : Prop :=
  (exists v, T_gte request = Some v /\ t <= v)
  \/ (exists v, T_gt request = Some v /\ t <= v).

(** The invariant of deduplication, for the set [E] of the ids yielded
    so far, the request and the contents [X] of [_seen_ids]: no id of [X]
    or [E] has a time after the lower bounds of the request, and an id of
    [E] whose time passes them is in [X]. *)
Record frontier (tm : string -> datetime) (E : gset string)
    (request : SearchRequest) (X : gset string) : Prop := {
  frontier_seen : forall x, x ∈ X -> covered request (tm x);
  frontier_yielded : forall x, x ∈ E -> covered request (tm x);
  frontier_live : forall x, x ∈ E -> lower_ok request (tm x) -> x ∈ X;
}.

(** What a pass of the loop, a run or several runs establish, from the
    set [E] of the ids yielded before and the cursor [c] at the start: the
    ids yielded are distinct and not in [E], the invariant holds for the
    end state, and the class of the cursor is the same. *)
Definition established (tm : string -> datetime) (E : gset string) (c : Cursor)
    (acts : list Action) (c' : Cursor) (σ' : Heap) : Prop :=
  NoDup (yielded_ids acts)
  /\ (forall x, x ∈ yielded_ids acts -> x ∉ E)
  /\ frontier tm (E ∪ list_to_set (yielded_ids acts)) (_request c') (seen σ' c')
  /\ cursor_class c' = cursor_class c.

End BaseCursor.

(** ** [Pipeline] *)

Module Pipeline.

(** [BaseObserver] is declared outside [pipeline.py].  The pipeline
    uses its unique key and hands the object to the storage; what the
    storage keeps of an observer is its state. *)
Record Observer := {
  unique_key : string;     (* observer._get_unique_key() *)
  observer_state : nat;
}.

Record _Worker := {
  name : string;
  observer : Observer;
  should_resume : bool;
}.

(** [cls(str(observer._get_unique_key()), observer)] *)
Definition _from_observer (o : Observer) : _Worker :=
  {| name := unique_key o; observer := o; should_resume := false |}.

Definition _no_one_should_resume (workers : list _Worker) : bool :=
  forallb (fun w => negb (should_resume w)) workers.

(** A task that [asyncio.wait] reports as done, with the attributes
    [worker] and [start_time] that [run] sets on it; [exception] is what
    [task.exception()] returns. *)
Record Task := {
  worker : _Worker;
  start_time : datetime;
  exception : option Exn;
}.

(** Modelled from the spec: [BaseStorage] is declared outside
    [pipeline.py].  [save(pipeline_key, mapping)] persists the current
    state of each provided observer under its key; what was saved under
    other keys stays.  A pipeline key is [str] of the tuple
    [_get_unique_key] returns; the tuple stands for it. *)
Abbreviation Key := (string * string * list string)%type.

Abbreviation Storage := (gmap Key (gmap string nat)).

Definition storage_save (pipeline_key : Key) (observer_by_key : gmap string Observer)
    (st : Storage) : Storage :=
  <[pipeline_key := (observer_state <$> observer_by_key) ∪ (st !!! pipeline_key)]> st.

(** A dict of Python keeps the order of insertion; assigning to a key
    it has keeps the place of the key. *)
Fixpoint dict_set {V : Type} (k : nat) (v : V) (d : list (nat * V)) : list (nat * V) :=
  match d with
  | [] => [(k, v)]
  | (k', v') :: d' =>
      if decide (k = k') then (k, v) :: d' else (k', v') :: dict_set k v d'
  end.

Record Pipeline := {
  period : Z;                             (* seconds; 60 by default *)
  storage : option Storage;
  pipeline_name : option string;          (* name *)
  _observers : list (nat * Observer);     (* Dict[int, BaseObserver] *)
}.

Definition MIN_SLEEP_SECONDS : Z := 10.

(** [datetime.min], as seconds before the epoch. *)
Definition datetime_min : datetime := -62135596800.

(** [self._observers[id(observer)] = observer; return observer], where
    [observer_id] is [id(observer)]. *)
Definition register (self : Pipeline) (observer_id : nat) (o : Observer) : Pipeline * Observer :=
  ({| period := period self; storage := storage self; pipeline_name := pipeline_name self;
      _observers := dict_set observer_id o (_observers self) |}, o).

Definition _get_unique_key (self : Pipeline) : Key :=
  ("Pipeline"%string, default ""%string (pipeline_name self),
   merge_sort (fun a b => String.leb a b) (map (fun kv => unique_key kv.2) (_observers self))).

(** [{worker.name: worker.observer for worker in workers}]: a later
    worker of the same name replaces an earlier one. *)
Definition observer_by_key (workers : list _Worker) : gmap string Observer :=
  foldl (fun m w => <[name w := observer w]> m) ∅ workers.

(** [_storage_save]: nothing happens without a storage. *)
Definition _storage_save (st : option Storage) (pipeline_key : Key)
    (workers : list _Worker) : option Storage :=
  match st with
  | Some s => Some (storage_save pipeline_key (observer_by_key workers) s)
  | None => None
  end.

(** The state [_process_done_tasks] works on: the dicts [waiting] and
    [pending] of [run] (a worker is a key by its name) and the storage;
    [raised] is the exception that leaves the method, if any. *)
Record Done := {
  waiting : gmap string Task;
  pending : gmap string datetime;
  saved : option Storage;
  raised : option Exn;
}.

(** [for task in done], with the lists [workers_to_dump] and [errored]
    it fills.  [del waiting[task.worker]] raises [KeyError] when the key
    is missing. *)
Fixpoint scan (done : list Task) (period : Z)
    (waiting : gmap string Task) (pending : gmap string datetime)
    (workers_to_dump : list _Worker) (errored : list Task)
  : gmap string Task * gmap string datetime * list _Worker * list Task * option Exn :=
  match done with
  | [] => (waiting, pending, workers_to_dump, errored, None)
  | task :: more =>
      match waiting !! name (worker task) with
      | None => (waiting, pending, workers_to_dump, errored, Some (KeyError (name (worker task))))
      | Some _ =>
          let waiting' := delete (name (worker task)) waiting in
          match exception task with
          | Some _ => scan more period waiting' pending workers_to_dump (errored ++ [task])
          | None =>
              scan more period waiting'
                (<[name (worker task) := start_time task + period]> pending)
                (workers_to_dump ++ [worker task]) errored
          end
      end
  end.

Definition _process_done_tasks (self : Pipeline) (pipeline_key : Key)
    (done : list Task) (waiting : gmap string Task) (pending : gmap string datetime) : Done :=
  let '(waiting', pending', workers_to_dump, errored, err) :=
    scan done (period self) waiting pending [] [] in
  match err with
  | Some e => {| waiting := waiting'; pending := pending'; saved := storage self; raised := Some e |}
  | None =>
      let st := _storage_save (storage self) pipeline_key workers_to_dump in
      match errored with
      | [] => {| waiting := waiting'; pending := pending'; saved := st; raised := None |}
      | _ :: _ =>
          {| waiting := waiting'; pending := pending'; saved := st;
             raised := Some (ComplexException (omap exception errored)) |}
      end
  end.

(** [run] up to its loop: the check of the observers, then the workers
    and the dicts the loop starts with. *)
Record Started := {
  pipeline_key : Key;
  workers : list _Worker;
  started_waiting : gmap string Task;
  started_pending : gmap string datetime;
  check_mode : bool;
}.

Definition run_entry (self : Pipeline) : Exn + Started :=
  match _observers self with
  | [] => inl (ValueError "No observers registered")
  | _ :: _ =>
      let workers := map (fun kv => _from_observer kv.2) (_observers self) in
      inr {| pipeline_key := _get_unique_key self;
             workers := workers;
             started_waiting := ∅;
             started_pending := foldl (fun m w => <[name w := datetime_min]> m) ∅ workers;
             check_mode := false |}
  end.

(** *** Notions used to state the properties *)

(** The workers of the tasks that did not raise, in the order of [done]. *)
Definition succeeded (done : list Task) : list _Worker :=
  omap (fun task => match exception task with
                    | None => Some (worker task)
                    | Some _ => None
                    end) done.

(** The tasks that raised, in the order of [done]. *)
Definition failed (done : list Task) : list Task :=
  omap (fun task => match exception task with
                    | None => None
                    | Some _ => Some task
                    end) done.

(** S6: two observers, the task of [A] succeeds and the task of [B]
    raises [E]. *)
Definition observer_A : Observer := {| unique_key := "A"; observer_state := 7 |}.
Definition observer_B : Observer := {| unique_key := "B"; observer_state := 3 |}.
Definition task_A : Task :=
  {| worker := _from_observer observer_A; start_time := 100; exception := None |}.
Definition task_B : Task :=
  {| worker := _from_observer observer_B; start_time := 100;
     exception := Some (RemoteError "E") |}.
Definition pipeline_S6 : Pipeline :=
  (register (register {| period := 60; storage := Some ∅; pipeline_name := None;
                         _observers := [] |} 1 observer_A).1 2 observer_B).1.
Definition waiting_S6 : gmap string Task := <["A" := task_A]> (<["B" := task_B]> ∅).

End Pipeline.

(** ** The scenarios of the specification *)

Module Scenario.

Import BaseCursor.

Definition mk_item (i : string) (t : datetime) : Item := {| item_id := i; item_time := t |}.

Definition answer (l : list Item) (more : bool) : FetchResult :=
  Fetched {| items := Some l; has_more := Some more |}.

Definition no_predicate : SearchRequest :=
  {| T_gte := None; T_gt := None; T_lte := None; id_gt := None |}.

(** A new [TaskCursor()] in an empty heap. *)
Definition cursor0 : Cursor := (new TaskCursor no_predicate ∅).1.
Definition heap0 : Heap := (new TaskCursor no_predicate ∅).2.

(** S1: two iterations, the second one sees [b] again and a new [c]. *)
Definition S1 : Script :=
  [ answer [mk_item "a" 1; mk_item "b" 2] false;
    answer [mk_item "b" 2; mk_item "c" 3] false ].

(** S2: a page of one timestamp with more to come, the drain by id, then
    the next page. *)
Definition S2 : Script :=
  [ answer [mk_item "x1" 5; mk_item "x2" 5; mk_item "x3" 5] true;
    answer [mk_item "x4" 5; mk_item "x5" 5] false;
    answer [mk_item "y1" 6] false ].

(** S3: the second iteration finds a new item at the time of [b]. *)
Definition S3 : Script :=
  [ answer [mk_item "a" 1; mk_item "b" 2] false;
    answer [mk_item "c" 2; mk_item "d" 3] false ].

(** S4: a cursor that yields [e1, e2]. *)
Definition S4 : Script :=
  [ answer [mk_item "e1" 1; mk_item "e2" 2] false ].

(** A page with more to come, then a last page. *)
Definition two_pages : Script :=
  [ answer [mk_item "a" 1; mk_item "b" 2] true;
    answer [mk_item "c" 3] false ].

(** The fetcher fails on the second call. *)
Definition failing : Script :=
  [ answer [mk_item "a" 1; mk_item "b" 2] true;
    FetchFailed (RemoteError "503") ].

(** A cursor that has yielded [e1, e2], and a second, new cursor. *)
Definition cursor_e : Cursor := cursor (__iter__ S4 cursor0 heap0).
Definition heap_e : Heap := heap (__iter__ S4 cursor0 heap0).
Definition cursor_n : Cursor := (new TaskCursor no_predicate heap_e).1.
Definition heap_n : Heap := (new TaskCursor no_predicate heap_e).2.

(** An id that comes again with a later time: [a] at time 1, then at
    time 5, after two pages with more to come. *)
Definition time_changes : Script :=
  [ answer [mk_item "a" 1; mk_item "b" 2] true;
    answer [mk_item "c" 3; mk_item "d" 4] true;
    answer [mk_item "a" 5] false ].

(** The time of the items of the scenarios. *)
Definition tm (i : string) : datetime :=
  if decide (i = "a"%string) then 1
  else if decide (i = "b"%string) then 2
  else if decide (i = "c"%string) then 3
  else if decide (i = "y1"%string) then 6
  else if decide (i = "e1"%string) then 1
  else if decide (i = "e2"%string) then 2
  else 5.

End Scenario.

(** ** The answers behind a trace *)

Module Trace.

(** The answers the fetcher gave to the calls of a trace, in the order
    of the calls. *)
Definition results (acts : list BaseCursor.Action) : Script :=
  omap (fun a => match a with
                 | BaseCursor.Fetch _ _ res => Some res
                 | BaseCursor.Yield _ => None
                 end) acts.

Definition by_id_results (acts : list ByIdCursor.Action) : Script :=
  omap (fun a => match a with
                 | ByIdCursor.Fetch _ res => Some res
                 | _ => None
                 end) acts.

(** The call got a response. *)
Definition answered (res : FetchResult) : Prop :=
  match res with
  | Fetched _ => True
  | FetchFailed _ => False
  end.

(** A trace agrees with the way its run ends: when the run raised [e],
    the last thing that happened is a call of the fetcher that raised [e],
    and every call before it got a response; otherwise every call got a
    response. *)
Definition ends_as (o : Outcome) (acts : list BaseCursor.Action) : Prop :=
  match o with
  | Raised e =>
      (exists request sort, last acts = Some (BaseCursor.Fetch request sort (FetchFailed e)))
      /\ exists pre, results acts = pre ++ [FetchFailed e] /\ Forall answered pre
  | _ => Forall answered (results acts)
  end.

Definition by_id_ends_as (o : Outcome) (acts : list ByIdCursor.Action) : Prop :=
  match o with
  | Raised e =>
      (exists request, last acts = Some (ByIdCursor.Fetch request (FetchFailed e)))
      /\ exists pre, by_id_results acts = pre ++ [FetchFailed e] /\ Forall answered pre
  | _ => Forall answered (by_id_results acts)
  end.

End Trace.

(** ** Metrics over cursors ([metrics.py]) *)

Module Metrics.

(** What can leave [_get_lines_impl]: an exception of a cursor's
    iteration, or the [AttributeError] of an attribute access on [None]. *)
Inductive Error :=
  | FromCursor (e : Exn)
  | AttributeError (msg : string).

(** [bind_client]: an element of the list is a metric, with its
    [toloka_client] (a client object is a [nat], [None] is the default),
    or some other object, with its [str]. *)
Inductive Object :=
  | Metric (toloka_client : option nat)
  | NotMetric (repr : string).

Definition quote : string := String (Ascii.ascii_of_nat 34) EmptyString.

Fixpoint bind_client (metrics : list Object) (toloka_client : nat)
  : list Object * option Exn :=
  match metrics with
  | [] => ([], None)
  | Metric _ :: more =>
      let '(more', err) := bind_client more toloka_client in
      (Metric (Some toloka_client) :: more', err)
  | NotMetric repr :: more =>
      (NotMetric repr :: more,
       Some (TypeError ("One of element is not instance of BaseMetric: "
                          +:+ quote +:+ repr +:+ quote)))
  end.

(** [AssignmentEventsInPool]: the attributes of an instance. *)
Record AssignmentEventsInPool := {
  pool_id : string;
  _created_name : option string;
  _submitted_name : option string;
  _accepted_name : option string;
  _rejected_name : option string;
  _skipped_name : option string;
  _expired_name : option string;
  _join_events : bool;
}.

(** The attribute names that are keys of [_status_dict]. *)
Inductive Attribute :=
  | created_name
  | submitted_name
  | accepted_name
  | rejected_name
  | skipped_name
  | expired_name.

Definition getattr (self : AssignmentEventsInPool) (attr_name : Attribute) : option string :=
  match attr_name with
  | created_name => _created_name self
  | submitted_name => _submitted_name self
  | accepted_name => _accepted_name self
  | rejected_name => _rejected_name self
  | skipped_name => _skipped_name self
  | expired_name => _expired_name self
  end.

(** A dict literal keeps the order in which it is written. *)
Definition _status_dict : list (Attribute * string) :=
  [ (created_name, "CREATED"%string);
    (submitted_name, "SUBMITTED"%string);
    (accepted_name, "ACCEPTED"%string);
    (rejected_name, "REJECTED"%string);
    (skipped_name, "SKIPPED"%string);
    (expired_name, "EXPIRED"%string) ].

(** [[getattr(self, attr_name) for attr_name in self._status_dict
      if getattr(self, attr_name) is not None]] *)
Definition get_line_names (self : AssignmentEventsInPool) : list string :=
  omap (fun kv => getattr self kv.1) _status_dict.

(** [len(metric_names) != len(set(metric_names))] decides the
    [ValueError]. *)
Definition __attrs_post_init__ (self : AssignmentEventsInPool)
  : Exn + AssignmentEventsInPool :=
  let metric_names := get_line_names self in
  match metric_names with
  | [] =>
      inr {| pool_id := pool_id self;
             _created_name := _created_name self;
             _submitted_name := Some "submitted_events_in_pool"%string;
             _accepted_name := Some "accepted_events_in_pool"%string;
             _rejected_name := Some "rejected_events_in_pool"%string;
             _skipped_name := _skipped_name self;
             _expired_name := _expired_name self;
             _join_events := _join_events self |}
  | _ :: _ =>
      if decide (length metric_names <> size (list_to_set metric_names : gset string))
      then inl (ValueError "Duplicate metric names.")
      else inr self
  end.

(** [d[k] = v] on a dict with string keys, which keeps the order of
    insertion. *)
Fixpoint dict_assign {V : Type} (k : string) (v : V) (d : list (string * V))
  : list (string * V) :=
  match d with
  | [] => [(k, v)]
  | (k', v') :: d' =>
      if decide (k = k') then (k, v) :: d' else (k', v') :: dict_assign k v d'
  end.

(** [str.lower] on the ASCII letters of the status values. *)
Definition lower_ascii (a : Ascii.ascii) : Ascii.ascii :=
  let n := Ascii.nat_of_ascii a in
  if ((65 <=? n) && (n <=? 90))%nat then Ascii.ascii_of_nat (n + 32) else a.

Fixpoint lower (s : string) : string :=
  match s with
  | EmptyString => EmptyString
  | String a s' => String (lower_ascii a) (lower s')
  end.

(** The arguments [_cursors] gives to [cursor.AssignmentCursor]: the
    pool, the event type, and the keyword [<status>_gte] with the start
    time. *)
Record CursorArgs := {
  arg_pool_id : string;
  arg_event_type : string;
  arg_gte : string * datetime;
}.

(** [_cursors] is computed once; [start_time] is [utcnow()] then.  A
    name that is [None] or empty gets no cursor ([if metric_name:]). *)
Definition _cursors (self : AssignmentEventsInPool) (start_time : datetime)
  : list (string * CursorArgs) :=
  foldl (fun cursors kv =>
           match getattr self kv.1 with
           | Some metric_name =>
               if decide (metric_name = ""%string) then cursors
               else dict_assign metric_name
                      {| arg_pool_id := pool_id self;
                         arg_event_type := kv.2;
                         arg_gte := (lower kv.2 +:+ "_gte", start_time) |} cursors
           | None => cursors
           end) [] _status_dict.

(** [itertools.groupby(event_list, attrgetter('event_time'))]: the runs
    of consecutive events with the same time, each with its time. *)
Fixpoint groupby (event_list : list BaseCursor.Event)
  : list (datetime * list BaseCursor.Event) :=
  match event_list with
  | [] => []
  | event :: more =>
      match groupby more with
      | (event_time, events) :: groups =>
          if decide (BaseCursor.event_time event = event_time)
          then (event_time, event :: events) :: groups
          else (BaseCursor.event_time event, [event]) :: (event_time, events) :: groups
      | [] => [(BaseCursor.event_time event, [event])]
      end
  end.

(** The points of one metric.  With [join_events], [event] is [None]
    when [event.event_time] is read: the [event] of the generator
    expression that counts is a variable of that expression. *)
Definition points (join_events : bool) (utcnow : datetime)
    (event_list : list BaseCursor.Event) : Error + list (datetime * nat) :=
  if join_events then
    let event : option BaseCursor.Event := None in
    let count := length event_list in
    if decide (count <> 0%nat) then
      match event with
      | Some event => inr [(BaseCursor.event_time event, count)]
      | None => inl (AttributeError "'NoneType' object has no attribute 'event_time'")
      end
    else inr [(utcnow, 0%nat)]
  else
    inr (map (fun g => (g.1, length g.2)) (groupby event_list)).

(** What the environment gives to one pass of the loop of
    [_get_lines_impl]: the run of the cursor's iteration, and the time
    [utcnow()] returns if it is called. *)
Record Poll := {
  iteration : BaseCursor.Run;
  utcnow : datetime;
}.

Abbreviation Lines := (list (string * list (datetime * nat))).

(** [_get_lines_impl] returns its dict, raises, or waits for an
    iteration that does not end. *)
Inductive Result :=
  | Return (result : Lines)
  | Raise (e : Error)
  | Pending.

(** [for metric_name, it in self._cursors.items()] *)
Fixpoint gather (join_events : bool) (cursors : list (string * CursorArgs))
    (polls : string -> Poll) (result : Lines) : Result :=
  match cursors with
  | [] => Return result
  | (metric_name, _) :: more =>
      let poll := polls metric_name in
      match BaseCursor.outcome (iteration poll) with
      | Returned =>
          let event_list := BaseCursor.yields (BaseCursor.actions (iteration poll)) in
          match points join_events (utcnow poll) event_list with
          | inr line => gather join_events more polls (dict_assign metric_name line result)
          | inl e => Raise e
          end
      | Raised e => Raise (FromCursor e)
      | Blocked | OutOfFuel => Pending
      end
  end.

Definition _get_lines_impl (self : AssignmentEventsInPool) (start_time : datetime)
    (polls : string -> Poll) : Result :=
  gather (_join_events self) (_cursors self start_time) polls [].

(** Instances with one name, [submitted], with and without
    [join_events]. *)
Definition joined (pool : string) : AssignmentEventsInPool :=
  {| pool_id := pool; _created_name := None; _submitted_name := Some "submitted"%string;
     _accepted_name := None; _rejected_name := None; _skipped_name := None;
     _expired_name := None; _join_events := true |}.

Definition counted (pool : string) : AssignmentEventsInPool :=
  {| pool_id := pool; _created_name := None; _submitted_name := Some "submitted"%string;
     _accepted_name := None; _rejected_name := None; _skipped_name := None;
     _expired_name := None; _join_events := false |}.

(** Every cursor is polled with the iteration of S4, at time 9. *)
Definition polls_S4 (metric_name : string) : Poll :=
  {| iteration := BaseCursor.__iter__ Scenario.S4 Scenario.cursor0 Scenario.heap0;
     utcnow := 9 |}.

End Metrics.

(** ** [AsyncTolokaClient.wait_operation] ([client.py]) *)

Module AsyncTolokaClient.

(** Of an operation, [wait_operation] reads [id], [is_completed()] and
    [started].  Times and durations are in microseconds, the resolution
    of [datetime] and [timedelta]. *)
Record Operation := {
  id : string;
  is_completed : bool;
  started : option datetime;
}.

Inductive Error :=
  | TimeoutError
  | ClientError (e : Exn).

(** What [wait_operation] does, in order. *)
Inductive Action :=
  | Sleep (microseconds : Z)
  | GetOperation (op_id : string).

Inductive Result :=
  | Return (op : Operation)
  | Raise (e : Error)
  | Pending.      (* [get_operation] does not answer *)

Definition default_time_to_wait : Z := 1000000.

(** [timeout] defaults to ten minutes. *)
Definition default_timeout : Z := 600000000.

(** [while True]: every pass consumes an answer of [get_operation];
    [clock k] is what the [k]-th call of [utcnow()] returns, counting
    from 0. *)
Fixpoint poll (answers : list (Operation + Exn)) (clock : nat -> datetime) (k : nat)
    (op_id : string) (wait_until_time : datetime) : list Action * Result :=
  match answers with
  | [] => ([], Pending)
  | inr e :: _ => ([GetOperation op_id], Raise (ClientError e))
  | inl op :: more =>
      if is_completed op then ([GetOperation op_id], Return op)
      else if decide (clock k > wait_until_time)
      then ([GetOperation op_id; Sleep default_time_to_wait], Raise TimeoutError)
      else
        let '(acts, res) := poll more clock (S k) (id op) wait_until_time in
        (GetOperation op_id :: Sleep default_time_to_wait :: acts, res)
  end.





End AsyncTolokaClient.

(** ** The schedule of [Pipeline.run] *)

Module Schedule.

(** [time_to_start <= iteration_start or check_mode] *)
Definition due (iteration_start : datetime) (check_mode : bool) (time_to_start : datetime)
  : bool :=
  (time_to_start <=? iteration_start) || check_mode.

(** [for worker, time_to_start in pending.items()]: the workers to
    start, and the dict that becomes [pending]. *)
Definition to_start (pending : gmap string datetime) (iteration_start : datetime)
    (check_mode : bool) : gmap string datetime :=
  filter (fun kv => due iteration_start check_mode kv.2 = true) pending.

Definition still_pending (pending : gmap string datetime) (iteration_start : datetime)
    (check_mode : bool) : gmap string datetime :=
  filter (fun kv => due iteration_start check_mode kv.2 = false) pending.

(** [min(pending.values())] and [max(pending.values())], which raise
    [ValueError] on an empty dict. *)
Definition min_time (pending : gmap string datetime) : Exn + datetime :=
  match map_to_list pending with
  | [] => inl (ValueError "min() arg is an empty sequence")
  | kv :: more => inr (foldr (fun kv m => Z.min kv.2 m) kv.2 more)
  end.

Definition max_time (pending : gmap string datetime) : Exn + datetime :=
  match map_to_list pending with
  | [] => inl (ValueError "max() arg is an empty sequence")
  | kv :: more => inr (foldr (fun kv m => Z.max kv.2 m) kv.2 more)
  end.

(** [max((start_soon - datetime.now()).total_seconds(), self.MIN_SLEEP_SECONDS)] *)
Definition sleep_time (start_soon now : datetime) : Z :=
  Z.max (start_soon - now) Pipeline.MIN_SLEEP_SECONDS.

End Schedule.

(** * Properties *)

(** ** Construction *)

Section Construction.

Import BaseCursor.

(** C7. Whatever the typed cursor class, the request of a cursor that was
    just constructed has [T_gte] set: to [DATETIME_MIN] when the caller gave
    no value, to the caller's value otherwise; the other predicates are the
    caller's. *)
Theorem post_init_sets_T_gte (cls : CursorClass) (request : SearchRequest) (σ : Heap) :
  let c := (new cls request σ).1 in
  T_gte (_request c) = Some (default DATETIME_MIN (T_gte request))
  /\ T_gt (_request c) = T_gt request
  /\ T_lte (_request c) = T_lte request
  /\ id_gt (_request c) = id_gt request
  /\ cursor_class c = cls
  /\ _prev_response c = None
  /\ seen (new cls request σ).2 c = ∅.
Proof.
  unfold new, __attrs_post_init__, seen; simpl.
  destruct request as [gte gt lte igt]; destruct gte as [v|]; simpl;
    repeat split; by rewrite ?lookup_total_insert_eq.
Qed.

End Construction.

(** ** The sub-cursor by id *)

Section ById.

Import ByIdCursor.

Lemma last_default_cons {A : Type} (l : list A) (x y : A) :
  List.last (y :: l) x = List.last l y.
Proof.
  revert x y; induction l as [|z l IH]; intros x y; [done|].
  change (List.last (y :: z :: l) x) with (List.last (z :: l) x).
  by rewrite !IH.
Qed.

Lemma last_cons_default {A : Type} (x : A) (l : list A) :
  last (x :: l) = Some (List.last l x).
Proof.
  revert x; induction l as [|y l IH]; intros x; [done|].
  change (last (x :: y :: l)) with (last (y :: l)).
  by rewrite IH, last_default_cons.
Qed.

Lemma yields_app (a b : list Action) : yields (a ++ b) = yields a ++ yields b.
Proof. unfold yields. apply omap_app. Qed.

Lemma yields_map_Yield (l : list Item) : yields (map Yield l) = l.
Proof.
  induction l as [|x l IH]; [done|].
  change (yields (map Yield (x :: l))) with (x :: yields (map Yield l)).
  by rewrite IH.
Qed.

(** One page, as the specification words it. *)
Lemma page_described (request : SearchRequest) (p : Response) :
  page request p =
    (map Yield (items_list p)
       ++ match last (items_list p) with
          | Some item => [SetRequest (evolve_id_gt request (item_id item))]
          | None => []
          end,
     match last (items_list p) with
     | Some item => evolve_id_gt request (item_id item)
     | None => request
     end).
Proof.
  unfold page. destruct (items_list p) as [|item0 more]; [done|].
  by rewrite last_cons_default.
Qed.

Lemma yields_page (request : SearchRequest) (p : Response) :
  yields (page request p).1 = items_list p.
Proof.
  rewrite page_described; simpl. rewrite yields_app, yields_map_Yield.
  destruct (last (items_list p)); simpl; by rewrite app_nil_r.
Qed.



(** An item the sub-cursor yields comes from a response to one of its
    calls, and the requests of its calls differ from the request it
    started with in [id_gt] only. *)
Lemma by_id_yields_fetched (script : Script) (request : SearchRequest) (item : Item) :
  item ∈ yields (actions (__iter__ script request)) ->
  exists q response,
    Fetch q (Fetched response) ∈ actions (__iter__ script request)
    /\ item ∈ items_list response
    /\ T_gte q = T_gte request /\ T_gt q = T_gt request /\ T_lte q = T_lte request.
Proof.
  revert request. induction script as [|[response|e] script IH]; intros request; simpl.
  - intros H. by apply elem_of_nil in H.
  - pose proof (page_described request response) as Hpg.
    pose proof (yields_page request response) as Hy.
    destruct (page request response) as [acts request'] eqn:E. simpl in Hy.
    assert (Hreq : T_gte request' = T_gte request /\ T_gt request' = T_gt request
                   /\ T_lte request' = T_lte request).
    { injection Hpg as _ Hr. rewrite Hr. by destruct (last (items_list response)). }
    assert (Hhere : item ∈ items_list response ->
              exists q response0,
                Fetch q (Fetched response0) ∈ Fetch request (Fetched response) :: acts
                /\ item ∈ items_list response0
                /\ T_gte q = T_gte request /\ T_gt q = T_gt request
                /\ T_lte q = T_lte request).
    { intros Hin. exists request, response. split; [left|done]. }
    destruct (has_more_true response); cbn [actions prepend].
    + change (yields ((Fetch request (Fetched response) :: acts) ++ ?l))
        with (yields (acts ++ l)).
      rewrite yields_app, Hy. intros [Hin|Hin]%elem_of_app.
      * destruct (Hhere Hin) as (q & r0 & H1 & H2). exists q, r0.
        split; [|done]. apply elem_of_app. by left.
      * destruct (IH request' Hin) as (q & r0 & H1 & H2 & H3 & H4 & H5).
        exists q, r0. split; [apply elem_of_app; by right|].
        destruct Hreq as (R1 & R2 & R3). split; [done|]. by rewrite H3, H4, H5.
    + change (yields (Fetch request (Fetched response) :: acts)) with (yields acts).
      rewrite Hy. apply Hhere.
  - intros H. by apply elem_of_nil in H.
Qed.

End ById.

(** ** The loops of [BaseCursor.__iter__] *)

#[global] Typeclasses Opaque BaseCursor.ids BaseCursor.seen.

Section Loops.

Import BaseCursor.

Lemma set_request_same (c : Cursor) : set_request c (_request c) = c.
Proof. by destruct c. Qed.

Lemma seen_seen_add (σ : Heap) (c c' : Cursor) (v : string) :
  _seen_ids c' = _seen_ids c ->
  seen (seen_add σ c v) c' = {[v]} ∪ seen σ c.
Proof.
  intros Heq. unfold seen, seen_add. rewrite Heq. by rewrite lookup_total_insert_eq.
Qed.

Lemma seen_add_frame (σ : Heap) (c : Cursor) (v : string) (l : nat) :
  l <> _seen_ids c -> seen_add σ c v !! l = σ !! l.
Proof. intros Hne. unfold seen_add. by rewrite lookup_insert_ne. Qed.

Lemma seen_add_dom (σ : Heap) (c : Cursor) (v : string) :
  dom σ ⊆ dom (seen_add σ c v).
Proof. unfold seen_add. rewrite dom_insert_L. set_solver. Qed.

Lemma add_all_seen (l : list Item) (c c' : Cursor) (σ : Heap) :
  _seen_ids c' = _seen_ids c ->
  seen (add_all l c σ) c' = ids l ∪ seen σ c.
Proof.
  intros Heq. revert σ. induction l as [|item more IH]; intros σ; simpl.
  - unfold ids, seen; simpl. rewrite Heq. set_solver.
  - unfold add_all in *; simpl. rewrite IH.
    rewrite (seen_seen_add σ c c (item_id item) eq_refl).
    unfold ids; simpl. set_solver.
Qed.

Lemma add_all_frame (l : list Item) (c : Cursor) (σ : Heap) (a : nat) :
  a <> _seen_ids c -> add_all l c σ !! a = σ !! a.
Proof.
  intros Hne. revert σ. induction l as [|item more IH]; intros σ; [done|].
  unfold add_all in *; simpl. rewrite IH. by apply seen_add_frame.
Qed.

Lemma add_all_dom (l : list Item) (c : Cursor) (σ : Heap) :
  dom σ ⊆ dom (add_all l c σ).
Proof.
  revert σ. induction l as [|item more IH]; intros σ; [done|].
  unfold add_all in *; simpl. etrans; [apply (seen_add_dom σ c (item_id item))|apply IH].
Qed.

Lemma add_all_same_set (l : list Item) (c c' : Cursor) (σ : Heap) :
  _seen_ids c' = _seen_ids c -> add_all l c' σ = add_all l c σ.
Proof.
  intros Heq. revert σ. induction l as [|item more IH]; intros σ; [done|].
  unfold add_all in *; simpl. rewrite IH. f_equal.
  unfold seen_add, seen. by rewrite Heq.
Qed.

Lemma advance_cons (request : SearchRequest) (item : Item) (l : list Item) :
  advance (evolve_T_gte request (item_time item)) l = advance request (item :: l).
Proof.
  unfold advance. destruct l as [|x l]; [done|].
  change (last (item :: x :: l)) with (last (x :: l)).
  by rewrite last_cons_default.
Qed.

(** The first loop in closed form. *)
Lemma new_items_unseen (items : list Item) (c : Cursor) (σ : Heap) :
  new_items items c σ =
    (map (fun item => Yield (_construct_event item)) (unseen (seen σ c) items),
     set_request c (advance (_request c) (unseen (seen σ c) items)),
     add_all (unseen (seen σ c) items) c σ).
Proof.
  revert c σ. induction items as [|item more IH]; intros c σ; simpl.
  - by rewrite set_request_same.
  - destruct (decide (item_id item ∈ seen σ c)) as [Hin|Hout]; [apply IH|].
    rewrite IH. simpl.
    set (c' := set_request c (evolve_T_gte (_request c) (_get_time item))).
    rewrite (seen_seen_add σ c c' (item_id item) eq_refl).
    unfold _get_time. rewrite advance_cons.
    by rewrite (add_all_same_set _ c c' _ eq_refl).
Qed.

Lemma ids_cons (item : Item) (l : list Item) : ids (item :: l) = {[item_id item]} ∪ ids l.
Proof. done. Qed.

Lemma ids_app (l1 l2 : list Item) : ids (l1 ++ l2) = ids l1 ∪ ids l2.
Proof. unfold ids. rewrite map_app. apply leibniz_equiv. apply list_to_set_app. Qed.

Lemma elem_of_ids (x : string) (l : list Item) :
  x ∈ ids l <-> exists item, item ∈ l /\ item_id item = x.
Proof.
  unfold ids. rewrite elem_of_list_to_set, list_elem_of_fmap.
  split; intros (item & H1 & H2); exists item; done.
Qed.

Lemma unseen_app (X : gset string) (l1 l2 : list Item) :
  unseen X (l1 ++ l2) = unseen X l1 ++ unseen (ids (unseen X l1) ∪ X) l2.
Proof.
  revert X. induction l1 as [|item more IH]; intros X; simpl.
  - f_equal. unfold ids; simpl. set_solver.
  - destruct (decide (item_id item ∈ X)); [apply IH|].
    rewrite IH. simpl. do 2 f_equal.
    assert (Heq : ids (unseen ({[item_id item]} ∪ X) more) ∪ ({[item_id item]} ∪ X)
                  = ids (item :: unseen ({[item_id item]} ∪ X) more) ∪ X)
      by (rewrite ids_cons; set_solver).
    by rewrite Heq.
Qed.

(** The ids of a page are in the set once the page went through the loop. *)
Lemma ids_unseen_union (X : gset string) (l : list Item) :
  ids (unseen X l) ∪ X = ids l ∪ X.
Proof.
  revert X. induction l as [|item more IH]; intros X; simpl; [done|].
  destruct (decide (item_id item ∈ X)) as [Hin|Hout].
  - rewrite IH, ids_cons. set_solver.
  - rewrite !ids_cons. specialize (IH ({[item_id item]} ∪ X)).
    replace ({[item_id item]} ∪ ids (unseen ({[item_id item]} ∪ X) more) ∪ X)
      with (ids (unseen ({[item_id item]} ∪ X) more) ∪ ({[item_id item]} ∪ X))
      by set_solver.
    rewrite IH. set_solver.
Qed.

Lemma unseen_not_seen (X : gset string) (l : list Item) (x : string) :
  x ∈ ids (unseen X l) -> x ∉ X.
Proof.
  revert X. induction l as [|item more IH]; intros X; simpl.
  - unfold ids; simpl. set_solver.
  - destruct (decide (item_id item ∈ X)) as [Hin|Hout]; [apply IH|].
    rewrite ids_cons. intros [Hx|Hx]%elem_of_union.
    + apply elem_of_singleton in Hx. by subst.
    + apply IH in Hx. set_solver.
Qed.

Lemma unseen_NoDup (X : gset string) (l : list Item) :
  NoDup (map item_id (unseen X l)).
Proof.
  revert X. induction l as [|item more IH]; intros X; simpl; [constructor|].
  destruct (decide (item_id item ∈ X)) as [Hin|Hout]; [apply IH|].
  simpl. constructor; [|apply IH].
  intros Hx. assert (Hi : item_id item ∈ ids (unseen ({[item_id item]} ∪ X) more)).
  { unfold ids. by apply elem_of_list_to_set. }
  apply unseen_not_seen in Hi. set_solver.
Qed.

Lemma unseen_sublist (X : gset string) (l : list Item) : sublist (unseen X l) l.
Proof.
  revert X. induction l as [|item more IH]; intros X; simpl; [constructor|].
  destruct (decide (item_id item ∈ X)); [apply sublist_cons|apply sublist_skip]; apply IH.
Qed.

Lemma cursor_yields_app (a b : list Action) : yields (a ++ b) = yields a ++ yields b.
Proof. unfold yields. apply omap_app. Qed.

Lemma cursor_yields_map (l : list Item) :
  yields (map (fun item => Yield (_construct_event item)) l) = map _construct_event l.
Proof.
  induction l as [|x l IH]; [done|].
  change (yields (map (fun item => Yield (_construct_event item)) (x :: l)))
    with (_construct_event x :: yields (map (fun item => Yield (_construct_event item)) l)).
  by rewrite IH.
Qed.

(** The second loop in closed form: what it yields, the heap it leaves,
    and the calls it logs. *)
Lemma drain_unseen (acts : list ByIdCursor.Action) (c : Cursor) (σ : Heap) :
  yields (drain acts c σ).1
    = map _construct_event (unseen (seen σ c) (ByIdCursor.yields acts))
  /\ (drain acts c σ).2 = add_all (unseen (seen σ c) (ByIdCursor.yields acts)) c σ
  /\ (forall a, a ∈ (drain acts c σ).1 ->
        (exists event, a = Yield event) \/ a ∈ calls_by_id acts).
Proof.
  revert σ. induction acts as [|a acts IH]; intros σ.
  - simpl. repeat split; try done. intros a Ha. by apply elem_of_nil in Ha.
  - destruct a as [request res|item|request]; simpl.
    + destruct (IH σ) as (IH1 & IH2 & IH3).
      destruct (drain acts c σ) as [out σ'] eqn:E; simpl in *.
      repeat split; try done.
      intros a [->|Ha]%elem_of_cons; [right; unfold calls_by_id; simpl; left|].
      destruct (IH3 a Ha) as [?|?]; [by left|right].
      unfold calls_by_id in *; simpl. by right.
    + change (ByIdCursor.yields (ByIdCursor.Yield item :: acts))
        with (item :: ByIdCursor.yields acts). simpl.
      destruct (decide (item_id item ∈ seen σ c)) as [Hin|Hout]; [apply IH|].
      destruct (IH (seen_add σ c (item_id item))) as (IH1 & IH2 & IH3).
      rewrite (seen_seen_add σ c c (item_id item) eq_refl) in IH1, IH2.
      destruct (drain acts c (seen_add σ c (item_id item))) as [out σ'] eqn:E; simpl in *.
      repeat split.
      * change (yields (Yield (_construct_event item) :: out))
          with (_construct_event item :: yields out). by rewrite IH1.
      * done.
      * intros a [->|Ha]%elem_of_cons; [left; eauto|]. by apply IH3.
    + apply IH.
Qed.

Lemma drain_calls (acts : list ByIdCursor.Action) (c : Cursor) (σ : Heap) (a : Action) :
  a ∈ calls_by_id acts -> a ∈ (drain acts c σ).1.
Proof.
  revert σ. induction acts as [|b acts IH]; intros σ; [done|].
  unfold calls_by_id in *. destruct b as [request res|item|request]; simpl.
  - specialize (IH σ). destruct (drain acts c σ) as [out σ']. simpl in *.
    intros [->|Ha]%elem_of_cons; [left|right; by apply IH].
  - intros Ha. destruct (decide (item_id item ∈ seen σ c)); [by apply IH|].
    specialize (IH (seen_add σ c (item_id item)) Ha).
    destruct (drain acts c (seen_add σ c (item_id item))) as [out σ']. by right.
  - apply IH.
Qed.

Lemma yielded_ids_app (a b : list Action) :
  yielded_ids (a ++ b) = yielded_ids a ++ yielded_ids b.
Proof. unfold yielded_ids. by rewrite cursor_yields_app, map_app. Qed.

Lemma yielded_ids_events (acts : list Action) (l : list Item) :
  yields acts = map _construct_event l -> yielded_ids acts = map item_id l.
Proof.
  unfold yielded_ids. intros ->. rewrite <- list_fmap_compose. done.
Qed.

(** The body of [while True] on a page that has items, with the first
    loop in closed form. *)
Lemma body_page (response : Response) (script : Script) (c : Cursor) (σ : Heap)
    (item0 : Item) (more : list Item) :
  items_list response = item0 :: more ->
  let max_time := _get_time (List.last more item0) in
  let c1 := set_prev_response c (Some response) in
  let U := unseen (seen σ c1) (item0 :: more) in
  let c2 := set_request c1 (advance (_request c1) U) in
  let σ2 := add_all U c1 σ in
  let call := Fetch (_request c) (_get_time_field (cursor_class c)) (Fetched response) in
  let acts1 := map (fun item => Yield (_construct_event item)) U in
  let sub := ByIdCursor.__iter__ script (evolve_T_lte (_request c2) max_time) in
  let d := drain (ByIdCursor.actions sub) c2 σ2 in
  body (Fetched response :: script) c σ =
    if negb (has_more_true response) then
      {| step_actions := call :: acts1; step_cursor := c2; step_heap := σ2;
         step_rest := script; step_flow := Stop Returned |}
    else if decide (_get_time item0 = max_time) then
      match ByIdCursor.outcome sub with
      | Returned =>
          let st := strip (item0 :: more) (set_request c2 (evolve_T_gt (_request c2) max_time)) d.2 in
          {| step_actions := call :: acts1 ++ d.1; step_cursor := st.1; step_heap := st.2;
             step_rest := ByIdCursor.rest sub; step_flow := Continue |}
      | o =>
          {| step_actions := call :: acts1 ++ d.1; step_cursor := c2; step_heap := d.2;
             step_rest := ByIdCursor.rest sub; step_flow := Stop o |}
      end
    else
      let st := strip (item0 :: more) c2 σ2 in
      {| step_actions := call :: acts1; step_cursor := st.1; step_heap := st.2;
         step_rest := script; step_flow := Continue |}.
Proof.
  intros Hitems. unfold body. rewrite Hitems.
  rewrite new_items_unseen. simpl.
  destruct (negb (has_more_true response)); [done|].
  destruct (decide (_get_time item0 = _get_time (List.last more item0))); [|done].
  match goal with |- context [drain ?a ?b ?c] => destruct (drain a b c) as [acts2 σ3] end.
  simpl. by destruct (ByIdCursor.outcome _).
Qed.

Lemma seen_strip (l : list Item) (c : Cursor) (σ : Heap) :
  seen (strip l c σ).2 (strip l c σ).1 = ids l.
Proof. unfold strip, seen; simpl. by rewrite lookup_total_insert_eq. Qed.

(** *** The heap outside the set of the cursor *)

Lemma alloc_fresh (σ : Heap) : alloc σ ∉ dom σ.
Proof. unfold alloc. apply is_fresh. Qed.

Lemma strip_frame (l : list Item) (c : Cursor) (σ : Heap) (a : nat) :
  a ∈ dom σ ->
  (strip l c σ).2 !! a = σ !! a
  /\ a ∈ dom (strip l c σ).2
  /\ a <> _seen_ids (strip l c σ).1.
Proof.
  intros Ha. unfold strip; simpl.
  assert (Hne : alloc σ <> a) by (intros <-; by apply (alloc_fresh σ)).
  rewrite lookup_insert_ne by done. rewrite dom_insert_L. split; [done|]. split; [set_solver|done].
Qed.

(** A pass through the body of the loop writes to the set of the cursor
    and to new sets only. *)
Lemma body_frame (script : Script) (c : Cursor) (σ : Heap) (a : nat) :
  a ∈ dom σ -> a <> _seen_ids c ->
  step_heap (body script c σ) !! a = σ !! a
  /\ a ∈ dom (step_heap (body script c σ))
  /\ a <> _seen_ids (step_cursor (body script c σ)).
Proof.
  intros Ha Hne.
  destruct script as [|[response|e] script]; [done|..|done].
  destruct (items_list response) as [|item0 more] eqn:Hitems.
  { unfold body. by rewrite Hitems. }
  rewrite (body_page response script c σ item0 more Hitems). cbv zeta.
  set (c1 := set_prev_response c (Some response)).
  set (U := unseen (seen σ c1) (item0 :: more)).
  set (c2 := set_request c1 (advance (_request c1) U)).
  assert (H2 : add_all U c1 σ !! a = σ !! a) by (by apply add_all_frame).
  assert (D2 : a ∈ dom (add_all U c1 σ)) by (by apply (add_all_dom U c1 σ)).
  destruct (negb (has_more_true response)); [done|].
  destruct (decide (_get_time item0 = _get_time (List.last more item0))).
  - set (sub := ByIdCursor.__iter__ script _).
    destruct (drain_unseen (ByIdCursor.actions sub) c2 (add_all U c1 σ)) as (_ & Hd & _).
    assert (H3 : (drain (ByIdCursor.actions sub) c2 (add_all U c1 σ)).2 !! a = σ !! a).
    { rewrite Hd, add_all_frame by done. done. }
    assert (D3 : a ∈ dom (drain (ByIdCursor.actions sub) c2 (add_all U c1 σ)).2).
    { rewrite Hd. by apply add_all_dom. }
    destruct (ByIdCursor.outcome sub); cbn [step_heap step_cursor]; try done.
    match goal with |- context [strip ?l ?c ?h] =>
      destruct (strip_frame l c h a D3) as (S1 & S2 & S3) end.
    by rewrite S1.
  - cbn [step_heap step_cursor].
    match goal with |- context [strip ?l ?c ?h] =>
      destruct (strip_frame l c h a D2) as (S1 & S2 & S3) end.
    by rewrite S1.
Qed.

Lemma loop_frame (fuel : nat) (script : Script) (c : Cursor) (σ : Heap) (a : nat) :
  a ∈ dom σ -> a <> _seen_ids c ->
  heap (loop fuel script c σ) !! a = σ !! a
  /\ a <> _seen_ids (cursor (loop fuel script c σ)).
Proof.
  revert script c σ. induction fuel as [|fuel IH]; intros script c σ Ha Hne; [done|].
  simpl. destruct (body_frame script c σ a Ha Hne) as (B1 & B2 & B3).
  destruct (step_flow (body script c σ)); [|done].
  cbn [prepend heap cursor].
  destruct (IH (step_rest (body script c σ)) (step_cursor (body script c σ))
               (step_heap (body script c σ)) B2 B3) as (I1 & I2).
  by rewrite I1.
Qed.

(** *** Fuel *)

Lemma by_id_rest (script : Script) (request : SearchRequest) :
  (length (ByIdCursor.rest (ByIdCursor.__iter__ script request)) <= length script)%nat.
Proof.
  revert request. induction script as [|[response|e] script IH]; intros request; simpl; [lia| |lia].
  destruct (ByIdCursor.page request response) as [acts request'].
  destruct (has_more_true response); simpl; [|lia].
  specialize (IH request'). lia.
Qed.

(** A pass that goes on has consumed an answer. *)
Lemma body_consumes (script : Script) (c : Cursor) (σ : Heap) :
  step_flow (body script c σ) = Continue ->
  (length (step_rest (body script c σ)) < length script)%nat.
Proof.
  destruct script as [|[response|e] script]; [done|..|done].
  destruct (items_list response) as [|item0 more] eqn:Hitems.
  { unfold body. by rewrite Hitems. }
  rewrite (body_page response script c σ item0 more Hitems). cbv zeta.
  destruct (negb (has_more_true response)); [done|].
  destruct (decide (_get_time item0 = _get_time (List.last more item0))).
  - set (sub := ByIdCursor.__iter__ script _).
    pose proof (by_id_rest script (ByIdCursor.request sub)) as _.
    assert (Hle : (length (ByIdCursor.rest sub) <= length script)%nat) by apply by_id_rest.
    destruct (ByIdCursor.outcome sub); cbn [step_flow step_rest]; try done.
    simpl; lia.
  - cbn [step_flow step_rest]. simpl; lia.
Qed.

Lemma by_id_outcome (script : Script) (request : SearchRequest) :
  ByIdCursor.outcome (ByIdCursor.__iter__ script request) <> OutOfFuel.
Proof.
  revert request. induction script as [|[response|e] script IH]; intros request; simpl; [done| |done].
  destruct (ByIdCursor.page request response) as [acts request'].
  destruct (has_more_true response); simpl; [apply IH|done].
Qed.

Lemma body_flow (script : Script) (c : Cursor) (σ : Heap) :
  step_flow (body script c σ) <> Stop OutOfFuel.
Proof.
  destruct script as [|[response|e] script]; [done|..|done].
  destruct (items_list response) as [|item0 more] eqn:Hitems.
  { unfold body. by rewrite Hitems. }
  rewrite (body_page response script c σ item0 more Hitems). cbv zeta.
  destruct (negb (has_more_true response)); [done|].
  destruct (decide (_get_time item0 = _get_time (List.last more item0))); [|done].
  set (sub := ByIdCursor.__iter__ script _).
  pose proof (by_id_outcome script
    (evolve_T_lte (_request (set_request (set_prev_response c (Some response))
       (advance (_request (set_prev_response c (Some response)))
          (unseen (seen σ (set_prev_response c (Some response))) (item0 :: more)))))
       (_get_time (List.last more item0)))) as Hsub.
  fold sub in Hsub.
  destruct (ByIdCursor.outcome sub); cbn [step_flow]; congruence.
Qed.

(** With more fuel than answers the fuel is never used up, and the run
    does not depend on the fuel. *)
Lemma loop_fuel (fuel : nat) (script : Script) (c : Cursor) (σ : Heap) :
  (length script < fuel)%nat ->
  outcome (loop fuel script c σ) <> OutOfFuel.
Proof.
  revert script c σ. induction fuel as [|fuel IH]; intros script c σ Hlt; [lia|].
  simpl. pose proof (body_flow script c σ) as Hflow.
  destruct (step_flow (body script c σ)) as [|o] eqn:E.
  - cbn [prepend outcome]. apply IH.
    pose proof (body_consumes script c σ E). lia.
  - cbn [outcome]. congruence.
Qed.

Lemma loop_fuel_irrelevant (fuel fuel' : nat) (script : Script) (c : Cursor) (σ : Heap) :
  (length script < fuel)%nat -> (length script < fuel')%nat ->
  loop fuel script c σ = loop fuel' script c σ.
Proof.
  revert fuel' script c σ.
  induction fuel as [|fuel IH]; intros fuel' script c σ Hlt Hlt'; [lia|].
  destruct fuel' as [|fuel']; [lia|].
  simpl. destruct (step_flow (body script c σ)) as [|o] eqn:E; [|done].
  pose proof (body_consumes script c σ E).
  f_equal. apply IH; lia.
Qed.

(** The generator never ends for want of fuel. *)
Lemma iter_total (script : Script) (c : Cursor) (σ : Heap) :
  outcome (__iter__ script c σ) <> OutOfFuel.
Proof. unfold __iter__. apply loop_fuel. lia. Qed.

Lemma iter_frame (script : Script) (c : Cursor) (σ : Heap) (a : nat) :
  a ∈ dom σ -> a <> _seen_ids c ->
  heap (__iter__ script c σ) !! a = σ !! a
  /\ a <> _seen_ids (cursor (__iter__ script c σ)).
Proof. apply loop_frame. Qed.

End Loops.

(** ** One iteration of a cursor *)

Section Iteration.

Import BaseCursor Scenario.

(** C9. When the first response of an iteration has no items ([None] or
    an empty list), the iteration makes that one call, yields nothing and
    returns, and neither the attributes of the cursor nor the heap have
    changed. *)
Theorem empty_poll_changes_nothing (response : Response) (script : Script)
    (c : Cursor) (σ : Heap) :
  items response = None \/ items response = Some [] ->
  let r := __iter__ (Fetched response :: script) c σ in
  yields (actions r) = []
  /\ outcome r = Returned
  /\ cursor r = c
  /\ heap r = σ
  /\ observable (heap r) (cursor r) = observable σ c
  /\ rest r = script.
Proof.
  intros Hempty.
  assert (Hl : items_list response = []).
  { unfold items_list. by destruct Hempty as [-> | ->]. }
  unfold __iter__; simpl. rewrite Hl; simpl. done.
Qed.

Lemma empty_poll_changes_nothing_witness :
  let r := __iter__ (answer [] false :: S4) cursor0 heap0 in
  yields (actions r) = [] /\ outcome r = Returned /\ cursor r = cursor0
  /\ heap r = heap0 /\ observable (heap r) (cursor r) = observable heap0 cursor0
  /\ rest r = S4.
Proof.
  apply (empty_poll_changes_nothing {| items := Some []; has_more := Some false |} S4 cursor0 heap0).
  right; reflexivity.
Defined.



(** C4, as the code has it.  Take a response whose items have distinct
    ids and one pass through the body of the loop on it.  When the loop goes
    on after the page ([has_more] is true and the drain by id, if there was
    one, has returned), [_seen_ids] is a new set that holds the ids of the
    page and nothing else, so it has as many elements as the page has items.
    When the iteration returns on the page (it has no items or [has_more]
    is false), [_seen_ids] is not replaced: it holds what it held before
    and the ids of the page. *)
Theorem seen_ids_after_page (response : Response) (script : Script)
    (c : Cursor) (σ : Heap) :
  NoDup (map item_id (items_list response)) ->
  let s := body (Fetched response :: script) c σ in
  match step_flow s with
  | Continue =>
      seen (step_heap s) (step_cursor s) = ids (items_list response)
      /\ size (seen (step_heap s) (step_cursor s)) = length (items_list response)
  | Stop Returned =>
      seen (step_heap s) (step_cursor s) = ids (items_list response) ∪ seen σ c
      /\ _seen_ids (step_cursor s) = _seen_ids c
  | Stop _ => True
  end.
Proof.
  intros Hnodup.
  destruct (items_list response) as [|item0 more] eqn:Hitems.
  { unfold body. rewrite Hitems. simpl. split; [|done].
    unfold ids; simpl. set_solver. }
  cbv zeta. rewrite (body_page response script c σ item0 more Hitems). cbv zeta.
  assert (Hsize : size (ids (item0 :: more)) = length (item0 :: more)).
  { unfold ids. rewrite size_list_to_set by done. by rewrite length_map. }
  destruct (negb (has_more_true response)).
  { simpl. split; [|done]. rewrite add_all_seen by done.
    exact (ids_unseen_union (seen σ c) (item0 :: more)). }
  destruct (decide (_get_time item0 = _get_time (List.last more item0))).
  - destruct (ByIdCursor.outcome _); cbn [step_heap step_cursor step_flow]; try done.
    by rewrite seen_strip.
  - cbn [step_heap step_cursor step_flow]. by rewrite seen_strip.
Qed.

Lemma seen_ids_after_page_witness :
  let s := body two_pages cursor0 heap0 in
  match step_flow s with
  | Continue =>
      seen (step_heap s) (step_cursor s) = ids [mk_item "a" 1; mk_item "b" 2]
      /\ size (seen (step_heap s) (step_cursor s)) = length [mk_item "a" 1; mk_item "b" 2]
  | Stop Returned =>
      seen (step_heap s) (step_cursor s) = ids [mk_item "a" 1; mk_item "b" 2] ∪ seen heap0 cursor0
      /\ _seen_ids (step_cursor s) = _seen_ids cursor0
  | Stop _ => True
  end.
Proof.
  apply (seen_ids_after_page
           {| items := Some [mk_item "a" 1; mk_item "b" 2]; has_more := Some true |}
           [answer [mk_item "c" 3] false] cursor0 heap0).
  simpl. repeat constructor; set_solver.
Defined.

(** C4, as the specification has it, fails on the last page of an
    iteration.  In [two_pages] the first page has the items [a] and [b] and
    more to come, the last page has the one item [c]: when the iteration
    has returned on it, [_seen_ids] holds three ids. *)
Lemma seen_ids_not_replaced_on_last_page :
  let s1 := body two_pages cursor0 heap0 in
  let s2 := body (step_rest s1) (step_cursor s1) (step_heap s1) in
  step_flow s1 = Continue
  /\ step_rest s1 = [answer [mk_item "c" 3] false]
  /\ step_flow s2 = Stop Returned
  /\ size (seen (step_heap s2) (step_cursor s2)) = 3%nat
  /\ size (seen (step_heap s2) (step_cursor s2)) <> length [mk_item "c" 3]
  /\ seen (step_heap s2) (step_cursor s2) <> ids [mk_item "c" 3].
Proof.
  assert (Hsize : size (seen (step_heap (body (step_rest (body two_pages cursor0 heap0))
                    (step_cursor (body two_pages cursor0 heap0))
                    (step_heap (body two_pages cursor0 heap0))))
                  (step_cursor (body (step_rest (body two_pages cursor0 heap0))
                    (step_cursor (body two_pages cursor0 heap0))
                    (step_heap (body two_pages cursor0 heap0))))) = 3%nat)
    by (vm_compute; reflexivity).
  cbv zeta. do 3 (split; [vm_compute; reflexivity|]).
  split; [exact Hsize|]. split.
  - rewrite Hsize. simpl. lia.
  - intros Heq. rewrite Heq in Hsize. vm_compute in Hsize. discriminate.
Qed.

End Iteration.

(** ** The state of a cursor: [inject] and [try_fetch_all] *)

Section State.

Import BaseCursor Scenario.

Lemma set_state_get_state (c c' : Cursor) :
  cursor_class c = cursor_class c' -> _set_state c (_get_state c') = c'.
Proof. destruct c, c'; simpl. by intros ->. Qed.

(** C5, as the code has it.  [c.inject(other)] makes the state of [c] the
    state of [other] as it is: the same request, the same response and the
    same set object, so that what the one cursor adds to [_seen_ids] is
    added for the other too.  Injecting a deep copy of a cursor into the
    cursor leaves what the cursor can be observed to hold as it was. *)
Theorem inject_takes_the_state (c other : Cursor) (σ : Heap) :
  _get_state (inject c other) = _get_state other
  /\ cursor_class (inject c other) = cursor_class c
  /\ _seen_ids (inject c other) = _seen_ids other
  /\ observable σ (inject c other) = observable σ other
  /\ (forall v, seen (seen_add σ (inject c other) v) other = {[v]} ∪ seen σ other)
  /\ observable (deepcopy_cursor c σ).2 (inject c (deepcopy_cursor c σ).1) = observable σ c.
Proof.
  destruct c as [cls rq pr l], other as [cls' rq' pr' l'].
  repeat split.
  - intros v. unfold seen, seen_add, inject; simpl. by rewrite lookup_total_insert_eq.
  - unfold observable, deepcopy_cursor, inject, seen; simpl.
    by rewrite lookup_total_insert_eq.
Qed.

(** C5, as the specification has it, fails: after [inject] the two cursors
    share the set.  [cursor_e] has yielded [e1] and [e2]; the new cursor
    [cursor_n] is injected with it and then iterated on a page with the
    item [z]: the set of [cursor_e], which was not iterated, has gained
    [z]. *)
Lemma inject_shares_seen_ids :
  let c := inject cursor_n cursor_e in
  let r := __iter__ [answer [mk_item "z" 9] false] c heap_n in
  _seen_ids c = _seen_ids cursor_e
  /\ elements (seen heap_n cursor_e) = elements (ids [mk_item "e1" 1; mk_item "e2" 2])
  /\ size (seen heap_n cursor_e) = 2%nat
  /\ size (seen (heap r) cursor_e) = 3%nat
  /\ seen (heap r) cursor_e <> seen heap_n cursor_e.
Proof.
  assert (H2 : size (seen heap_n cursor_e) = 2%nat) by (vm_compute; reflexivity).
  assert (H3 : size (seen (heap (__iter__ [answer [mk_item "z" 9] false]
                 (inject cursor_n cursor_e) heap_n)) cursor_e) = 3%nat)
    by (vm_compute; reflexivity).
  cbv zeta. do 2 (split; [vm_compute; reflexivity|]).
  split; [exact H2|]. split; [exact H3|].
  intros Heq. rewrite Heq, H2 in H3. discriminate.
Qed.




(** When the fetcher fails inside [__enter__] no list is returned and
    [__exit__] is not called: the exception leaves the [with] statement and
    the cursor keeps the progress of the iteration that was cut short. *)
Lemma try_fetch_all_fetch_failure :
  let w := with_try_fetch_all (fun _ => None) failing cursor0 heap0 in
  with_outcome w = Raised (RemoteError "503")
  /\ T_gte (_request (with_cursor w)) = Some 2
  /\ T_gte (_request cursor0) = Some DATETIME_MIN.
Proof. vm_compute. repeat split. Qed.

End State.

(** ** The pipeline *)

Section PipelineFacts.

Import Pipeline.

(** C8. [run] raises [ValueError] at its entry exactly when no observer
    is registered; otherwise it goes on with one worker for each observer.
    After [register] there is an observer. *)
Theorem run_needs_an_observer (self : Pipeline) :
  (run_entry self = inl (ValueError "No observers registered") <-> _observers self = [])
  /\ ((exists st, run_entry self = inr st
                  /\ map name (workers st) = map (fun kv => unique_key kv.2) (_observers self))
      <-> _observers self <> [])
  /\ (forall observer_id o, exists st, run_entry (register self observer_id o).1 = inr st).
Proof.
  unfold run_entry. split; [|split].
  - destruct (_observers self); split; intros H; try done.
  - destruct (_observers self) as [|kv d] eqn:E; split; try done.
    + by intros (st & H & _).
    + intros _. eexists. split; [reflexivity|]. cbn [workers].
      rewrite <- list_fmap_compose. done.
  - intros observer_id o. unfold register; cbn [_observers fst].
    destruct (_observers self) as [|[k v] d]; simpl; [eauto|].
    destruct (decide (observer_id = k)); eauto.
Qed.





(** The loop over [done] leaves the entries of other workers alone. *)
Lemma scan_other (done : list Task) (period : Z)
    (waiting : gmap string Task) (pending : gmap string datetime)
    (workers_to_dump : list _Worker) (errored : list Task) (k : string)
    (waiting' : gmap string Task) (pending' : gmap string datetime)
    (workers_to_dump' : list _Worker) (errored' : list Task) (err : option Exn) :
  k ∉ map (fun task => name (worker task)) done ->
  scan done period waiting pending workers_to_dump errored
    = (waiting', pending', workers_to_dump', errored', err) ->
  waiting' !! k = waiting !! k /\ pending' !! k = pending !! k.
Proof.
  revert waiting pending workers_to_dump errored.
  induction done as [|task done IH]; intros waiting pending wd er Hk Hs.
  - simpl in Hs. by inversion Hs; subst.
  - simpl in Hs, Hk. apply not_elem_of_cons in Hk as [Hne Hk].
    destruct (waiting !! name (worker task)) eqn:Hl; [|by inversion Hs; subst].
    destruct (exception task).
    + destruct (IH _ _ _ _ Hk Hs) as [G1 G2]. split; [|done].
      rewrite G1. by apply lookup_delete_ne.
    + destruct (IH _ _ _ _ Hk Hs) as [G1 G2]. split.
      * rewrite G1. by apply lookup_delete_ne.
      * rewrite G2. by apply lookup_insert_ne.
Qed.

(** The loop over [done], when the tasks are those of [waiting]. *)
Lemma scan_done (done : list Task) (period : Z)
    (waiting : gmap string Task) (pending : gmap string datetime)
    (workers_to_dump : list _Worker) (errored : list Task) :
  NoDup (map (fun task => name (worker task)) done) ->
  Forall (fun task => is_Some (waiting !! name (worker task))) done ->
  exists waiting' pending',
    scan done period waiting pending workers_to_dump errored
    = (waiting', pending', workers_to_dump ++ succeeded done, errored ++ failed done, None)
    /\ (forall task, task ∈ done -> waiting' !! name (worker task) = None)
    /\ (forall task, task ∈ done -> exception task = None ->
          pending' !! name (worker task) = Some (start_time task + period)).
Proof.
  revert waiting pending workers_to_dump errored.
  induction done as [|task done IH]; intros waiting pending wd er Hnd Hin.
  - exists waiting, pending. simpl. rewrite !app_nil_r. split; [done|].
    split; intros task Ht; by apply elem_of_nil in Ht.
  - simpl in Hnd. apply NoDup_cons in Hnd as [Hnotin Hnd].
    apply Forall_cons in Hin as [[t0 Ht0] Hin].
    assert (Hin' : Forall (fun task' => is_Some (delete (name (worker task)) waiting
                                                  !! name (worker task'))) done).
    { apply Forall_forall. intros task' Ht'.
      rewrite Forall_forall in Hin. specialize (Hin task' Ht').
      rewrite lookup_delete_ne; [done|].
      intros Heq. apply Hnotin. rewrite Heq. apply list_elem_of_fmap. eauto. }
    simpl. rewrite Ht0.
    unfold succeeded, failed in *. simpl.
    destruct (exception task) as [e|] eqn:He.
    + destruct (IH (delete (name (worker task)) waiting) pending wd (er ++ [task]) Hnd Hin')
        as (w' & p' & Hscan & Hgone & Hpend).
      exists w', p'. split; [by rewrite Hscan, <- app_assoc|].
      destruct (scan_other _ _ _ _ _ _ _ _ _ _ _ _ Hnotin Hscan) as [G1 G2].
      split.
      * intros task' Ht'. apply elem_of_cons in Ht' as [Heq|Ht']; [|by apply Hgone].
        subst task'. rewrite G1. apply lookup_delete_eq.
      * intros task' Ht' Hnone.
        apply elem_of_cons in Ht' as [Heq|Ht']; [congruence|by apply Hpend].
    + destruct (IH (delete (name (worker task)) waiting)
                  (<[name (worker task) := start_time task + period]> pending)
                  (wd ++ [worker task]) er Hnd Hin')
        as (w' & p' & Hscan & Hgone & Hpend).
      exists w', p'. split; [by rewrite Hscan, <- app_assoc|].
      destruct (scan_other _ _ _ _ _ _ _ _ _ _ _ _ Hnotin Hscan) as [G1 G2].
      split.
      * intros task' Ht'. apply elem_of_cons in Ht' as [Heq|Ht']; [|by apply Hgone].
        subst task'. rewrite G1. apply lookup_delete_eq.
      * intros task' Ht' Hnone.
        apply elem_of_cons in Ht' as [Heq|Ht']; [|by apply Hpend].
        subst task'. etrans; [exact G2|]. apply lookup_insert_eq.
Qed.





(** The tasks [asyncio.wait] reports are some of the values of
    [waiting], where the task of a worker is kept under the worker: their
    workers are distinct. *)
Lemma done_workers_distinct (done : list Task) (waiting : gmap string Task) :
  NoDup done ->
  Forall (fun task => waiting !! name (worker task) = Some task) done ->
  NoDup (map (fun task => name (worker task)) done).
Proof.
  induction 1 as [|task done Hnotin Hnd IH]; intros Hin; [constructor|].
  apply Forall_cons in Hin as [Ht Hin]. simpl. constructor; [|by apply IH].
  intros Hname. apply list_elem_of_fmap in Hname as (task' & Heq & Hin').
  rewrite Forall_forall in Hin. specialize (Hin task' Hin').
  rewrite <- Heq, Ht in Hin. inversion Hin; subst. done.
Qed.



End PipelineFacts.

(** ** No id is yielded twice *)

Section Frontier.

Import BaseCursor.

Variable tm : string -> datetime.

Lemma bound_true (p : datetime -> bool) (o : option datetime) (v : datetime) :
  bound p o = true -> o = Some v -> p v = true.
Proof. by intros Hb ->. Qed.

Lemma satisfies_lower (request : SearchRequest) (item : Item) :
  satisfies request item = true ->
  lower_ok request (item_time item)
  /\ (forall v, T_lte request = Some v -> item_time item <= v).
Proof.
  unfold satisfies. rewrite !andb_true_iff. intros [[[H1 H2] H3] _].
  repeat split; intros v Hv.
  - apply (bound_true _ _ v) in H1; [by apply Z.leb_le|done].
  - apply (bound_true _ _ v) in H2; [by apply Z.ltb_lt|done].
  - apply (bound_true _ _ v) in H3; [by apply Z.leb_le|done].
Qed.

Lemma sorted_sublist (l1 l2 : list Item) :
  l1 `sublist_of` l2 -> sorted_by_time l2 -> sorted_by_time l1.
Proof.
  unfold sorted_by_time. induction 1 as [|x l1 l2 Hsub IH|x l1 l2 Hsub IH]; intros Hs.
  - constructor.
  - apply StronglySorted_cons in Hs as [Hall Hs]. apply StronglySorted_cons.
    split; [|by apply IH]. rewrite Forall_forall in Hall |- *.
    intros y Hy. apply Hall. by apply (elem_of_sublist l1 l2).
  - apply StronglySorted_cons in Hs as [_ Hs]. by apply IH.
Qed.

Lemma sorted_le_last (l : list Item) (z : Item) :
  sorted_by_time l -> last l = Some z ->
  forall x, x ∈ l -> item_time x <= item_time z.
Proof.
  unfold sorted_by_time. induction l as [|x0 l IH]; intros Hs Hlast x Hx; [done|].
  apply StronglySorted_cons in Hs as [Hall Hs].
  destruct l as [|x1 l].
  - simpl in Hlast. inversion Hlast; subst.
    apply list_elem_of_singleton in Hx. subst. lia.
  - change (last (x0 :: x1 :: l)) with (last (x1 :: l)) in Hlast.
    apply elem_of_cons in Hx as [->|Hx]; [|by apply IH].
    rewrite Forall_forall in Hall. apply Hall.
    by apply last_Some_elem_of.
Qed.

Lemma advance_T_gt (request : SearchRequest) (l : list Item) :
  T_gt (advance request l) = T_gt request.
Proof. unfold advance. by destruct (last l). Qed.

Lemma advance_T_gte (request : SearchRequest) (l : list Item) :
  T_gte (advance request l)
  = match last l with
    | Some item => Some (item_time item)
    | None => T_gte request
    end.
Proof. unfold advance. by destruct (last l). Qed.

(** The lower bounds of the request only go up in the first loop. *)
Lemma advance_lower (request : SearchRequest) (l : list Item) (t : datetime) :
  (forall item, item ∈ l -> lower_ok request (item_time item)) ->
  lower_ok (advance request l) t -> lower_ok request t.
Proof.
  intros Hl [H1 H2]. rewrite advance_T_gt in H2. split; [|done].
  rewrite advance_T_gte in H1. destruct (last l) as [z|] eqn:Hlast; [|done].
  intros v Hv. specialize (H1 _ eq_refl).
  destruct (Hl z (last_Some_elem_of _ _ Hlast)) as [Hz _]. specialize (Hz v Hv). lia.
Qed.

Lemma advance_covered (request : SearchRequest) (l : list Item) (t : datetime) :
  (forall item, item ∈ l -> lower_ok request (item_time item)) ->
  covered request t -> covered (advance request l) t.
Proof.
  intros Hl [(v & Hv & Ht)|(v & Hv & Ht)].
  - left. rewrite advance_T_gte. destruct (last l) as [z|] eqn:Hlast; [|eauto].
    exists (item_time z). split; [done|].
    destruct (Hl z (last_Some_elem_of _ _ Hlast)) as [Hz _]. specialize (Hz v Hv). lia.
  - right. rewrite advance_T_gt. eauto.
Qed.

Lemma advance_covers (request : SearchRequest) (l : list Item) (item : Item) :
  sorted_by_time l -> item ∈ l -> covered (advance request l) (item_time item).
Proof.
  intros Hs Hin. left. rewrite advance_T_gte.
  destruct (last l) as [z|] eqn:Hlast.
  - exists (item_time z). split; [done|]. by apply (sorted_le_last l z).
  - apply last_None in Hlast. subst. by apply elem_of_nil in Hin.
Qed.

(** New ids were not yielded before. *)
Lemma frontier_new (E : gset string) (request : SearchRequest) (X : gset string) (x : string) :
  frontier tm E request X -> lower_ok request (tm x) -> x ∉ X -> x ∉ E.
Proof. intros HF Hlow Hx HE. apply Hx. by apply (frontier_live tm E request X HF). Qed.

(** Yielding the items [U] and adding their ids to the set keeps the
    invariant, when the lower bounds go up and do not pass the items. *)
Lemma frontier_extend (E : gset string) (request request' : SearchRequest)
    (X : gset string) (U : list Item) :
  frontier tm E request X ->
  (forall t, lower_ok request' t -> lower_ok request t) ->
  (forall t, covered request t -> covered request' t) ->
  (forall item, item ∈ U -> covered request' (tm (item_id item))) ->
  frontier tm (E ∪ ids U) request' (ids U ∪ X).
Proof.
  intros [F1 F2 F3] Hlow Hcov HU. split.
  - intros x [Hx|Hx]%elem_of_union; [|by apply Hcov, F1].
    apply elem_of_ids in Hx as (item & Hin & <-). by apply HU.
  - intros x [Hx|Hx]%elem_of_union; [by apply Hcov, F2|].
    apply elem_of_ids in Hx as (item & Hin & <-). by apply HU.
  - intros x [Hx|Hx]%elem_of_union Hl; apply elem_of_union; [right|by left].
    apply F3; [done|by apply Hlow].
Qed.

(** Once [T_gt] is [m] nothing at or before [m] can come again. *)
Lemma frontier_past (E : gset string) (request : SearchRequest) (P : gset string)
    (m : datetime) :
  (forall x, x ∈ E -> tm x <= m) ->
  (forall x, x ∈ P -> tm x <= m) ->
  frontier tm E (evolve_T_gt request m) P.
Proof.
  intros HE HP. split.
  - intros x Hx. right. exists m. split; [done|by apply HP].
  - intros x Hx. right. exists m. split; [done|by apply HE].
  - intros x Hx [_ Hl]. specialize (Hl m eq_refl). specialize (HE x Hx). lia.
Qed.

Lemma answers_lower (request : SearchRequest) (l : list Item) (item : Item) :
  answers tm request l -> item ∈ l ->
  lower_ok request (item_time item)
  /\ lower_ok request (tm (item_id item))
  /\ item_time item = tm (item_id item)
  /\ (forall v, T_lte request = Some v -> item_time item <= v).
Proof.
  intros Hans Hin. unfold answers in Hans. rewrite Forall_forall in Hans.
  destruct (Hans item Hin) as [Hsat Htm].
  destruct (satisfies_lower request item Hsat) as [Hlow Hlte].
  split; [exact Hlow|]. split; [by rewrite <- Htm|]. split; [exact Htm|exact Hlte].
Qed.

(** The first loop keeps the invariant, and what it yields is new. *)
Lemma page_frontier (E : gset string) (request : SearchRequest) (X : gset string)
    (l : list Item) :
  frontier tm E request X -> answers tm request l -> sorted_by_time l ->
  (forall x, x ∈ ids (unseen X l) -> x ∉ E)
  /\ frontier tm (E ∪ ids (unseen X l)) (advance request (unseen X l)) (ids (unseen X l) ∪ X).
Proof.
  intros HF Hans Hsorted.
  pose proof (unseen_sublist X l) as Hsub.
  assert (HU : forall item, item ∈ unseen X l -> item ∈ l)
    by (intros item Hin; by apply (elem_of_sublist (unseen X l) l)).
  split.
  - intros x Hx. pose proof (unseen_not_seen X l x Hx) as HnX.
    apply elem_of_ids in Hx as (item & Hin & <-).
    destruct (answers_lower request l item Hans (HU item Hin)) as (_ & Hlow & _).
    by apply (frontier_new E request X).
  - apply (frontier_extend E request); [done|..].
    + intros t. apply advance_lower. intros item Hin.
      by destruct (answers_lower request l item Hans (HU item Hin)).
    + intros t. apply advance_covered. intros item Hin.
      by destruct (answers_lower request l item Hans (HU item Hin)).
    + intros item Hin.
      destruct (answers_lower request l item Hans (HU item Hin)) as (_ & _ & <- & _).
      apply advance_covers; [|done]. by apply (sorted_sublist _ l).
Qed.

(** The second loop keeps the invariant, and what it yields is new. *)
Lemma drain_frontier (E : gset string) (request : SearchRequest) (X : gset string)
    (l : list Item) :
  frontier tm E request X ->
  (forall item, item ∈ l ->
     lower_ok request (tm (item_id item)) /\ covered request (tm (item_id item))) ->
  (forall x, x ∈ ids (unseen X l) -> x ∉ E)
  /\ frontier tm (E ∪ ids (unseen X l)) request (ids (unseen X l) ∪ X).
Proof.
  intros HF Hl.
  assert (HU : forall item, item ∈ unseen X l -> item ∈ l)
    by (intros item Hin; by apply (elem_of_sublist (unseen X l) l), unseen_sublist).
  split.
  - intros x Hx. pose proof (unseen_not_seen X l x Hx) as HnX.
    apply elem_of_ids in Hx as (item & Hin & <-).
    apply (frontier_new E request X); [done| |done]. by apply Hl, HU.
  - apply (frontier_extend E request); try done. intros item Hin. by apply Hl, HU.
Qed.

(** The facts about a page [item0 :: more] the cases of the loop use. *)
Lemma page_times (request : SearchRequest) (item0 : Item) (more : list Item) :
  answers tm request (item0 :: more) -> sorted_by_time (item0 :: more) ->
  let m := item_time (List.last more item0) in
  lower_ok request m
  /\ item_time item0 <= m
  /\ (forall item, item ∈ item0 :: more ->
        item_time item0 <= item_time item <= m /\ tm (item_id item) = item_time item)
  /\ tm (item_id (List.last more item0)) = m.
Proof.
  intros Hans Hsorted m.
  assert (Hlast : last (item0 :: more) = Some (List.last more item0))
    by apply last_cons_default.
  assert (HL : List.last more item0 ∈ item0 :: more) by (by apply last_Some_elem_of).
  pose proof (sorted_le_last _ _ Hsorted Hlast) as Hle.
  apply StronglySorted_cons in Hsorted as [Hfirst _]. rewrite Forall_forall in Hfirst.
  split; [by destruct (answers_lower request _ _ Hans HL)|].
  split; [apply Hle; left|]. split.
  - intros item Hin.
    destruct (answers_lower request _ _ Hans Hin) as (_ & _ & Htm & _).
    split; [|done]. split; [|by apply Hle].
    apply elem_of_cons in Hin as [->|Hin]; [lia|by apply Hfirst].
  - by destruct (answers_lower request _ _ Hans HL) as (_ & _ & <- & _).
Qed.

(** On a page of one timestamp the first loop leaves [T_gte] at that time. *)
Lemma page_one_time (E : gset string) (request : SearchRequest) (X : gset string)
    (item0 : Item) (more : list Item) :
  frontier tm E request X ->
  answers tm request (item0 :: more) -> sorted_by_time (item0 :: more) ->
  item_time item0 = item_time (List.last more item0) ->
  T_gte (advance request (unseen X (item0 :: more))) = Some (item_time item0).
Proof.
  intros HF Hans Hsorted Hone.
  destruct (page_times request item0 more Hans Hsorted) as ([Hl1 Hl2] & _ & Hall & _).
  rewrite <- Hone in *.
  rewrite advance_T_gte.
  destruct (last (unseen X (item0 :: more))) as [z|] eqn:Hlast.
  - f_equal. apply last_Some_elem_of in Hlast.
    assert (Hz : z ∈ item0 :: more)
      by (apply (elem_of_sublist (unseen X (item0 :: more))); [done|apply unseen_sublist]).
    destruct (Hall z Hz) as [Hz' _]. lia.
  - apply last_None in Hlast.
    assert (Hin : item_id item0 ∈ X).
    { pose proof (ids_unseen_union X (item0 :: more)) as Hu. rewrite Hlast in Hu.
      assert (Hi : item_id item0 ∈ ids (item0 :: more) ∪ X)
        by (rewrite ids_cons; set_solver).
      rewrite <- Hu in Hi. unfold ids in Hi; simpl in Hi. set_solver. }
    destruct (Hall item0) as [_ Htm]; [left|].
    destruct (frontier_seen tm E request X HF _ Hin) as [(v & Hv & Ht)|(v & Hv & Ht)].
    + rewrite Hv. f_equal. specialize (Hl1 v Hv). lia.
    + specialize (Hl2 v Hv). lia.
Qed.

(** After a page of several timestamps the set can be cut down to the
    ids of the page. *)
Lemma strip_frontier (E : gset string) (request : SearchRequest) (X : gset string)
    (item0 : Item) (more : list Item) :
  frontier tm E request X ->
  answers tm request (item0 :: more) -> sorted_by_time (item0 :: more) ->
  item_time item0 <> item_time (List.last more item0) ->
  frontier tm (E ∪ ids (unseen X (item0 :: more)))
    (advance request (unseen X (item0 :: more))) (ids (item0 :: more)).
Proof.
  intros HF Hans Hsorted Hne.
  set (l := item0 :: more) in *. set (U := unseen X l).
  set (L := List.last more item0) in *.
  destruct (page_times request item0 more Hans Hsorted) as ([Hl1 Hl2] & Hle & Hall & HtmL).
  fold L in Hl1, Hl2, Hle, Hall, HtmL.
  destruct (page_frontier E request X l HF Hans Hsorted) as [_ [F1 F2 F3]]. fold U in F1, F2, F3.
  assert (Hlow0 : lower_ok request (item_time item0))
    by (destruct (answers_lower request l item0 Hans) as [H _]; [left|done]).
  assert (HLin : L ∈ l) by (apply last_Some_elem_of, last_cons_default).
  assert (HLX : item_id L ∉ X).
  { intros Hin.
    destruct (frontier_seen tm E request X HF _ Hin) as [(v & Hv & Ht)|(v & Hv & Ht)].
    - destruct Hlow0 as [H0 _]. specialize (H0 v Hv). lia.
    - specialize (Hl2 v Hv). lia. }
  assert (HLU : item_id L ∈ ids U).
  { pose proof (ids_unseen_union X l) as Hu. fold U in Hu.
    assert (Hi : item_id L ∈ ids l ∪ X).
    { apply elem_of_union; left. apply elem_of_ids. eauto. }
    rewrite <- Hu in Hi. set_solver. }
  assert (Hgte : T_gte (advance request U) = Some (item_time L)).
  { apply elem_of_ids in HLU as (u & Hu & Hid).
    assert (HsU : sorted_by_time U) by (apply (sorted_sublist U l); [apply unseen_sublist|done]).
    rewrite advance_T_gte. destruct (last U) as [z|] eqn:Hlast.
    - f_equal. pose proof (sorted_le_last U z HsU Hlast u Hu) as Huz.
      apply last_Some_elem_of in Hlast.
      assert (Hzl : z ∈ l) by (apply (elem_of_sublist U); [done|apply unseen_sublist]).
      assert (Hul : u ∈ l) by (apply (elem_of_sublist U); [done|apply unseen_sublist]).
      destruct (Hall z Hzl) as [[_ Hz] _]. destruct (Hall u Hul) as [_ Htu].
      rewrite Hid, HtmL in Htu. lia.
    - apply last_None in Hlast. rewrite Hlast in Hu. by apply elem_of_nil in Hu. }
  split.
  - intros x Hx. apply F1.
    pose proof (ids_unseen_union X l) as Hu. fold U in Hu. rewrite Hu. set_solver.
  - done.
  - intros x Hx [G1 G2]. apply elem_of_union in Hx as [Hx|Hx].
    + exfalso. specialize (G1 _ Hgte). rewrite advance_T_gt in G2.
      destruct (frontier_yielded tm E request X HF _ Hx) as [(v & Hv & Ht)|(v & Hv & Ht)].
      * destruct Hlow0 as [H0 _]. specialize (H0 v Hv). lia.
      * specialize (G2 v Hv). lia.
    + apply elem_of_ids in Hx as (u & Hu & <-). apply elem_of_ids. exists u.
      split; [|done]. apply (elem_of_sublist U l); [done|apply unseen_sublist].
Qed.

End Frontier.

Section Deduplication.

Import BaseCursor Scenario.

Variable tm : string -> datetime.

Lemma established_nothing (E : gset string) (c : Cursor) (σ : Heap) (acts : list Action) :
  yields acts = [] ->
  frontier tm E (_request c) (seen σ c) ->
  established tm E c acts c σ.
Proof.
  intros Hy HF. unfold established, yielded_ids. rewrite Hy. simpl.
  split; [constructor|]. split; [intros x Hx; by apply elem_of_nil in Hx|].
  split; [|done]. by rewrite (right_id_L ∅ (∪)).
Qed.

Lemma established_items (E : gset string) (c : Cursor) (acts : list Action)
    (l : list Item) (X : gset string) (c' : Cursor) (σ' : Heap) :
  yields acts = map _construct_event (unseen X l) ->
  (forall x, x ∈ ids (unseen X l) -> x ∉ E) ->
  frontier tm (E ∪ ids (unseen X l)) (_request c') (seen σ' c') ->
  cursor_class c' = cursor_class c ->
  established tm E c acts c' σ'.
Proof.
  intros Hy Hnew HF Hcls. unfold established.
  rewrite (yielded_ids_events acts _ Hy).
  split; [apply unseen_NoDup|]. split; [|done].
  intros x Hx. apply Hnew. unfold ids. by apply elem_of_list_to_set.
Qed.

(** One pass through the body of the loop. *)
Lemma body_established (script : Script) (c : Cursor) (σ : Heap) (E : gset string) :
  Forall (honest tm (_get_time_field (cursor_class c))) (step_actions (body script c σ)) ->
  frontier tm E (_request c) (seen σ c) ->
  established tm E c (step_actions (body script c σ))
    (step_cursor (body script c σ)) (step_heap (body script c σ)).
Proof.
  intros Hhonest HF.
  destruct script as [|[response|e] script]; [by apply established_nothing|..|by apply established_nothing].
  destruct (items_list response) as [|item0 more] eqn:Hitems.
  { unfold body. rewrite Hitems. by apply established_nothing. }
  revert Hhonest. rewrite (body_page response script c σ item0 more Hitems). cbv zeta.
  set (m := _get_time (List.last more item0)).
  set (c1 := set_prev_response c (Some response)).
  set (X := seen σ c1).
  set (U := unseen X (item0 :: more)).
  set (c2 := set_request c1 (advance (_request c1) U)).
  set (σ2 := add_all U c1 σ).
  set (call := Fetch (_request c) (_get_time_field (cursor_class c)) (Fetched response)).
  set (acts1 := map (fun item => Yield (_construct_event item)) U).
  set (sub := ByIdCursor.__iter__ script (evolve_T_lte (_request c2) m)).
  set (d := drain (ByIdCursor.actions sub) c2 σ2).
  assert (Hseen2 : seen σ2 c2 = ids U ∪ X) by (by apply add_all_seen).
  assert (Hpage : Forall (honest tm (_get_time_field (cursor_class c))) (call :: acts1) ->
            answers tm (_request c) (item0 :: more) /\ sorted_by_time (item0 :: more)).
  { intros Hh. apply Forall_cons in Hh as [[Ha Hs] _]. rewrite Hitems in Ha, Hs.
    split; [done|by apply Hs]. }
  assert (Hy1 : yields (call :: acts1) = map _construct_event U)
    by (apply cursor_yields_map).
  destruct (negb (has_more_true response)).
  { cbn [step_actions step_cursor step_heap]. intros Hh.
    destruct (Hpage Hh) as [Hans Hsorted].
    destruct (page_frontier tm E (_request c) X (item0 :: more) HF Hans Hsorted) as [Hnew HF1].
    apply (established_items E c _ (item0 :: more) X); try done. by rewrite Hseen2. }
  destruct (decide (_get_time item0 = m)) as [Hone|Hne].
  - assert (Hacts : Forall (honest tm (_get_time_field (cursor_class c)))
                       (call :: acts1 ++ d.1) ->
              answers tm (_request c) (item0 :: more) /\ sorted_by_time (item0 :: more)
              /\ (forall x, x ∈ ids (unseen X ((item0 :: more) ++ ByIdCursor.yields (ByIdCursor.actions sub))) -> x ∉ E)
              /\ frontier tm (E ∪ ids (unseen X ((item0 :: more) ++ ByIdCursor.yields (ByIdCursor.actions sub))))
                    (_request c2) (seen d.2 c2)
              /\ yields (call :: acts1 ++ d.1)
                  = map _construct_event
                      (unseen X ((item0 :: more) ++ ByIdCursor.yields (ByIdCursor.actions sub)))
              /\ T_gte (_request c2) = Some m
              /\ (forall x, x ∈ ids (unseen X ((item0 :: more) ++ ByIdCursor.yields (ByIdCursor.actions sub))) -> tm x <= m)).
    { intros Hh.
      assert (Hh1 : Forall (honest tm (_get_time_field (cursor_class c))) (call :: acts1)).
      { rewrite Forall_forall in Hh |- *. intros a Ha. apply Hh.
        apply elem_of_cons in Ha as [->|Ha]; [left|right; apply elem_of_app; by left]. }
      destruct (Hpage Hh1) as [Hans Hsorted].
      destruct (page_frontier tm E (_request c) X (item0 :: more) HF Hans Hsorted) as [Hnew HF1].
      pose proof (page_one_time tm E (_request c) X item0 more HF Hans Hsorted Hone) as Hgte.
      fold U in Hnew, HF1, Hgte. unfold _get_time in Hone. rewrite Hone in Hgte.
      destruct (page_times tm (_request c) item0 more Hans Hsorted) as ([Hl1 Hl2] & _ & Hall & _).
      fold m in Hl1, Hl2, Hall.
      set (D := ByIdCursor.yields (ByIdCursor.actions sub)).
      assert (HD : forall item, item ∈ D ->
                lower_ok (advance (_request c) U) (tm (item_id item))
                /\ covered (advance (_request c) U) (tm (item_id item))).
      { intros item Hin.
        destruct (by_id_yields_fetched script (evolve_T_lte (_request c2) m) item Hin)
          as (q & r0 & Hq & Hr0 & Q1 & Q2 & Q3).
        assert (Hcall : Fetch q "id" (Fetched r0) ∈ call :: acts1 ++ d.1).
        { right. apply elem_of_app. right. apply drain_calls.
          unfold calls_by_id. apply list_elem_of_omap. eexists. split; [exact Hq|done]. }
        rewrite Forall_forall in Hh. destruct (Hh _ Hcall) as [Hq_ans _].
        destruct (answers_lower tm q _ item Hq_ans Hr0) as (_ & [G1 G2] & Htm & Hlte).
        specialize (Hlte m Q3). rewrite Htm in Hlte.
        split; [split|].
        - intros v Hv. apply G1. by rewrite Q1.
        - intros v Hv. apply G2. by rewrite Q2.
        - left. exists m. done. }
      destruct (drain_frontier tm _ _ _ D HF1 HD) as [Hnew2 HF2].
      destruct (drain_unseen (ByIdCursor.actions sub) c2 σ2) as (Hyd & Hσd & _).
      fold d D in Hyd, Hσd. rewrite Hseen2 in Hyd, Hσd.
      assert (Happ : unseen X ((item0 :: more) ++ D) = U ++ unseen (ids U ∪ X) D)
        by apply unseen_app.
      rewrite Happ, ids_app.
      split; [done|]. split; [done|]. split.
      { intros x [Hx|Hx]%elem_of_union; [by apply Hnew|].
        intros HxE. apply (Hnew2 x Hx). apply elem_of_union. by left. }
      split.
      { assert (Hsd : seen d.2 c2 = ids (unseen (ids U ∪ X) D) ∪ (ids U ∪ X)).
        { rewrite Hσd. rewrite add_all_seen by done. by rewrite Hseen2. }
        rewrite Hsd.
        assert (Heq : E ∪ (ids U ∪ ids (unseen (ids U ∪ X) D))
                      = E ∪ ids U ∪ ids (unseen (ids U ∪ X) D)) by set_solver.
        by rewrite Heq. }
      split.
      { change (yields (call :: ?l)) with (yields l).
        rewrite cursor_yields_app, Hyd, map_app. f_equal. apply cursor_yields_map. }
      split; [done|].
      intros x [Hx|Hx]%elem_of_union.
      - apply elem_of_ids in Hx as (item & Hin & <-).
        assert (Hin' : item ∈ item0 :: more)
          by (apply (elem_of_sublist U); [done|apply unseen_sublist]).
        destruct (Hall item Hin') as [[_ Hle] ->]. done.
      - apply elem_of_ids in Hx as (item & Hin & <-).
        assert (Hin' : item ∈ D)
          by (apply (elem_of_sublist (unseen (ids U ∪ X) D)); [done|apply unseen_sublist]).
        destruct (HD item Hin') as [_ [(v & Hv & Ht)|(v & Hv & Ht)]].
        + rewrite Hgte in Hv. by inversion Hv; subst.
        + rewrite advance_T_gt in Hv. specialize (Hl2 v Hv).
          unfold m, _get_time in *. lia. }
    destruct (ByIdCursor.outcome sub) eqn:Hout;
      cbn [step_actions step_cursor step_heap]; intros Hh;
      destruct (Hacts Hh) as (Hans & Hsorted & Hnew & HF2 & Hy & Hgte & Hle).
    2-4: by apply (established_items E c _
                     ((item0 :: more) ++ ByIdCursor.yields (ByIdCursor.actions sub)) X).
    apply (established_items E c _
             ((item0 :: more) ++ ByIdCursor.yields (ByIdCursor.actions sub)) X); try done.
    rewrite seen_strip. cbn [strip fst _request set_seen_ids set_request].
    destruct (page_times tm (_request c) item0 more Hans Hsorted) as ([Hl1 Hl2] & _ & Hall & _).
    fold m in Hl1, Hl2, Hall.
    apply frontier_past.
    + intros x [Hx|Hx]%elem_of_union; [|by apply Hle].
      destruct (frontier_yielded tm E _ _ HF x Hx) as [(v & Hv & Ht)|(v & Hv & Ht)].
      * specialize (Hl1 v Hv). unfold m, _get_time in *. lia.
      * specialize (Hl2 v Hv). unfold m, _get_time in *. lia.
    + intros x Hx. apply elem_of_ids in Hx as (item & Hin & <-).
      destruct (Hall item Hin) as [[_ Hle'] ->]. done.
  - cbn [step_actions step_cursor step_heap]. intros Hh.
    destruct (Hpage Hh) as [Hans Hsorted].
    destruct (page_frontier tm E (_request c) X (item0 :: more) HF Hans Hsorted) as [Hnew HF1].
    apply (established_items E c _ (item0 :: more) X); try done.
    rewrite seen_strip. cbn [strip fst _request set_seen_ids].
    by apply strip_frontier.
Qed.

Lemma established_app (E : gset string) (c c1 c2 : Cursor) (σ1 σ2 : Heap)
    (acts1 acts2 : list Action) :
  established tm E c acts1 c1 σ1 ->
  established tm (E ∪ list_to_set (yielded_ids acts1)) c1 acts2 c2 σ2 ->
  established tm E c (acts1 ++ acts2) c2 σ2.
Proof.
  intros (N1 & D1 & F1 & C1) (N2 & D2 & F2 & C2). unfold established.
  rewrite yielded_ids_app. split; [|split; [|split]].
  - apply NoDup_app. split; [done|]. split; [|done].
    intros x Hx1 Hx2. apply (D2 x Hx2). apply elem_of_union. right.
    by apply elem_of_list_to_set.
  - intros x [Hx|Hx]%elem_of_app; [by apply D1|].
    intros HE. apply (D2 x Hx). apply elem_of_union. by left.
  - rewrite list_to_set_app_L.
    by rewrite (assoc_L (∪)).
  - congruence.
Qed.

Lemma loop_established (fuel : nat) (script : Script) (c : Cursor) (σ : Heap)
    (E : gset string) :
  Forall (honest tm (_get_time_field (cursor_class c))) (actions (loop fuel script c σ)) ->
  frontier tm E (_request c) (seen σ c) ->
  established tm E c (actions (loop fuel script c σ))
    (cursor (loop fuel script c σ)) (heap (loop fuel script c σ)).
Proof.
  revert script c σ E. induction fuel as [|fuel IH]; intros script c σ E.
  - intros _ HF. by apply established_nothing.
  - simpl. pose proof (body_established script c σ E) as Hbody.
    destruct (step_flow (body script c σ)).
    + cbn [prepend actions cursor heap]. intros [H1 H2]%Forall_app HF.
      specialize (Hbody H1 HF).
      apply (established_app E c (step_cursor (body script c σ)) _
               (step_heap (body script c σ))); [done|].
      destruct Hbody as (_ & _ & HF' & Hcls).
      apply IH; [by rewrite Hcls|done].
    + cbn [actions cursor heap]. intros H1 HF. by apply Hbody.
Qed.

Lemma iterations_established (n : nat) (script : Script) (c : Cursor) (σ : Heap)
    (E : gset string) :
  Forall (honest tm (_get_time_field (cursor_class c))) (actions (iterations n script c σ)) ->
  frontier tm E (_request c) (seen σ c) ->
  established tm E c (actions (iterations n script c σ))
    (cursor (iterations n script c σ)) (heap (iterations n script c σ)).
Proof.
  revert script c σ E. induction n as [|n IH]; intros script c σ E.
  - intros _ HF. by apply established_nothing.
  - simpl. pose proof (loop_established (S (length script)) script c σ E) as Hrun.
    fold (__iter__ script c σ) in Hrun.
    destruct (outcome (__iter__ script c σ)); [|by apply Hrun..].
    cbn [prepend actions cursor heap]. intros [H1 H2]%Forall_app HF.
    specialize (Hrun H1 HF).
    apply (established_app E c (cursor (__iter__ script c σ)) _
             (heap (__iter__ script c σ))); [done|].
    destruct Hrun as (_ & _ & HF' & Hcls).
    apply IH; [by rewrite Hcls|done].
Qed.

(** C1, as the code has it.  Let one cursor be iterated any number of
    times, each iteration starting when the one before has returned, and
    let every call of the fetcher be honest: the items of a response
    satisfy the predicates of the request that was issued, the response of
    a call sorted by the time field is sorted by time, and an item has the
    same time [tm] in every response.  Then no id is yielded twice, within
    an iteration or across iterations.  The cursor is a new one, or any
    cursor whose [_seen_ids] holds no id with a time after the lower bounds
    of its request, as is the case after iterations. *)
Theorem no_duplication (n : nat) (script : Script) (c : Cursor) (σ : Heap) :
  (forall x, x ∈ seen σ c -> covered (_request c) (tm x)) ->
  Forall (honest tm (_get_time_field (cursor_class c))) (actions (iterations n script c σ)) ->
  NoDup (yielded_ids (actions (iterations n script c σ))).
Proof.
  intros Hseen Hhonest.
  assert (HF : frontier tm ∅ (_request c) (seen σ c)).
  { split; [done|intros x Hx; by apply not_elem_of_empty in Hx..]. }
  by destruct (iterations_established n script c σ ∅ Hhonest HF) as [Hnd _].
Qed.

End Deduplication.

Section DeduplicationScenario.

Import BaseCursor Scenario.

(** The two iterations of S3, where the second response repeats [b]. *)
Lemma no_duplication_witness :
  NoDup (yielded_ids (actions (iterations 2
           [answer [mk_item "a" 1; mk_item "b" 2] false;
            answer [mk_item "b" 2; mk_item "c" 3] false] cursor0 heap0)))
  /\ yielded_ids (actions (iterations 2
           [answer [mk_item "a" 1; mk_item "b" 2] false;
            answer [mk_item "b" 2; mk_item "c" 3] false] cursor0 heap0))
     = ["a"; "b"; "c"]%string.
Proof.
  split; [|vm_compute; reflexivity].
  apply (no_duplication Scenario.tm 2 S1 cursor0 heap0).
  - assert (H0 : seen heap0 cursor0 = ∅).
    { unfold seen, heap0, cursor0, new; simpl. apply lookup_total_insert_eq. }
    intros x Hx. rewrite H0 in Hx. by apply not_elem_of_empty in Hx.
  - assert (Hacts : actions (iterations 2 S1 cursor0 heap0)
        = [ Fetch (_request cursor0) "created" (answer [mk_item "a" 1; mk_item "b" 2] false);
            Yield (_construct_event (mk_item "a" 1));
            Yield (_construct_event (mk_item "b" 2));
            Fetch (evolve_T_gte (_request cursor0) 2) "created"
              (answer [mk_item "b" 2; mk_item "c" 3] false);
            Yield (_construct_event (mk_item "c" 3)) ]) by (vm_compute; reflexivity).
    rewrite Hacts.
    repeat (apply Forall_cons; split); try apply Forall_nil; try exact I.
    + split; [|intros _].
      * repeat (apply Forall_cons; split); try apply Forall_nil; split; reflexivity.
      * repeat constructor; simpl; lia.
    + split; [|intros _].
      * repeat (apply Forall_cons; split); try apply Forall_nil; split; reflexivity.
      * repeat constructor; simpl; lia.
Defined.

(** C1, as the specification has it, fails when an id comes again with
    another time.  In [time_changes] every response is sorted by time and
    satisfies the request that was issued, and the iteration returns; but
    [a] comes back with a later time when [_seen_ids] no longer holds it,
    and it is yielded a second time. *)
Lemma changed_time_is_yielded_again :
  let r := __iter__ time_changes cursor0 heap0 in
  Forall (well_answered (_get_time_field (cursor_class cursor0))) (actions r)
  /\ outcome r = Returned
  /\ yielded_ids (actions r) = ["a"; "b"; "c"; "d"; "a"]%string
  /\ ~ NoDup (yielded_ids (actions r)).
Proof.
  assert (Hacts : actions (__iter__ time_changes cursor0 heap0)
    = [ Fetch (_request cursor0) "created" (answer [mk_item "a" 1; mk_item "b" 2] true);
        Yield (_construct_event (mk_item "a" 1));
        Yield (_construct_event (mk_item "b" 2));
        Fetch (evolve_T_gte (_request cursor0) 2) "created"
          (answer [mk_item "c" 3; mk_item "d" 4] true);
        Yield (_construct_event (mk_item "c" 3));
        Yield (_construct_event (mk_item "d" 4));
        Fetch (evolve_T_gte (_request cursor0) 4) "created" (answer [mk_item "a" 5] false);
        Yield (_construct_event (mk_item "a" 5)) ]) by (vm_compute; reflexivity).
  cbv zeta. rewrite Hacts. split; [|split; [|split]].
  - repeat (apply Forall_cons; split); try apply Forall_nil; try exact I.
    all: split; [|intros _; repeat constructor; simpl; lia].
    all: repeat (apply Forall_cons; split); try apply Forall_nil; reflexivity.
  - vm_compute. reflexivity.
  - reflexivity.
  - intros Hnd. change (NoDup ["a"; "b"; "c"; "d"; "a"]%string) in Hnd.
    apply NoDup_cons in Hnd as [Hnotin _]. apply Hnotin.
    do 3 right. left.
Qed.

End DeduplicationScenario.

(** ** More on the sub-cursor by id *)

Section ByIdMore.

Import ByIdCursor.

(** When the fetcher fails after pages that all say [has_more], the
    exception leaves the iteration.  The items of the pages before the
    failure were yielded, in order, and [self.request] holds the [id_gt]
    of the last of them, so that a new iteration from that request goes on
    after them.  The answers after the failure are not consumed. *)
Theorem by_id_failure_keeps_progress (pages : list Response) (e : Exn)
    (script : Script) (request : SearchRequest) :
  Forall (fun p => has_more p = Some true) pages ->
  let r := __iter__ (map Fetched pages ++ FetchFailed e :: script) request in
  outcome r = Raised e
  /\ rest r = script
  /\ yields (actions r) = concat (map items_list pages)
  /\ ByIdCursor.request r = (described request pages).2
  /\ last (actions r) = Some (Fetch (described request pages).2 (FetchFailed e)).
Proof.
  intros Hpages. revert request.
  induction Hpages as [|p pages Hp _ IH]; intros request; simpl; [done|].
  assert (Hyes : has_more_true p = true) by (unfold has_more_true; by rewrite Hp).
  rewrite Hyes. pose proof (page_described request p) as Hpg.
  pose proof (yields_page request p) as Hy.
  destruct (page request p) as [acts request'] eqn:E; simpl in *.
  injection Hpg as Hacts Hreq.
  destruct (IH request') as (IH1 & IH2 & IH3 & IH4 & IH5).
  assert (Hd : (described request (p :: pages)).2 = (described request' pages).2).
  { simpl. rewrite <- Hreq. by destruct (described request' pages). }
  simpl in Hd. rewrite Hd.
  split; [done|]. split; [done|]. split; [|split; [done|]].
  - rewrite yields_app, IH3. by rewrite Hy.
  - rewrite app_comm_cons, last_app, IH5. done.
Qed.

Lemma by_id_failure_keeps_progress_witness :
  let r := __iter__ (map Fetched [ {| items := Some [Scenario.mk_item "x4" 5; Scenario.mk_item "x5" 5];
                                      has_more := Some true |} ]
                     ++ FetchFailed (RemoteError "503") :: Scenario.S4) Scenario.no_predicate in
  outcome r = Raised (RemoteError "503")
  /\ id_gt (ByIdCursor.request r) = Some "x5"%string.
Proof.
  pose proof (by_id_failure_keeps_progress
    [ {| items := Some [Scenario.mk_item "x4" 5; Scenario.mk_item "x5" 5];
         has_more := Some true |} ]
    (RemoteError "503") Scenario.S4 Scenario.no_predicate) as H.
  destruct H as (H1 & _ & _ & H4 & _).
  - repeat constructor.
  - split; [exact H1|]. rewrite H4. reflexivity.
Defined.

(** The sub-cursor changes [id_gt] only: the time bounds of the request
    of every call, of every assignment and of the request it ends with are
    those of the request it was given. *)
Theorem by_id_keeps_time_bounds (script : Script) (request : SearchRequest) :
  let r := __iter__ script request in
  let same (q : SearchRequest) :=
    T_gte q = T_gte request /\ T_gt q = T_gt request /\ T_lte q = T_lte request in
  same (ByIdCursor.request r)
  /\ Forall (fun a => match a with
                      | Fetch q _ => same q
                      | SetRequest q => same q
                      | Yield _ => True
                      end) (actions r).
Proof.
  cbv zeta. revert request.
  induction script as [|[response|e] script IH]; intros request; simpl.
  - split; [done|constructor].
  - pose proof (page_described request response) as Hpg.
    destruct (page request response) as [acts request'] eqn:E.
    injection Hpg as Hacts Hreq.
    assert (Hsame : T_gte request' = T_gte request /\ T_gt request' = T_gt request
                    /\ T_lte request' = T_lte request).
    { rewrite Hreq. by destruct (last (items_list response)). }
    assert (Hpage : Forall (fun a => match a with
                      | Fetch q _ | SetRequest q =>
                          T_gte q = T_gte request /\ T_gt q = T_gt request
                          /\ T_lte q = T_lte request
                      | Yield _ => True
                      end) (Fetch request (Fetched response) :: acts)).
    { constructor; [done|]. rewrite Hacts. apply Forall_app. split.
      - apply Forall_forall. intros a Ha. apply list_elem_of_fmap in Ha as (item & -> & _). done.
      - destruct (last (items_list response)); repeat constructor. }
    destruct Hsame as (S1 & S2 & S3).
    destruct (has_more_true response); cbn [prepend actions ByIdCursor.request].
    + destruct (IH request') as [IH1 IH2]. rewrite S1, S2, S3 in IH1, IH2.
      split; [done|]. by apply Forall_app.
    + done.
  - split; [done|]. repeat constructor.
Qed.

End ByIdMore.

(** ** More on one iteration of a cursor *)

Section IterationMore.

Import BaseCursor Scenario.

Lemma advance_keeps (request : SearchRequest) (l : list Item) :
  T_lte (advance request l) = T_lte request /\ id_gt (advance request l) = id_gt request.
Proof. unfold advance. by destruct (last l). Qed.

Lemma body_keeps (script : Script) (c : Cursor) (σ : Heap) :
  T_lte (_request (step_cursor (body script c σ))) = T_lte (_request c)
  /\ id_gt (_request (step_cursor (body script c σ))) = id_gt (_request c)
  /\ cursor_class (step_cursor (body script c σ)) = cursor_class c.
Proof.
  destruct script as [|[response|e] script]; [done|..|done].
  destruct (items_list response) as [|item0 more] eqn:Hitems.
  { unfold body. by rewrite Hitems. }
  rewrite (body_page response script c σ item0 more Hitems). cbv zeta.
  set (U := unseen (seen σ (set_prev_response c (Some response))) (item0 :: more)).
  destruct (advance_keeps (_request c) U) as [A1 A2].
  destruct (negb (has_more_true response)); [done|].
  destruct (decide (_get_time item0 = _get_time (List.last more item0))); [|done].
  by destruct (ByIdCursor.outcome _).
Qed.

Lemma loop_keeps (fuel : nat) (script : Script) (c : Cursor) (σ : Heap) :
  T_lte (_request (cursor (loop fuel script c σ))) = T_lte (_request c)
  /\ id_gt (_request (cursor (loop fuel script c σ))) = id_gt (_request c)
  /\ cursor_class (cursor (loop fuel script c σ)) = cursor_class c.
Proof.
  revert script c σ. induction fuel as [|fuel IH]; intros script c σ; [done|].
  simpl. destruct (body_keeps script c σ) as (B1 & B2 & B3).
  destruct (step_flow (body script c σ)); [|done].
  cbn [prepend cursor].
  destruct (IH (step_rest (body script c σ)) (step_cursor (body script c σ))
               (step_heap (body script c σ))) as (I1 & I2 & I3).
  by rewrite I1, I2, I3.
Qed.

(** Whatever the fetcher answers, and over any number of iterations, a
    cursor never changes the upper time bound [T_lte] and the [id_gt] of
    its own request (the sub-cursor works on a request of its own), nor
    its class. *)
Theorem iterations_keep_upper_bound (n : nat) (script : Script) (c : Cursor) (σ : Heap) :
  T_lte (_request (cursor (iterations n script c σ))) = T_lte (_request c)
  /\ id_gt (_request (cursor (iterations n script c σ))) = id_gt (_request c)
  /\ cursor_class (cursor (iterations n script c σ)) = cursor_class c.
Proof.
  revert script c σ. induction n as [|n IH]; intros script c σ; [done|].
  simpl. destruct (loop_keeps (S (length script)) script c σ) as (L1 & L2 & L3).
  fold (__iter__ script c σ) in L1, L2, L3.
  destruct (outcome (__iter__ script c σ)); try done.
  cbn [prepend cursor].
  destruct (IH (rest (__iter__ script c σ)) (cursor (__iter__ script c σ))
               (heap (__iter__ script c σ))) as (I1 & I2 & I3).
  by rewrite I1, I2, I3.
Qed.

(** What a pass yields: the items of some list, filtered through the
    set as it was at the start, and every item of the list is in a
    response to a call of the pass. *)
Lemma body_yields (script : Script) (c : Cursor) (σ : Heap) :
  exists l,
    yields (step_actions (body script c σ)) = map _construct_event (unseen (seen σ c) l)
    /\ (forall item, item ∈ l ->
          exists request sort response,
            Fetch request sort (Fetched response) ∈ step_actions (body script c σ)
            /\ item ∈ items_list response).
Proof.
  assert (Hnone : forall acts, yields acts = [] ->
            exists l, yields acts = map _construct_event (unseen (seen σ c) l)
              /\ (forall item, item ∈ l ->
                    exists request sort response,
                      Fetch request sort (Fetched response) ∈ acts
                      /\ item ∈ items_list response)).
  { intros acts Hy. exists []. split; [done|]. intros item Hin. by apply elem_of_nil in Hin. }
  destruct script as [|[response|e] script]; [by apply Hnone|..|by apply Hnone].
  destruct (items_list response) as [|item0 more] eqn:Hitems.
  { unfold body. rewrite Hitems. by apply Hnone. }
  rewrite (body_page response script c σ item0 more Hitems). cbv zeta.
  set (m := _get_time (List.last more item0)).
  set (c1 := set_prev_response c (Some response)).
  set (U := unseen (seen σ c1) (item0 :: more)).
  set (c2 := set_request c1 (advance (_request c1) U)).
  set (σ2 := add_all U c1 σ).
  set (call := Fetch (_request c) (_get_time_field (cursor_class c)) (Fetched response)).
  set (acts1 := map (fun item => Yield (_construct_event item)) U).
  set (sub := ByIdCursor.__iter__ script (evolve_T_lte (_request c2) m)).
  set (d := drain (ByIdCursor.actions sub) c2 σ2).
  assert (Hpage : exists l,
            yields (call :: acts1) = map _construct_event (unseen (seen σ c) l)
            /\ (forall item, item ∈ l ->
                  exists request sort response0,
                    Fetch request sort (Fetched response0) ∈ call :: acts1
                    /\ item ∈ items_list response0)).
  { exists (item0 :: more). split; [apply cursor_yields_map|].
    intros item Hin. exists (_request c), (_get_time_field (cursor_class c)), response.
    split; [left|by rewrite Hitems]. }
  assert (Hdrain : exists l,
            yields (call :: acts1 ++ d.1) = map _construct_event (unseen (seen σ c) l)
            /\ (forall item, item ∈ l ->
                  exists request sort response0,
                    Fetch request sort (Fetched response0) ∈ call :: acts1 ++ d.1
                    /\ item ∈ items_list response0)).
  { exists ((item0 :: more) ++ ByIdCursor.yields (ByIdCursor.actions sub)). split.
    - change (yields (call :: ?l)) with (yields l).
      destruct (drain_unseen (ByIdCursor.actions sub) c2 σ2) as (Hyd & _ & _).
      fold d in Hyd. rewrite cursor_yields_app, Hyd.
      assert (Hseen2 : seen σ2 c2 = ids U ∪ seen σ c)
        by (apply (add_all_seen U c1 c2 σ); done).
      rewrite Hseen2. rewrite (unseen_app (seen σ c)), map_app. f_equal.
      apply cursor_yields_map.
    - intros item [Hin|Hin]%elem_of_app.
      + exists (_request c), (_get_time_field (cursor_class c)), response.
        split; [left|by rewrite Hitems].
      + destruct (by_id_yields_fetched script (evolve_T_lte (_request c2) m) item Hin)
          as (q & r0 & Hq & Hr0 & _).
        exists q, "id"%string, r0. split; [|done].
        right. apply elem_of_app. right. apply drain_calls.
        unfold calls_by_id. apply list_elem_of_omap. eexists. split; [exact Hq|done]. }
  destruct (negb (has_more_true response)); [done|].
  destruct (decide (_get_time item0 = m)); [|done].
  by destruct (ByIdCursor.outcome sub).
Qed.

(** Within one pass through the body of the loop no id is yielded twice
    and no id is yielded that [_seen_ids] held at the start of the pass,
    whatever the fetcher answers, even when a response repeats an item. *)
Theorem pass_yields_unseen_once (script : Script) (c : Cursor) (σ : Heap) :
  NoDup (yielded_ids (step_actions (body script c σ)))
  /\ (forall x, x ∈ yielded_ids (step_actions (body script c σ)) -> x ∉ seen σ c).
Proof.
  destruct (body_yields script c σ) as (l & Hy & _).
  rewrite (yielded_ids_events _ _ Hy). split; [apply unseen_NoDup|].
  intros x Hx. apply (unseen_not_seen (seen σ c) l). unfold ids.
  by apply elem_of_list_to_set.
Qed.

Lemma loop_yields_fetched (fuel : nat) (script : Script) (c : Cursor) (σ : Heap)
    (event : Event) :
  event ∈ yields (actions (loop fuel script c σ)) ->
  exists request sort response,
    Fetch request sort (Fetched response) ∈ actions (loop fuel script c σ)
    /\ event_item event ∈ items_list response
    /\ event_time event = item_time (event_item event).
Proof.
  revert script c σ. induction fuel as [|fuel IH]; intros script c σ.
  { intros H. by apply elem_of_nil in H. }
  simpl.
  assert (Hbody : event ∈ yields (step_actions (body script c σ)) ->
            exists request sort response,
              Fetch request sort (Fetched response) ∈ step_actions (body script c σ)
              /\ event_item event ∈ items_list response
              /\ event_time event = item_time (event_item event)).
  { destruct (body_yields script c σ) as (l & Hy & Hl). rewrite Hy.
    intros (item & -> & Hin)%list_elem_of_fmap.
    assert (Hin' : item ∈ l) by (apply (elem_of_sublist (unseen (seen σ c) l)); [done|apply unseen_sublist]).
    destruct (Hl item Hin') as (q & s & r0 & H1 & H2). exists q, s, r0. done. }
  destruct (step_flow (body script c σ)); [|done].
  cbn [prepend actions]. rewrite cursor_yields_app.
  intros [Hin|Hin]%elem_of_app.
  - destruct (Hbody Hin) as (q & s & r0 & H1 & H2). exists q, s, r0.
    split; [apply elem_of_app; by left|done].
  - destruct (IH _ _ _ Hin) as (q & s & r0 & H1 & H2). exists q, s, r0.
    split; [apply elem_of_app; by right|done].
Qed.

(** An iteration yields nothing of its own making: the item of every
    event it yields is an item of a response to one of its calls of the
    fetcher, and the time of the event is the time of the item. *)
Theorem yields_were_fetched (script : Script) (c : Cursor) (σ : Heap) (event : Event) :
  event ∈ yields (actions (__iter__ script c σ)) ->
  exists request sort response,
    Fetch request sort (Fetched response) ∈ actions (__iter__ script c σ)
    /\ event_item event ∈ items_list response
    /\ event_time event = item_time (event_item event).
Proof. apply loop_yields_fetched. Qed.

Lemma yields_were_fetched_witness :
  exists request sort response,
    Fetch request sort (Fetched response) ∈ actions (__iter__ S2 cursor0 heap0)
    /\ mk_item "x4" 5 ∈ items_list response.
Proof.
  destruct (yields_were_fetched S2 cursor0 heap0 (_construct_event (mk_item "x4" 5)))
    as (q & s & r0 & H1 & H2 & _).
  - vm_compute. do 3 right. left.
  - exists q, s, r0. split; [exact H1|exact H2].
Defined.

End IterationMore.

(** ** Polling again, request bounds and other sets *)

Section Polling.

Import BaseCursor Scenario.

Lemma unseen_all_seen (X : gset string) (l : list Item) :
  ids l ⊆ X -> unseen X l = [].
Proof.
  induction l as [|item more IH]; intros Hsub; [done|].
  rewrite ids_cons in Hsub. simpl.
  destruct (decide (item_id item ∈ X)) as [_|Hout]; [apply IH; set_solver|].
  exfalso. apply Hout. set_solver.
Qed.

Lemma body_empty (response : Response) (script : Script) (c : Cursor) (σ : Heap) :
  items_list response = [] ->
  body (Fetched response :: script) c σ
  = {| step_actions := [Fetch (_request c) (_get_time_field (cursor_class c)) (Fetched response)];
       step_cursor := c; step_heap := σ; step_rest := script; step_flow := Stop Returned |}.
Proof. intros Hitems. unfold body. by rewrite Hitems. Qed.

(** The iteration on a response without [has_more]. *)
Lemma iter_last_page (response : Response) (script : Script) (c : Cursor) (σ : Heap)
    (item0 : Item) (more : list Item) :
  has_more_true response = false ->
  items_list response = item0 :: more ->
  __iter__ (Fetched response :: script) c σ
  = {| actions :=
         Fetch (_request c) (_get_time_field (cursor_class c)) (Fetched response)
         :: map (fun item => Yield (_construct_event item)) (unseen (seen σ c) (item0 :: more));
       cursor := set_request (set_prev_response c (Some response))
                   (advance (_request c) (unseen (seen σ c) (item0 :: more)));
       heap := add_all (unseen (seen σ c) (item0 :: more)) c σ;
       rest := script; outcome := Returned |}.
Proof.
  intros Hno Hitems. unfold __iter__. cbn [length loop].
  rewrite (body_page response script c σ item0 more Hitems). cbv zeta.
  rewrite Hno. reflexivity.
Qed.

Lemma iter_no_items (response : Response) (script : Script) (c : Cursor) (σ : Heap) :
  items_list response = [] ->
  __iter__ (Fetched response :: script) c σ
  = {| actions := [Fetch (_request c) (_get_time_field (cursor_class c)) (Fetched response)];
       cursor := c; heap := σ; rest := script; outcome := Returned |}.
Proof.
  intros Hitems. unfold __iter__. cbn [length loop].
  by rewrite (body_empty response script c σ Hitems).
Qed.

(** Polling again without news changes nothing: when an iteration has
    returned on a response without [has_more], and the next iteration gets
    the same response, that iteration yields no event and returns, and the
    attributes of the cursor and the heap are the same as before it. *)
Theorem repoll_yields_nothing (response : Response) (script script' : Script)
    (c : Cursor) (σ : Heap) :
  has_more response <> Some true ->
  let r := __iter__ (Fetched response :: script) c σ in
  let r' := __iter__ (Fetched response :: script') (cursor r) (heap r) in
  outcome r = Returned
  /\ outcome r' = Returned
  /\ yields (actions r') = []
  /\ cursor r' = cursor r
  /\ heap r' = heap r.
Proof.
  intros Hmore.
  assert (Hno : has_more_true response = false).
  { unfold has_more_true. destruct (has_more response) as [[|]|]; done. }
  destruct (items_list response) as [|item0 more] eqn:Hitems.
  { cbv zeta. rewrite (iter_no_items response script c σ Hitems). cbn [cursor heap outcome].
    by rewrite (iter_no_items response script' c σ Hitems). }
  cbv zeta. rewrite (iter_last_page response script c σ item0 more Hno Hitems).
  cbn [cursor heap outcome].
  set (U := unseen (seen σ c) (item0 :: more)).
  set (c2 := set_request (set_prev_response c (Some response)) (advance (_request c) U)).
  set (σ2 := add_all U c σ).
  rewrite (iter_last_page response script' c2 σ2 item0 more Hno Hitems).
  cbn [cursor heap outcome actions].
  assert (Hseen2 : seen σ2 c2 = ids U ∪ seen σ c)
    by (apply (add_all_seen U c c2 σ); done).
  assert (HU : unseen (seen σ2 c2) (item0 :: more) = []).
  { apply unseen_all_seen. rewrite Hseen2. unfold U. rewrite ids_unseen_union. set_solver. }
  rewrite HU. split; [done|]. split; [done|]. split; [done|]. split; [|done].
  unfold advance. simpl. done.
Qed.

Lemma repoll_yields_nothing_witness :
  let r := __iter__ S4 cursor0 heap0 in
  let r' := __iter__ S4 (cursor r) (heap r) in
  yields (actions r) <> [] /\ yields (actions r') = [] /\ cursor r' = cursor r.
Proof.
  pose proof (repoll_yields_nothing
    {| items := Some [mk_item "e1" 1; mk_item "e2" 2]; has_more := Some false |}
    [] [] cursor0 heap0) as H.
  destruct H as (_ & _ & H3 & H4 & _).
  - simpl. discriminate.
  - split; [vm_compute; discriminate|]. split; [exact H3|exact H4].
Defined.

Lemma answered_lower (time_field : string) (request : SearchRequest) (sort : string)
    (response : Response) (item : Item) :
  well_answered time_field (Fetch request sort (Fetched response)) ->
  item ∈ items_list response ->
  lower_ok request (item_time item).
Proof.
  intros [Hall _] Hin. rewrite Forall_forall in Hall.
  unfold lower_ok. specialize (Hall item Hin).
  unfold satisfies in Hall. rewrite !andb_true_iff in Hall.
  destruct Hall as [[[H1 H2] _] _]. split; intros v Hv.
  - rewrite Hv in H1. simpl in H1. by apply Z.leb_le.
  - rewrite Hv in H2. simpl in H2. by apply Z.ltb_lt.
Qed.

Lemma advance_rises (request : SearchRequest) (l : list Item) (t : datetime) :
  (forall item, item ∈ l -> lower_ok request (item_time item)) ->
  lower_ok (advance request l) t -> lower_ok request t.
Proof.
  intros Hl [H1 H2]. unfold advance in *.
  destruct (last l) as [z|] eqn:Hlast; [|done].
  simpl in *. split; [|done].
  intros v Hv. specialize (H1 _ eq_refl).
  destruct (Hl z (last_Some_elem_of _ _ Hlast)) as [Hz _]. specialize (Hz v Hv). lia.
Qed.

Lemma body_bounds_rise (script : Script) (c : Cursor) (σ : Heap) (t : datetime) :
  Forall (well_answered (_get_time_field (cursor_class c))) (step_actions (body script c σ)) ->
  lower_ok (_request (step_cursor (body script c σ))) t -> lower_ok (_request c) t.
Proof.
  destruct script as [|[response|e] script]; [done|..|done].
  destruct (items_list response) as [|item0 more] eqn:Hitems.
  { unfold body. by rewrite Hitems. }
  rewrite (body_page response script c σ item0 more Hitems). cbv zeta.
  set (m := _get_time (List.last more item0)).
  set (c1 := set_prev_response c (Some response)).
  set (U := unseen (seen σ c1) (item0 :: more)).
  set (call := Fetch (_request c) (_get_time_field (cursor_class c)) (Fetched response)).
  assert (Hcall : well_answered (_get_time_field (cursor_class c)) call ->
            (forall t', lower_ok (advance (_request c) U) t' -> lower_ok (_request c) t')
            /\ lower_ok (_request c) m).
  { intros Hc. split.
    - intros t'. apply advance_rises. intros item Hin.
      apply (answered_lower _ _ _ response item Hc). rewrite Hitems.
      apply (elem_of_sublist U); [done|apply unseen_sublist].
    - apply (answered_lower _ _ _ response _ Hc). rewrite Hitems.
      apply last_Some_elem_of, last_cons_default. }
  destruct (negb (has_more_true response)).
  { cbn [step_actions step_cursor]. intros [Hc _]%Forall_cons. by apply Hcall. }
  destruct (decide (_get_time item0 = m)).
  - destruct (ByIdCursor.outcome _); cbn [step_actions step_cursor];
      intros [Hc _]%Forall_cons; destruct (Hcall Hc) as [Hadv [_ Hm]];
      try (by apply Hadv).
    cbn [strip fst _request set_seen_ids set_request].
    intros [G1 G2]. apply Hadv. split; [exact G1|].
    intros v Hv. rewrite advance_T_gt in Hv.
    specialize (Hm v Hv). specialize (G2 m eq_refl). lia.
  - cbn [step_actions step_cursor]. intros [Hc _]%Forall_cons. by apply Hcall.
Qed.

Lemma loop_bounds_rise (fuel : nat) (script : Script) (c : Cursor) (σ : Heap) (t : datetime) :
  Forall (well_answered (_get_time_field (cursor_class c))) (actions (loop fuel script c σ)) ->
  lower_ok (_request (cursor (loop fuel script c σ))) t -> lower_ok (_request c) t.
Proof.
  revert script c σ. induction fuel as [|fuel IH]; intros script c σ; [done|].
  simpl. pose proof (body_bounds_rise script c σ t) as Hbody.
  destruct (body_keeps script c σ) as (_ & _ & Hcls).
  destruct (step_flow (body script c σ)); [|done].
  cbn [prepend actions cursor]. intros [H1 H2]%Forall_app Ht.
  apply Hbody; [done|].
  apply (IH (step_rest (body script c σ)) (step_cursor (body script c σ))
            (step_heap (body script c σ))); [by rewrite Hcls|done].
Qed.

(** The time frontier never moves back.  When the items of every
    response satisfy the request that was issued, a time that passes the
    lower bounds [T_gte] and [T_gt] of the request after any number of
    iterations passed the lower bounds the cursor started with. *)
Theorem lower_bounds_only_rise (n : nat) (script : Script) (c : Cursor) (σ : Heap)
    (t : datetime) :
  Forall (well_answered (_get_time_field (cursor_class c)))
    (actions (iterations n script c σ)) ->
  lower_ok (_request (cursor (iterations n script c σ))) t ->
  lower_ok (_request c) t.
Proof.
  revert script c σ. induction n as [|n IH]; intros script c σ; [done|].
  simpl. pose proof (loop_bounds_rise (S (length script)) script c σ t) as Hrun.
  destruct (loop_keeps (S (length script)) script c σ) as (_ & _ & Hcls).
  fold (__iter__ script c σ) in Hrun, Hcls.
  destruct (outcome (__iter__ script c σ)); try done.
  cbn [prepend actions cursor]. intros [H1 H2]%Forall_app Ht.
  apply Hrun; [done|].
  apply (IH (rest (__iter__ script c σ)) (cursor (__iter__ script c σ))
            (heap (__iter__ script c σ))); [by rewrite Hcls|done].
Qed.

Lemma lower_bounds_only_rise_witness :
  lower_ok (_request (cursor (iterations 1 S4 cursor0 heap0))) 2
  /\ lower_ok (_request cursor0) 2.
Proof.
  assert (H2 : lower_ok (_request (cursor (iterations 1 S4 cursor0 heap0))) 2).
  { split; intros v Hv; vm_compute in Hv; inversion Hv; subst; lia. }
  split; [exact H2|].
  apply (lower_bounds_only_rise 1 S4 cursor0 heap0 2); [|exact H2].
  assert (Hacts : actions (iterations 1 S4 cursor0 heap0)
    = [ Fetch (_request cursor0) "created" (answer [mk_item "e1" 1; mk_item "e2" 2] false);
        Yield (_construct_event (mk_item "e1" 1));
        Yield (_construct_event (mk_item "e2" 2)) ]) by (vm_compute; reflexivity).
  rewrite Hacts.
  repeat (apply Forall_cons; split); try apply Forall_nil; try exact I.
  split; [|intros _; repeat constructor; simpl; lia].
  repeat (apply Forall_cons; split); try apply Forall_nil; reflexivity.
Defined.

End Polling.

(** ** Sets of other cursors *)

Section OtherSets.

Import BaseCursor Scenario.

Lemma loop_frame_dom (fuel : nat) (script : Script) (c : Cursor) (σ : Heap) (a : nat) :
  a ∈ dom σ -> a <> _seen_ids c ->
  heap (loop fuel script c σ) !! a = σ !! a
  /\ a ∈ dom (heap (loop fuel script c σ))
  /\ a <> _seen_ids (cursor (loop fuel script c σ)).
Proof.
  revert script c σ. induction fuel as [|fuel IH]; intros script c σ Ha Hne; [done|].
  simpl. destruct (body_frame script c σ a Ha Hne) as (B1 & B2 & B3).
  destruct (step_flow (body script c σ)); [|done].
  cbn [prepend heap cursor].
  destruct (IH (step_rest (body script c σ)) (step_cursor (body script c σ))
               (step_heap (body script c σ)) B2 B3) as (I1 & I2 & I3).
  by rewrite I1.
Qed.

Lemma iterations_frame (n : nat) (script : Script) (c : Cursor) (σ : Heap) (a : nat) :
  a ∈ dom σ -> a <> _seen_ids c ->
  heap (iterations n script c σ) !! a = σ !! a
  /\ a ∈ dom (heap (iterations n script c σ))
  /\ a <> _seen_ids (cursor (iterations n script c σ)).
Proof.
  revert script c σ. induction n as [|n IH]; intros script c σ Ha Hne; [done|].
  simpl. destruct (loop_frame_dom (S (length script)) script c σ a Ha Hne) as (L1 & L2 & L3).
  fold (__iter__ script c σ) in L1, L2, L3.
  destruct (outcome (__iter__ script c σ)); try done.
  cbn [prepend heap cursor].
  destruct (IH (rest (__iter__ script c σ)) (cursor (__iter__ script c σ))
               (heap (__iter__ script c σ)) L2 L3) as (I1 & I2 & I3).
  by rewrite I1.
Qed.

(** Iterating a cursor writes to the set of that cursor and to sets it
    creates, and to nothing else: the [_seen_ids] of a cursor that has a
    set of its own is the same after any number of iterations of another
    cursor, whatever the fetcher answers. *)
Theorem iterations_leave_other_sets (n : nat) (script : Script) (c other : Cursor)
    (σ : Heap) :
  _seen_ids other ∈ dom σ ->
  _seen_ids other <> _seen_ids c ->
  seen (heap (iterations n script c σ)) other = seen σ other
  /\ _seen_ids other <> _seen_ids (cursor (iterations n script c σ)).
Proof.
  intros Hdom Hne.
  destruct (iterations_frame n script c σ (_seen_ids other) Hdom Hne) as (H1 & _ & H3).
  split; [|done]. unfold seen. by rewrite !lookup_total_alt, H1.
Qed.

Lemma iterations_leave_other_sets_witness :
  seen (heap (iterations 1 [answer [mk_item "z" 9] false] cursor_n heap_n)) cursor_e
  = seen heap_n cursor_e.
Proof.
  destruct (iterations_leave_other_sets 1 [answer [mk_item "z" 9] false]
              cursor_n cursor_e heap_n) as [H _].
  - vm_compute. reflexivity.
  - vm_compute. discriminate.
  - exact H.
Defined.

(** A cursor that was just constructed shares nothing: its set is a new
    object, empty, and the sets that were there are as they were. *)
Theorem new_cursor_has_its_own_set (cls : CursorClass) (request : SearchRequest)
    (σ : Heap) :
  (_seen_ids (new cls request σ).1 ∉ dom σ)
  /\ seen (new cls request σ).2 (new cls request σ).1 = ∅
  /\ (forall other, _seen_ids other ∈ dom σ ->
        seen (new cls request σ).2 other = seen σ other
        /\ _seen_ids other <> _seen_ids (new cls request σ).1).
Proof.
  assert (Hl : _seen_ids (new cls request σ).1 = alloc σ).
  { unfold new, __attrs_post_init__; simpl. by destruct (T_gte request). }
  rewrite Hl. split; [apply alloc_fresh|]. split.
  - unfold seen. rewrite Hl. unfold new; simpl. apply lookup_total_insert_eq.
  - intros other Hdom.
    assert (Hne : alloc σ <> _seen_ids other)
      by (intros Heq; apply (alloc_fresh σ); by rewrite Heq).
    split; [|done]. unfold seen, new; simpl. by rewrite lookup_total_insert_ne.
Qed.

(** A deep copy of a cursor is independent of the cursor: what is added
    to the set of the one is not added to the set of the other, and what
    the copy can be observed to hold is what the cursor holds. *)
Theorem deepcopy_is_independent (c : Cursor) (σ : Heap) (v : string) :
  _seen_ids c ∈ dom σ ->
  let copy := (deepcopy_cursor c σ).1 in
  let σ' := (deepcopy_cursor c σ).2 in
  observable σ' copy = observable σ c
  /\ observable σ' c = observable σ c
  /\ _seen_ids copy <> _seen_ids c
  /\ seen (seen_add σ' c v) copy = seen σ c
  /\ seen (seen_add σ' copy v) c = seen σ c.
Proof.
  intros Hdom.
  assert (Hne : alloc σ <> _seen_ids c)
    by (intros Heq; apply (alloc_fresh σ); by rewrite Heq).
  unfold deepcopy_cursor, deepcopy, observable, seen, seen_add; simpl.
  rewrite lookup_total_insert_eq.
  rewrite (lookup_total_insert_ne σ (alloc σ) (_seen_ids c)) by done.
  split; [done|]. split; [done|]. split; [done|]. split.
  - rewrite lookup_total_insert_ne by done. apply lookup_total_insert_eq.
  - rewrite lookup_total_insert_ne by done. by rewrite lookup_total_insert_ne.
Qed.

Lemma deepcopy_is_independent_witness :
  seen (seen_add (deepcopy_cursor cursor_e heap_e).2 cursor_e "z")
       (deepcopy_cursor cursor_e heap_e).1
  = seen heap_e cursor_e.
Proof.
  destruct (deepcopy_is_independent cursor_e heap_e "z") as (_ & _ & _ & H & _).
  - vm_compute. reflexivity.
  - exact H.
Defined.

End OtherSets.

(** ** An iteration depends on the observable state only *)

Section Observable.

Import BaseCursor Scenario.

Lemma drain_same (acts : list ByIdCursor.Action) (c c' : Cursor) (σ σ' : Heap) :
  seen σ c = seen σ' c' ->
  (drain acts c σ).1 = (drain acts c' σ').1
  /\ seen (drain acts c σ).2 c = seen (drain acts c' σ').2 c'.
Proof.
  revert σ σ'. induction acts as [|a acts IH]; intros σ σ' Hseen; [done|].
  destruct a as [request res|item|request]; simpl.
  - destruct (IH σ σ' Hseen) as [I1 I2].
    destruct (drain acts c σ) as [out τ], (drain acts c' σ') as [out' τ']. simpl in *.
    by rewrite I1.
  - rewrite <- Hseen.
    destruct (decide (item_id item ∈ seen σ c)) as [Hin|Hout]; [by apply IH|].
    assert (Hadd : seen (seen_add σ c (item_id item)) c
                   = seen (seen_add σ' c' (item_id item)) c').
    { rewrite (seen_seen_add σ c c _ eq_refl), (seen_seen_add σ' c' c' _ eq_refl).
      by rewrite Hseen. }
    destruct (IH _ _ Hadd) as [I1 I2].
    destruct (drain acts c (seen_add σ c (item_id item))) as [out τ].
    destruct (drain acts c' (seen_add σ' c' (item_id item))) as [out' τ']. simpl in *.
    by rewrite I1.
  - by apply IH.
Qed.

Lemma body_same (script : Script) (c c' : Cursor) (σ σ' : Heap) :
  cursor_class c = cursor_class c' ->
  observable σ c = observable σ' c' ->
  step_actions (body script c σ) = step_actions (body script c' σ')
  /\ step_rest (body script c σ) = step_rest (body script c' σ')
  /\ step_flow (body script c σ) = step_flow (body script c' σ')
  /\ cursor_class (step_cursor (body script c σ))
     = cursor_class (step_cursor (body script c' σ'))
  /\ observable (step_heap (body script c σ)) (step_cursor (body script c σ))
     = observable (step_heap (body script c' σ')) (step_cursor (body script c' σ')).
Proof.
  intros Hcls Hobs. injection Hobs as Hreq Hprev Hseen.
  destruct script as [|[response|e] script].
  - simpl. unfold observable. by rewrite Hreq, Hprev, Hseen.
  - destruct (items_list response) as [|item0 more] eqn:Hitems.
    { rewrite !(body_empty response script _ _ Hitems). simpl.
      unfold observable. by rewrite Hreq, Hprev, Hseen, Hcls. }
    rewrite (body_page response script c σ item0 more Hitems).
    rewrite (body_page response script c' σ' item0 more Hitems). cbv zeta.
    change (seen σ (set_prev_response c (Some response))) with (seen σ c).
    change (seen σ' (set_prev_response c' (Some response))) with (seen σ' c').
    change (_request (set_prev_response c (Some response))) with (_request c).
    change (_request (set_prev_response c' (Some response))) with (_request c').
    rewrite <- Hseen, <- Hreq, <- Hcls.
    set (U := unseen (seen σ c) (item0 :: more)).
    set (c1 := set_prev_response c (Some response)).
    set (c1' := set_prev_response c' (Some response)).
    set (c2 := set_request c1 (advance (_request c) U)).
    set (c2' := set_request c1' (advance (_request c) U)).
    assert (H2 : seen (add_all U c1 σ) c2 = seen (add_all U c1' σ') c2').
    { rewrite (add_all_seen U c1 c2 σ eq_refl), (add_all_seen U c1' c2' σ' eq_refl).
      change (seen σ c1) with (seen σ c). change (seen σ' c1') with (seen σ' c').
      by rewrite Hseen. }
    destruct (negb (has_more_true response)).
    { cbn [step_actions step_rest step_flow step_cursor step_heap].
      unfold observable. rewrite H2. done. }
    change (_request c2') with (_request c2).
    destruct (decide (_get_time item0 = _get_time (List.last more item0))).
    + set (sub := ByIdCursor.__iter__ script _).
      destruct (drain_same (ByIdCursor.actions sub) c2 c2' _ _ H2) as [D1 D2].
      rewrite <- D1.
      destruct (ByIdCursor.outcome sub);
        cbn [step_actions step_rest step_flow step_cursor step_heap];
        unfold observable; rewrite ?seen_strip, ?D2; done.
    + cbn [step_actions step_rest step_flow step_cursor step_heap].
      unfold observable. rewrite !seen_strip. done.
  - simpl. unfold observable. by rewrite Hreq, Hprev, Hseen, Hcls.
Qed.

Lemma loop_same (fuel : nat) (script : Script) (c c' : Cursor) (σ σ' : Heap) :
  cursor_class c = cursor_class c' ->
  observable σ c = observable σ' c' ->
  actions (loop fuel script c σ) = actions (loop fuel script c' σ')
  /\ rest (loop fuel script c σ) = rest (loop fuel script c' σ')
  /\ outcome (loop fuel script c σ) = outcome (loop fuel script c' σ')
  /\ cursor_class (cursor (loop fuel script c σ))
     = cursor_class (cursor (loop fuel script c' σ'))
  /\ observable (heap (loop fuel script c σ)) (cursor (loop fuel script c σ))
     = observable (heap (loop fuel script c' σ')) (cursor (loop fuel script c' σ')).
Proof.
  revert script c c' σ σ'. induction fuel as [|fuel IH]; intros script c c' σ σ' Hcls Hobs.
  - done.
  - simpl. destruct (body_same script c c' σ σ' Hcls Hobs) as (B1 & B2 & B3 & B4 & B5).
    rewrite <- B3. destruct (step_flow (body script c σ)).
    + cbn [prepend actions rest outcome cursor heap].
      rewrite <- B1, <- B2.
      destruct (IH (step_rest (body script c σ)) _ _ _ _ B4 B5) as (I1 & I2 & I3 & I4 & I5).
      by rewrite I1.
    + cbn [actions rest outcome cursor heap]. done.
Qed.

(** What an iteration does depends on what the cursor can be observed
    to hold, not on which set object holds its ids: two cursors of one
    class with the same request, the same last response and the same ids
    in their sets make the same calls, yield the same events and end the
    same way on the same answers, and end with the same observable state.
    So a cursor restored from a saved state goes on as the saved cursor
    would have. *)
Theorem iterations_depend_on_observable_state (n : nat) (script : Script)
    (c c' : Cursor) (σ σ' : Heap) :
  cursor_class c = cursor_class c' ->
  observable σ c = observable σ' c' ->
  actions (iterations n script c σ) = actions (iterations n script c' σ')
  /\ rest (iterations n script c σ) = rest (iterations n script c' σ')
  /\ outcome (iterations n script c σ) = outcome (iterations n script c' σ')
  /\ observable (heap (iterations n script c σ)) (cursor (iterations n script c σ))
     = observable (heap (iterations n script c' σ')) (cursor (iterations n script c' σ')).
Proof.
  revert script c c' σ σ'. induction n as [|n IH]; intros script c c' σ σ' Hcls Hobs.
  - done.
  - simpl.
    destruct (loop_same (S (length script)) script c c' σ σ' Hcls Hobs)
      as (L1 & L2 & L3 & L4 & L5).
    fold (__iter__ script c σ) in L1, L2, L3, L4, L5.
    fold (__iter__ script c' σ') in L1, L2, L3, L4, L5.
    assert (Hcase : outcome (__iter__ script c' σ') = outcome (__iter__ script c σ)) by done.
    destruct (outcome (__iter__ script c σ)) eqn:Ho; rewrite Hcase.
    2-4: split; [done|]; split; [done|]; split; [by rewrite Ho, Hcase|done].
    cbn [prepend actions rest outcome cursor heap].
    rewrite <- L1, <- L2.
    destruct (IH (rest (__iter__ script c σ)) _ _ _ _ L4 L5) as (I1 & I2 & I3 & I4).
    by rewrite I1.
Qed.

Lemma iterations_depend_on_observable_state_witness :
  actions (iterations 1 S1 (deepcopy_cursor cursor_e heap_e).1 (deepcopy_cursor cursor_e heap_e).2)
  = actions (iterations 1 S1 cursor_e heap_e).
Proof.
  destruct (iterations_depend_on_observable_state 1 S1
              (deepcopy_cursor cursor_e heap_e).1 cursor_e
              (deepcopy_cursor cursor_e heap_e).2 heap_e) as (H & _).
  - reflexivity.
  - unfold observable, deepcopy_cursor, deepcopy, seen; simpl.
    by rewrite lookup_total_insert_eq.
  - exact H.
Defined.

End Observable.

(** ** More about the pipeline *)

Section PipelineMore.

Import Pipeline.




(** [_process_done_tasks] touches the entries of the workers of [done]
    only: whatever the tasks are and however the call ends, a worker none
    of them belongs to keeps its entry in [waiting] and in [pending]. *)
Theorem done_tasks_leave_other_workers (self : Pipeline) (pipeline_key : Key)
    (done : list Task) (waiting : gmap string Task) (pending : gmap string datetime)
    (k : string) :
  k ∉ map (fun task => name (worker task)) done ->
  let r := _process_done_tasks self pipeline_key done waiting pending in
  Pipeline.waiting r !! k = waiting !! k /\ Pipeline.pending r !! k = pending !! k.
Proof.
  intros Hk r. subst r. unfold _process_done_tasks.
  destruct (scan done (period self) waiting pending [] [])
    as [[[[w' p'] wd] er] err] eqn:Hscan.
  destruct (scan_other _ _ _ _ _ _ _ _ _ _ _ _ Hk Hscan) as [G1 G2].
  destruct err; [done|]. by destruct er.
Qed.

Lemma done_tasks_leave_other_workers_witness :
  let r := _process_done_tasks pipeline_S6 (_get_unique_key pipeline_S6)
             [task_A] waiting_S6 ∅ in
  Pipeline.waiting r !! "B"%string = Some task_B.
Proof.
  pose proof (done_tasks_leave_other_workers pipeline_S6 (_get_unique_key pipeline_S6)
                [task_A] waiting_S6 ∅ "B") as H.
  destruct H as [H1 _].
  - simpl. intros H. apply list_elem_of_singleton in H. discriminate.
  - cbv zeta in H1 |- *. etrans; [exact H1|]. vm_compute. reflexivity.
Defined.




Lemma string_leb_trans (s1 s2 s3 : string) :
  String.leb s1 s2 = true -> String.leb s2 s3 = true -> String.leb s1 s3 = true.
Proof.
  unfold String.leb. revert s2 s3.
  induction s1 as [|a s1 IH]; intros [|b s2] [|c s3]; simpl; try done.
  unfold Ascii.compare.
  destruct (N.compare_spec (Ascii.N_of_ascii a) (Ascii.N_of_ascii b)) as [Hab|Hab|Hab];
    destruct (N.compare_spec (Ascii.N_of_ascii b) (Ascii.N_of_ascii c)) as [Hbc|Hbc|Hbc];
    try done.
  - rewrite Hab, Hbc, N.compare_refl. apply IH.
  - rewrite Hab. intros _ _. by rewrite (proj2 (N.compare_lt_iff _ _) Hbc).
  - rewrite <- Hbc. intros _ _. by rewrite (proj2 (N.compare_lt_iff _ _) Hab).
  - intros _ _. by rewrite (proj2 (N.compare_lt_iff _ _) (N.lt_trans _ _ _ Hab Hbc)).
Qed.

#[local] Instance string_leb_transitive :
  Transitive (fun a b : string => Is_true (String.leb a b)).
Proof.
  intros a b c H1 H2. apply Is_true_true. apply Is_true_true in H1, H2.
  by apply (string_leb_trans a b c).
Qed.

#[local] Instance string_leb_total :
  Total (fun a b : string => Is_true (String.leb a b)).
Proof.
  intros a b. destruct (String.leb_total a b) as [H|H]; [left|right]; by apply Is_true_true.
Qed.

#[local] Instance string_leb_antisymm :
  AntiSymm eq (fun a b : string => Is_true (String.leb a b)).
Proof. intros a b H1 H2. apply Is_true_true in H1, H2. by apply String.leb_antisym. Qed.



Lemma size_list_to_set_le (l : list string) :
  (size (list_to_set l : gset string) <= length l)%nat.
Proof.
  induction l as [|x l IH]; [done|]. simpl.
  destruct (decide (x ∈ (list_to_set l : gset string))) as [Hin|Hout].
  - replace ({[x]} ∪ list_to_set l : gset string) with (list_to_set l : gset string)
      by set_solver. lia.
  - rewrite size_union by set_solver. rewrite size_singleton. lia.
Qed.

(** [len(set(l)) == len(l)] says that [l] has no duplicates. *)
Lemma size_list_to_set_NoDup (l : list string) :
  size (list_to_set l : gset string) = length l <-> NoDup l.
Proof.
  split; [|apply size_list_to_set].
  induction l as [|x l IH]; intros Hsize; [constructor|]. simpl in Hsize.
  destruct (decide (x ∈ (list_to_set l : gset string))) as [Hin|Hout].
  - replace ({[x]} ∪ list_to_set l : gset string) with (list_to_set l : gset string)
      in Hsize by set_solver.
    pose proof (size_list_to_set_le l). lia.
  - rewrite size_union, size_singleton in Hsize by set_solver.
    constructor; [set_solver|]. apply IH. lia.
Qed.

Lemma pending_at_entry (ws : list _Worker) (m : gmap string datetime) (k : string) :
  foldl (fun m w => <[name w := datetime_min]> m) m ws !! k
  = if decide (k ∈ map name ws) then Some datetime_min else m !! k.
Proof.
  revert m. induction ws as [|w ws IH]; intros m; cbn [foldl map].
  - rewrite decide_False; [done|]. apply not_elem_of_nil.
  - rewrite IH. destruct (decide (k ∈ map name ws)) as [Hin|Hout].
    + rewrite decide_True; [done|]. by right.
    + destruct (decide (k = name w)) as [->|Hne].
      * rewrite decide_True by left. apply lookup_insert_eq.
      * rewrite decide_False by (intros H; apply elem_of_cons in H as [?|?]; done).
        by apply lookup_insert_ne.
Qed.

Lemma pending_at_entry_dom (ws : list _Worker) (m : gmap string datetime) :
  dom (foldl (fun m w => <[name w := datetime_min]> m) m ws)
  = list_to_set (map name ws) ∪ dom m.
Proof.
  apply set_eq. intros k. rewrite elem_of_dom, pending_at_entry.
  rewrite elem_of_union, elem_of_list_to_set, elem_of_dom.
  destruct (decide (k ∈ map name ws)); [|tauto].
  split; [tauto|]. intros _. by eexists.
Qed.

(** When [run] goes on to its loop, nothing is waiting, no worker
    should resume yet, and every worker is pending with [datetime.min],
    so that the first iteration starts it whatever the time is.  A worker
    is a key of [pending] by its name: observers with the same unique key
    share one entry, so [pending] has an entry for each observer exactly
    when the unique keys of the observers are distinct. *)
Theorem run_starts_with_every_worker_pending (self : Pipeline) (st : Started) :
  run_entry self = inr st ->
  (forall k, started_pending st !! k
             = if decide (k ∈ map (fun kv => unique_key kv.2) (_observers self))
               then Some datetime_min else None)
  /\ started_waiting st = ∅
  /\ check_mode st = false
  /\ _no_one_should_resume (workers st) = true
  /\ (size (started_pending st) = length (_observers self)
      <-> NoDup (map (fun kv => unique_key kv.2) (_observers self))).
Proof.
  intros Hrun. set (obs := _observers self).
  assert (Hst : st = {| pipeline_key := _get_unique_key self;
                        workers := map (fun kv => _from_observer kv.2) obs;
                        started_waiting := ∅;
                        started_pending :=
                          foldl (fun m w => <[name w := datetime_min]> m) ∅
                            (map (fun kv => _from_observer kv.2) obs);
                        check_mode := false |}).
  { subst obs. unfold run_entry in Hrun. destruct (_observers self); [done|].
    by injection Hrun as <-. }
  rewrite Hst. cbn [started_pending started_waiting check_mode workers].
  assert (Hnames : map name (map (fun kv => _from_observer kv.2) obs)
                   = map (fun kv => unique_key kv.2) obs).
  { by rewrite <- list_fmap_compose. }
  split; [|split; [done|split; [done|split]]].
  - intros k. rewrite pending_at_entry, Hnames.
    destruct (decide _); [done|apply lookup_empty].
  - unfold _no_one_should_resume. apply forallb_forall. intros w Hw.
    apply in_map_iff in Hw as (kv' & <- & _). done.
  - rewrite <- size_dom, pending_at_entry_dom, Hnames, dom_empty_L, union_empty_r_L.
    rewrite <- size_list_to_set_NoDup. by rewrite length_map.
Qed.

Lemma run_starts_with_every_worker_pending_witness :
  exists st, run_entry pipeline_S6 = inr st
             /\ started_pending st !! "B"%string = Some datetime_min
             /\ size (started_pending st) = 2%nat.
Proof.
  eexists. split; [reflexivity|].
  destruct (run_starts_with_every_worker_pending pipeline_S6 _ eq_refl)
    as (H1 & _ & _ & _ & H5).
  split.
  - rewrite H1. reflexivity.
  - apply H5. apply NoDup_ListNoDup. repeat constructor; simpl; intuition discriminate.
Defined.

Lemma dict_set_registered {V : Type} (k : nat) (v : V) (d : list (nat * V)) :
  k ∈ map fst d -> map fst (dict_set k v d) = map fst d.
Proof.
  induction d as [|[k' v'] d IH]; intros Hk; simpl in *.
  - by apply elem_of_nil in Hk.
  - destruct (decide (k = k')) as [->|Hne]; [done|]. simpl. f_equal. apply IH.
    apply elem_of_cons in Hk as [?|?]; done.
Qed.

Lemma dict_set_new {V : Type} (k : nat) (v : V) (d : list (nat * V)) :
  k ∉ map fst d -> dict_set k v d = d ++ [(k, v)].
Proof.
  induction d as [|[k' v'] d IH]; intros Hk; simpl in *; [done|].
  apply not_elem_of_cons in Hk as [Hne Hk].
  rewrite decide_False by done. by rewrite IH.
Qed.

Lemma dict_set_elem {V : Type} (k : nat) (v : V) (d : list (nat * V)) :
  (k, v) ∈ dict_set k v d.
Proof.
  induction d as [|[k' v'] d IH]; simpl; [left|].
  destruct (decide (k = k')); [left|by right].
Qed.

Lemma dict_set_other {V : Type} (k j : nat) (v v' : V) (d : list (nat * V)) :
  j <> k -> (j, v') ∈ dict_set k v d <-> (j, v') ∈ d.
Proof.
  intros Hne. induction d as [|[k0 v0] d IH]; simpl.
  - rewrite list_elem_of_singleton. split; [congruence|]. by intros H%elem_of_nil.
  - destruct (decide (k = k0)) as [->|Hk].
    + rewrite !elem_of_cons. split; (intros [Heq|Hin]; [congruence|by right]).
    + rewrite !elem_of_cons, IH. done.
Qed.

Lemma dict_set_again {V : Type} (k : nat) (v : V) (d : list (nat * V)) :
  dict_set k v (dict_set k v d) = dict_set k v d.
Proof.
  induction d as [|[k' v'] d IH]; simpl.
  - by rewrite decide_True.
  - destruct (decide (k = k')) as [->|Hne]; simpl.
    + by rewrite decide_True.
    + rewrite decide_False by done. by rewrite IH.
Qed.

(** [register] keeps one entry for each observer object, in the order
    of the first registration: a new object is added after the others, an
    object that is registered already keeps its place, and registering it
    again changes nothing; the other entries stay as they are.  The
    observer is returned as it was given. *)
Theorem register_keeps_one_entry_per_object (self : Pipeline) (observer_id : nat)
    (o : Observer) :
  NoDup (map fst (_observers self)) ->
  let self' := (register self observer_id o).1 in
  (register self observer_id o).2 = o
  /\ NoDup (map fst (_observers self'))
  /\ (observer_id, o) ∈ _observers self'
  /\ (forall j o', j <> observer_id -> (j, o') ∈ _observers self' <-> (j, o') ∈ _observers self)
  /\ (observer_id ∉ map fst (_observers self) ->
        _observers self' = _observers self ++ [(observer_id, o)])
  /\ (observer_id ∈ map fst (_observers self) ->
        map fst (_observers self') = map fst (_observers self))
  /\ (register self' observer_id o).1 = self'.
Proof.
  intros Hnd self'. subst self'. unfold register. cbn [fst snd _observers period storage pipeline_name].
  split; [done|]. split; [|split; [|split; [|split; [|split]]]].
  - destruct (decide (observer_id ∈ map fst (_observers self))) as [Hin|Hout].
    + by rewrite dict_set_registered.
    + rewrite dict_set_new by done. rewrite map_app. simpl.
      apply NoDup_app. split; [done|]. split; [|apply NoDup_singleton].
      intros x Hx Hx'. apply list_elem_of_singleton in Hx'. by subst.
  - apply dict_set_elem.
  - intros j o' Hne. by apply dict_set_other.
  - apply dict_set_new.
  - apply dict_set_registered.
  - by rewrite dict_set_again.
Qed.

Lemma register_keeps_one_entry_per_object_witness :
  map fst (_observers (register pipeline_S6 1 observer_B).1) = map fst (_observers pipeline_S6)
  /\ (1%nat, observer_B) ∈ _observers (register pipeline_S6 1 observer_B).1.
Proof.
  pose proof (register_keeps_one_entry_per_object pipeline_S6 1 observer_B) as H.
  destruct H as (_ & _ & H3 & _ & _ & H6 & _).
  - apply NoDup_ListNoDup. repeat constructor; simpl; intuition discriminate.
  - split; [|exact H3]. apply H6. left.
Defined.

End PipelineMore.

(** ** Retrying a block *)

Section Retry.

Import BaseCursor Scenario.

Lemma enter_unfold (script : Script) (c : Cursor) (σ : Heap) :
  __enter__ (try_fetch_all c) script c σ
  = let start_state := (_request c, _prev_response c, alloc σ) in
    let r := __iter__ script c (<[alloc σ := seen σ c]> σ) in
    match outcome r with
    | Returned =>
        Entered (yields (actions r))
          {| _start_state := Some start_state; _finish_state := Some (_get_state (cursor r)) |}
          (_set_state (cursor r) start_state) (heap r) (rest r)
    | o => NotEntered o {| _start_state := Some start_state; _finish_state := None |}
             (cursor r) (heap r) (rest r)
    end.
Proof. done. Qed.

Lemma copy_observable (c : Cursor) (σ : Heap) :
  _seen_ids c ∈ dom σ ->
  observable (<[alloc σ := seen σ c]> σ) c = observable σ c.
Proof.
  intros Hdom. unfold observable, seen. f_equal.
  rewrite lookup_total_insert_ne; [done|].
  intros Heq. apply (alloc_fresh σ). by rewrite Heq.
Qed.

(** What a [with cursor.try_fetch_all()] statement does depends on what
    the cursor can be observed to hold. *)
Lemma with_same (block : list Event -> option Exn) (script : Script)
    (c c' : Cursor) (σ σ' : Heap) :
  _seen_ids c ∈ dom σ -> _seen_ids c' ∈ dom σ' ->
  cursor_class c = cursor_class c' ->
  observable σ c = observable σ' c' ->
  let w := with_try_fetch_all block script c σ in
  let w' := with_try_fetch_all block script c' σ' in
  with_outcome w = with_outcome w'
  /\ with_rest w = with_rest w'
  /\ observable (with_heap w) (with_cursor w) = observable (with_heap w') (with_cursor w').
Proof.
  intros Hdom Hdom' Hcls Hobs w w'. subst w w'. unfold with_try_fetch_all.
  rewrite !enter_unfold. cbv zeta.
  assert (Hfresh : alloc σ <> _seen_ids c) by (intros Heq; apply (alloc_fresh σ); by rewrite Heq).
  assert (Hfresh' : alloc σ' <> _seen_ids c')
    by (intros Heq; apply (alloc_fresh σ'); by rewrite Heq).
  assert (Hobs0 : observable (<[alloc σ := seen σ c]> σ) c
                  = observable (<[alloc σ' := seen σ' c']> σ') c').
  { by rewrite !copy_observable. }
  destruct (loop_same (S (length script)) script c c' _ _ Hcls Hobs0)
    as (L1 & L2 & L3 & L4 & L5).
  fold (__iter__ script c (<[alloc σ := seen σ c]> σ)) in L1, L2, L3, L4, L5.
  fold (__iter__ script c' (<[alloc σ' := seen σ' c']> σ')) in L1, L2, L3, L4, L5.
  set (r := __iter__ script c (<[alloc σ := seen σ c]> σ)) in *.
  set (r' := __iter__ script c' (<[alloc σ' := seen σ' c']> σ')) in *.
  assert (Hkept : heap r !!! alloc σ = seen σ c).
  { destruct (iter_frame script c (<[alloc σ := seen σ c]> σ) (alloc σ)) as (Hl & _).
    - rewrite dom_insert_L. set_solver.
    - done.
    - fold r in Hl. by rewrite lookup_total_alt, Hl, lookup_insert_eq. }
  assert (Hkept' : heap r' !!! alloc σ' = seen σ' c').
  { destruct (iter_frame script c' (<[alloc σ' := seen σ' c']> σ') (alloc σ')) as (Hl & _).
    - rewrite dom_insert_L. set_solver.
    - done.
    - fold r' in Hl. by rewrite lookup_total_alt, Hl, lookup_insert_eq. }
  injection Hobs as Hreq Hprev Hseen.
  rewrite <- L3. destruct (outcome r) eqn:Ho.
  - rewrite <- L1. destruct (block (yields (actions r))) as [e|].
    + cbn [__exit__ with_outcome with_rest with_heap with_cursor].
      split; [done|]. split; [done|].
      unfold observable, seen; simpl. by rewrite Hkept, Hkept', Hreq, Hprev, Hseen.
    + cbn [__exit__ _finish_state with_outcome with_rest with_heap with_cursor].
      split; [done|]. split; [done|].
      injection L5 as R1 R2 R3. unfold observable, seen in *; simpl. by rewrite R1, R2, R3.
  - done.
  - done.
  - done.
Qed.

(** A block that raised can be retried: the cursor holds what it held
    before the statement, so a second [with cursor.try_fetch_all()] that
    gets the same answers from the fetcher hands the same list of events
    to its block, and when that block returns, the cursor ends as if the
    first block had returned. *)
Theorem failed_block_can_be_retried (block block' : list Event -> option Exn)
    (script : Script) (c : Cursor) (σ : Heap)
    (res : list Event) (ctx : CursorFetchContext) (c1 : Cursor) (σ1 : Heap) (rest' : Script)
    (e : Exn) :
  _seen_ids c ∈ dom σ ->
  __enter__ (try_fetch_all c) script c σ = Entered res ctx c1 σ1 rest' ->
  block res = Some e ->
  let w := with_try_fetch_all block script c σ in
  let again := with_try_fetch_all block' script (with_cursor w) (with_heap w) in
  let once := with_try_fetch_all block' script c σ in
  with_outcome w = Raised e
  /\ (exists ctx' c2 σ2,
        __enter__ (try_fetch_all (with_cursor w)) script (with_cursor w) (with_heap w)
        = Entered res ctx' c2 σ2 rest')
  /\ with_outcome again = with_outcome once
  /\ with_rest again = with_rest once
  /\ observable (with_heap again) (with_cursor again)
     = observable (with_heap once) (with_cursor once).
Proof.
  intros Hdom Henter Hblock w again once.
  assert (Hfresh : alloc σ <> _seen_ids c) by (intros Heq; apply (alloc_fresh σ); by rewrite Heq).
  pose proof Henter as Henter0.
  rewrite enter_unfold in Henter. cbv zeta in Henter.
  set (r := __iter__ script c (<[alloc σ := seen σ c]> σ)) in *.
  destruct (outcome r) eqn:Ho; try discriminate.
  injection Henter as Hres Hctx Hc1 Hσ1 Hrest.
  assert (Hw : w = {| with_cursor := c1; with_heap := σ1; with_rest := rest';
                      with_outcome := Raised e |}).
  { subst w. unfold with_try_fetch_all. rewrite Henter0, Hblock. done. }
  assert (Hin : alloc σ ∈ dom (heap r) /\ heap r !!! alloc σ = seen σ c).
  { destruct (loop_frame_dom (S (length script)) script c (<[alloc σ := seen σ c]> σ) (alloc σ))
      as (Hl & Hd & _).
    - rewrite dom_insert_L. set_solver.
    - done.
    - fold (__iter__ script c (<[alloc σ := seen σ c]> σ)) in Hl, Hd. fold r in Hl, Hd.
      split; [done|]. by rewrite lookup_total_alt, Hl, lookup_insert_eq. }
  destruct Hin as [Hin Hkept].
  assert (Hcls : cursor_class c1 = cursor_class c).
  { subst c1. simpl. apply (loop_keeps (S (length script)) script c _). }
  assert (Hobs : observable σ1 c1 = observable σ c).
  { subst c1 σ1. unfold observable, seen; simpl. by rewrite Hkept. }
  assert (Hdom1 : _seen_ids c1 ∈ dom σ1) by (subst c1 σ1; exact Hin).
  destruct (with_same block' script c1 c σ1 σ Hdom1 Hdom Hcls Hobs) as (W1 & W2 & W3).
  subst again once. rewrite Hw. cbn [with_outcome with_cursor with_heap].
  split; [done|]. split; [|done].
  rewrite enter_unfold. cbv zeta.
  assert (Hobs0 : observable (<[alloc σ1 := seen σ1 c1]> σ1) c1
                  = observable (<[alloc σ := seen σ c]> σ) c).
  { by rewrite !copy_observable. }
  destruct (loop_same (S (length script)) script c1 c _ _ Hcls Hobs0)
    as (L1 & L2 & L3 & _).
  fold (__iter__ script c1 (<[alloc σ1 := seen σ1 c1]> σ1)) in L1, L2, L3.
  fold (__iter__ script c (<[alloc σ := seen σ c]> σ)) in L1, L2, L3. fold r in L1, L2, L3.
  rewrite L3, Ho, L1, L2, Hres, Hrest. eauto.
Qed.

Lemma failed_block_can_be_retried_witness :
  let w := with_try_fetch_all (fun _ => Some (ValueError "handler")) S4 cursor0 heap0 in
  let again := with_try_fetch_all (fun _ => None) S4 (with_cursor w) (with_heap w) in
  with_outcome again = Returned.
Proof.
  pose proof (failed_block_can_be_retried (fun _ => Some (ValueError "handler")) (fun _ => None)
                S4 cursor0 heap0) as H.
  cbv zeta in H |- *.
  edestruct H as (_ & _ & H3 & _).
  - vm_compute. reflexivity.
  - vm_compute. reflexivity.
  - reflexivity.
  - etrans; [exact H3|]. vm_compute. reflexivity.
Defined.

End Retry.

(** ** Exceptions of the fetcher *)

Section Failures.

Import BaseCursor Scenario Trace.

Lemma results_app (a b : list Action) : results (a ++ b) = results a ++ results b.
Proof. apply omap_app. Qed.

Lemma by_id_results_app (a b : list ByIdCursor.Action) :
  by_id_results (a ++ b) = by_id_results a ++ by_id_results b.
Proof. apply omap_app. Qed.

Lemma ends_as_app (o : Outcome) (a b : list Action) :
  Forall answered (results a) -> ends_as o b -> ends_as o (a ++ b).
Proof.
  intros Ha Hb. destruct o as [|e| |]; simpl in *;
    try (rewrite results_app; by apply Forall_app).
  destruct Hb as [(request & sort & Hlast) (pre & Hpre & Hall)]. split.
  - exists request, sort. by rewrite last_app, Hlast.
  - exists (results a ++ pre). rewrite results_app, Hpre, app_assoc.
    split; [done|]. by apply Forall_app.
Qed.

Lemma by_id_ends_as_app (o : Outcome) (a b : list ByIdCursor.Action) :
  Forall answered (by_id_results a) -> by_id_ends_as o b -> by_id_ends_as o (a ++ b).
Proof.
  intros Ha Hb. destruct o as [|e| |]; simpl in *;
    try (rewrite by_id_results_app; by apply Forall_app).
  destruct Hb as [(request & Hlast) (pre & Hpre & Hall)]. split.
  - exists request. by rewrite last_app, Hlast.
  - exists (by_id_results a ++ pre). rewrite by_id_results_app, Hpre, app_assoc.
    split; [done|]. by apply Forall_app.
Qed.

Lemma page_results (request : SearchRequest) (response : Response) :
  by_id_results (ByIdCursor.page request response).1 = [].
Proof.
  unfold ByIdCursor.page. destruct (items_list response) as [|item0 more]; [done|].
  cbn [fst]. rewrite by_id_results_app. simpl. rewrite app_nil_r.
  clear. by induction more.
Qed.

Lemma by_id_trace (script : Script) (request : SearchRequest) :
  let sub := ByIdCursor.__iter__ script request in
  by_id_results (ByIdCursor.actions sub) ++ ByIdCursor.rest sub = script
  /\ by_id_ends_as (ByIdCursor.outcome sub) (ByIdCursor.actions sub).
Proof.
  revert request. induction script as [|[response|e] script IH]; intros request; simpl.
  - split; [done|constructor].
  - pose proof (page_results request response) as Hpg.
    destruct (ByIdCursor.page request response) as [acts request']. simpl in Hpg.
    destruct (has_more_true response).
    + destruct (IH request') as [I1 I2]. cbn [ByIdCursor.prepend ByIdCursor.actions
        ByIdCursor.rest ByIdCursor.outcome].
      split.
      * rewrite (by_id_results_app (_ :: acts)). simpl. rewrite Hpg. simpl.
        by rewrite I1.
      * apply (by_id_ends_as_app _ (_ :: acts)); [|done].
        simpl. rewrite Hpg. by repeat constructor.
    + cbn [ByIdCursor.actions ByIdCursor.rest ByIdCursor.outcome]. simpl.
      rewrite Hpg. split; [done|]. by repeat constructor.
  - split; [done|]. split; [by eexists|]. exists []. split; [done|constructor].
Qed.

Lemma drain_results (acts : list ByIdCursor.Action) (c : Cursor) (σ : Heap) :
  results (drain acts c σ).1 = by_id_results acts.
Proof.
  revert σ. induction acts as [|a acts IH]; intros σ; [done|].
  destruct a as [request res|item|request]; simpl.
  - specialize (IH σ). destruct (drain acts c σ) as [out σ']. simpl in *. by rewrite IH.
  - destruct (decide (item_id item ∈ seen σ c)); [apply IH|].
    specialize (IH (seen_add σ c (item_id item))).
    by destruct (drain acts c (seen_add σ c (item_id item))) as [out σ'].
  - apply IH.
Qed.

Lemma drain_last (acts : list ByIdCursor.Action) (c : Cursor) (σ : Heap)
    (request : SearchRequest) (res : FetchResult) :
  last acts = Some (ByIdCursor.Fetch request res) ->
  last (drain acts c σ).1 = Some (Fetch request "id" res).
Proof.
  revert σ. induction acts as [|a acts IH]; intros σ Hlast; [done|].
  destruct acts as [|b acts].
  - simpl in Hlast. injection Hlast as ->. done.
  - change (last (a :: b :: acts)) with (last (b :: acts)) in Hlast.
    assert (Hcons : forall x σ', last (x :: (drain (b :: acts) c σ').1)
                                 = Some (Fetch request "id" res)).
    { intros x σ'. specialize (IH σ' Hlast).
      destruct ((drain (b :: acts) c σ').1); [done|exact IH]. }
    destruct a as [q r|item|q].
    + change (drain (ByIdCursor.Fetch q r :: b :: acts) c σ)
        with (let '(out, σ') := drain (b :: acts) c σ in (Fetch q "id" r :: out, σ')).
      specialize (Hcons (Fetch q "id" r) σ).
      by destruct (drain (b :: acts) c σ).
    + change (drain (ByIdCursor.Yield item :: b :: acts) c σ)
        with (if decide (item_id item ∈ seen σ c) then drain (b :: acts) c σ
              else let '(out, σ') := drain (b :: acts) c (seen_add σ c (item_id item)) in
                   (Yield (_construct_event item) :: out, σ')).
      destruct (decide (item_id item ∈ seen σ c)); [by apply IH|].
      specialize (Hcons (Yield (_construct_event item)) (seen_add σ c (item_id item))).
      by destruct (drain (b :: acts) c (seen_add σ c (item_id item))).
    + by apply IH.
Qed.

Lemma drain_ends_as (o : Outcome) (acts : list ByIdCursor.Action) (c : Cursor) (σ : Heap) :
  by_id_ends_as o acts -> ends_as o (drain acts c σ).1.
Proof.
  destruct o as [|e| |]; simpl; rewrite ?drain_results; try done.
  intros [(request & Hlast) Hpre]. split; [|done].
  exists request, "id"%string. by apply drain_last.
Qed.

Lemma yields_results (l : list Item) :
  results (map (fun item => Yield (_construct_event item)) l) = [].
Proof. by induction l. Qed.

Lemma body_trace (script : Script) (c : Cursor) (σ : Heap) :
  let s := body script c σ in
  results (step_actions s) ++ step_rest s = script
  /\ ends_as (match step_flow s with Stop o => o | Continue => Returned end) (step_actions s).
Proof.
  destruct script as [|[response|e] script].
  - simpl. split; [done|constructor].
  - destruct (items_list response) as [|item0 more] eqn:Hitems.
    { rewrite (body_empty response script _ _ Hitems). simpl.
      split; [done|]. by repeat constructor. }
    cbv zeta. rewrite (body_page response script c σ item0 more Hitems). cbv zeta.
    set (U := unseen _ (item0 :: more)).
    set (c2 := set_request _ _). set (σ2 := add_all _ _ _).
    set (call := Fetch _ _ _).
    assert (Hcall : forall l, results (call :: map (fun item => Yield (_construct_event item)) U
                                        ++ l) = Fetched response :: results l).
    { intros l. change (call :: ?a ++ l) with ((call :: a) ++ l).
      rewrite results_app. simpl. by rewrite yields_results. }
    assert (Hcall0 : results (call :: map (fun item => Yield (_construct_event item)) U)
                     = [Fetched response]).
    { simpl. by rewrite yields_results. }
    destruct (negb (has_more_true response)).
    { cbn [step_actions step_rest step_flow]. rewrite Hcall0.
      split; [done|]. simpl. rewrite yields_results. by repeat constructor. }
    destruct (decide (_get_time item0 = _get_time (List.last more item0))).
    + set (sub := ByIdCursor.__iter__ script _).
      destruct (by_id_trace script (evolve_T_lte (_request c2) (_get_time (List.last more item0))))
        as [T1 T2]. fold sub in T1, T2.
      pose proof (drain_results (ByIdCursor.actions sub) c2 σ2) as D1.
      pose proof (drain_ends_as (ByIdCursor.outcome sub) (ByIdCursor.actions sub) c2 σ2 T2) as D2.
      assert (Hends : ends_as (ByIdCursor.outcome sub)
                (call :: map (fun item => Yield (_construct_event item)) U
                   ++ (drain (ByIdCursor.actions sub) c2 σ2).1)).
      { change (call :: ?a ++ ?l) with ((call :: a) ++ l).
        apply ends_as_app; [|done]. rewrite Hcall0. by repeat constructor. }
      destruct (ByIdCursor.outcome sub);
        cbn [step_actions step_rest step_flow]; rewrite Hcall, D1;
        (split; [by rewrite <- T1|done]).
    + cbn [step_actions step_rest step_flow]. rewrite Hcall0.
      split; [done|]. simpl. rewrite yields_results. by repeat constructor.
  - simpl. split; [done|]. split; [by do 2 eexists|]. exists []. split; [done|constructor].
Qed.

Lemma loop_trace (fuel : nat) (script : Script) (c : Cursor) (σ : Heap) :
  let r := loop fuel script c σ in
  results (actions r) ++ rest r = script /\ ends_as (outcome r) (actions r).
Proof.
  revert script c σ. induction fuel as [|fuel IH]; intros script c σ.
  - simpl. split; [done|constructor].
  - cbv zeta. simpl. destruct (body_trace script c σ) as [B1 B2].
    destruct (step_flow (body script c σ)) as [|o].
    + cbn [prepend actions rest outcome].
      destruct (IH (step_rest (body script c σ)) (step_cursor (body script c σ))
                  (step_heap (body script c σ))) as [I1 I2].
      split.
      * by rewrite results_app, <- app_assoc, I1.
      * by apply ends_as_app.
    + done.
Qed.

(** A cursor neither catches an exception of the fetcher, nor repeats
    the call, nor raises an exception of its own.  Over any number of
    iterations, the answers to the calls that were made, in the order of
    the calls, followed by the answers not used, are the answers of the
    fetcher: every answer is used for one call.  When the run raised [e],
    the last thing that happened is a call of the fetcher that raised [e],
    and all the calls before it got a response; when it ended in another
    way, every call got a response. *)
Theorem fetcher_exception_ends_the_iteration (n : nat) (script : Script)
    (c : Cursor) (σ : Heap) :
  let r := iterations n script c σ in
  results (actions r) ++ rest r = script /\ ends_as (outcome r) (actions r).
Proof.
  revert script c σ. induction n as [|n IH]; intros script c σ.
  - simpl. split; [done|constructor].
  - cbv zeta. simpl.
    destruct (loop_trace (S (length script)) script c σ) as [L1 L2].
    fold (__iter__ script c σ) in L1, L2.
    destruct (outcome (__iter__ script c σ)) eqn:Ho; try (split; [done|by rewrite Ho]).
    cbn [prepend actions rest outcome].
    destruct (IH (rest (__iter__ script c σ)) (cursor (__iter__ script c σ))
                (heap (__iter__ script c σ))) as [I1 I2].
    split.
    + by rewrite results_app, <- app_assoc, I1.
    + by apply ends_as_app.
Qed.

End Failures.

(** ** Metrics *)

Section MetricsFacts.

Import Metrics.

(** [bind_client] gives the client to the metrics of the list one after
    the other and stops at the first element that is not a metric: the
    metrics before it have the new client already and stay so, the
    elements after it are untouched, and the [TypeError] names the element.
    Without such an element every metric has the new client. *)
Theorem bind_client_stops_at_the_first_other (metrics : list Object) (toloka_client : nat) :
  match (bind_client metrics toloka_client).2 with
  | None =>
      (bind_client metrics toloka_client).1 = map (fun _ => Metric (Some toloka_client)) metrics
      /\ Forall (fun o => exists c, o = Metric c) metrics
  | Some e =>
      exists pre repr post,
        metrics = pre ++ NotMetric repr :: post
        /\ Forall (fun o => exists c, o = Metric c) pre
        /\ (bind_client metrics toloka_client).1
           = map (fun _ => Metric (Some toloka_client)) pre ++ NotMetric repr :: post
        /\ e = TypeError ("One of element is not instance of BaseMetric: "
                            +:+ quote +:+ repr +:+ quote)
  end.
Proof.
  induction metrics as [|[c|repr] metrics IH]; simpl.
  - split; [done|constructor].
  - destruct (bind_client metrics toloka_client) as [more' [e|]]; simpl in *.
    + destruct IH as (pre & repr & post & -> & Hpre & -> & ->).
      exists (Metric c :: pre), repr, post. split; [done|].
      split; [constructor; eauto|]. done.
    + destruct IH as [-> Hall]. split; [done|]. constructor; eauto.
  - exists [], repr, metrics. split; [done|]. split; [constructor|]. done.
Qed.

Lemma names_empty (self : AssignmentEventsInPool) :
  get_line_names self = [] ->
  _created_name self = None /\ _submitted_name self = None /\ _accepted_name self = None
  /\ _rejected_name self = None /\ _skipped_name self = None /\ _expired_name self = None.
Proof.
  unfold get_line_names, _status_dict. destruct self as [p [a|] [b|] [c|] [d|] [e|] [f|] j];
    simpl; intros H; try discriminate. done.
Qed.

(** After [__attrs_post_init__] the line names of an instance are
    distinct and there is at least one: an instance without any name gets
    the three default names, an instance with distinct names is left as
    it is, and [ValueError] is raised exactly when two names are equal.
    Running it again changes nothing. *)
Theorem post_init_gives_distinct_names (self : AssignmentEventsInPool) :
  match __attrs_post_init__ self with
  | inr self' =>
      NoDup (get_line_names self)
      /\ get_line_names self' <> []
      /\ NoDup (get_line_names self')
      /\ (get_line_names self <> [] -> self' = self)
      /\ (get_line_names self = [] ->
            get_line_names self'
            = ["submitted_events_in_pool"; "accepted_events_in_pool";
               "rejected_events_in_pool"]%string)
      /\ __attrs_post_init__ self' = inr self'
  | inl e =>
      e = ValueError "Duplicate metric names." /\ ~ NoDup (get_line_names self)
  end.
Proof.
  unfold __attrs_post_init__ at 1.
  destruct (get_line_names self) as [|name names] eqn:Hnames.
  - destruct (names_empty self Hnames) as (H1 & H2 & H3 & H4 & H5 & H6).
    unfold get_line_names, __attrs_post_init__; simpl. rewrite H1, H5, H6. simpl.
    split; [constructor|]. split; [done|]. split.
    { apply NoDup_ListNoDup. repeat constructor; simpl; intuition discriminate. }
    split; [done|]. split; [done|].
    rewrite decide_False; [done|]. intros Hne. apply Hne. vm_compute. reflexivity.
  - destruct (decide _) as [Hne|Heq].
    + split; [done|]. intros Hnd. apply Hne. symmetry.
      by apply size_list_to_set_NoDup.
    + assert (Hnd : NoDup (name :: names)).
      { apply size_list_to_set_NoDup. destruct (decide (size (list_to_set (name :: names) : gset string)
                                                        = length (name :: names))); [done|].
        exfalso. apply Heq. intros H. by rewrite H in *. }
      rewrite Hnames. split; [done|]. split; [done|]. split; [done|].
      split; [done|]. split; [done|].
      unfold __attrs_post_init__. rewrite Hnames. by rewrite decide_False.
Qed.

Lemma dict_assign_new {V : Type} (k : string) (v : V) (d : list (string * V)) :
  k ∉ map fst d -> dict_assign k v d = d ++ [(k, v)].
Proof.
  induction d as [|[k' v'] d IH]; intros Hk; simpl in *; [done|].
  apply not_elem_of_cons in Hk as [Hne Hk].
  rewrite decide_False by done. by rewrite IH.
Qed.

Lemma dict_assign_keys {V : Type} (k : string) (v : V) (d : list (string * V)) :
  map fst (dict_assign k v d)
  = if decide (k ∈ map fst d) then map fst d else map fst d ++ [k].
Proof.
  induction d as [|[k' v'] d IH]; cbn [dict_assign map fst].
  - rewrite decide_False; [done|]. apply not_elem_of_nil.
  - destruct (decide (k = k')) as [->|Hne]; cbn [map fst].
    + rewrite decide_True; [done|]. left.
    + rewrite IH. destruct (decide (k ∈ map fst d)) as [Hin|Hout].
      * rewrite decide_True; [done|]. by right.
      * rewrite decide_False; [done|]. by apply not_elem_of_cons.
Qed.

Lemma dict_assign_NoDup {V : Type} (k : string) (v : V) (d : list (string * V)) :
  NoDup (map fst d) -> NoDup (map fst (dict_assign k v d)).
Proof.
  intros Hnd. rewrite dict_assign_keys. destruct (decide (k ∈ map fst d)); [done|].
  apply NoDup_app. split; [done|]. split; [|apply NoDup_singleton].
  intros x Hx Hx'. apply list_elem_of_singleton in Hx'. by subst.
Qed.

(** The keys of [_cursors], for any dict in the place of [_status_dict]
    and any cursors to start with. *)
Lemma cursors_keys (self : AssignmentEventsInPool) (start_time : datetime)
    (status_dict : list (Attribute * string)) (cursors : list (string * CursorArgs)) :
  let f := fun (cursors : list (string * CursorArgs)) (kv : Attribute * string) =>
             match getattr self kv.1 with
             | Some metric_name =>
                 if decide (metric_name = ""%string) then cursors
                 else dict_assign metric_name
                        {| arg_pool_id := pool_id self;
                           arg_event_type := kv.2;
                           arg_gte := (lower kv.2 +:+ "_gte", start_time) |} cursors
             | None => cursors
             end in
  let names := omap (fun kv => getattr self kv.1) status_dict in
  (NoDup (map fst cursors) -> NoDup (map fst (foldl f cursors status_dict)))
  /\ (forall name, name ∈ map fst (foldl f cursors status_dict)
        <-> name ∈ map fst cursors \/ (name ∈ names /\ name <> ""%string))
  /\ (NoDup (map fst cursors ++ names) ->
        map fst (foldl f cursors status_dict)
        = map fst cursors ++ filter (fun name => name <> ""%string) names).
Proof.
  intros f. revert cursors.
  induction status_dict as [|[a status] status_dict IH]; intros cursors names.
  - simpl. split; [done|]. split.
    + intros name. split; [by left|]. intros [H|[H _]]; [done|]. by apply elem_of_nil in H.
    + intros _. by rewrite app_nil_r.
  - subst names. cbn [foldl]. unfold f at 2 4 6. cbn [fst snd].
    assert (Hom : omap (fun kv : Attribute * string => getattr self kv.1)
                    ((a, status) :: status_dict)
                  = match getattr self a with
                    | Some name => name :: omap (fun kv => getattr self kv.1) status_dict
                    | None => omap (fun kv => getattr self kv.1) status_dict
                    end) by done.
    rewrite Hom. clear Hom.
    destruct (getattr self a) as [metric_name|] eqn:Ha; [|apply IH].
    destruct (decide (metric_name = ""%string)) as [->|Hne].
    + destruct (IH cursors) as (I1 & I2 & I3). split; [done|]. split.
      * intros name. rewrite I2. rewrite elem_of_cons. naive_solver.
      * intros Hnd. rewrite filter_cons_False by naive_solver. apply I3.
        apply NoDup_app in Hnd as (N1 & N2 & N3). apply NoDup_cons in N3 as [_ N3].
        apply NoDup_app. split; [done|]. split; [|done].
        intros x Hx Hx'. apply (N2 x Hx). by right.
    + set (args := {| arg_pool_id := pool_id self; arg_event_type := status;
                      arg_gte := (lower status +:+ "_gte", start_time) |}).
      destruct (IH (dict_assign metric_name args cursors)) as (I1 & I2 & I3).
      split; [|split].
      * intros Hnd. by apply I1, dict_assign_NoDup.
      * intros name. rewrite I2, dict_assign_keys, elem_of_cons.
        destruct (decide (metric_name ∈ map fst cursors)).
        -- naive_solver.
        -- rewrite elem_of_app, list_elem_of_singleton. naive_solver.
      * intros Hnd. rewrite filter_cons_True by done.
        assert (Hout : metric_name ∉ map fst cursors).
        { apply NoDup_app in Hnd as (_ & N2 & _). intros Hin. apply (N2 _ Hin). left. }
        rewrite I3.
        -- rewrite dict_assign_keys, decide_False by done. by rewrite <- app_assoc.
        -- rewrite dict_assign_keys, decide_False by done. rewrite <- app_assoc. exact Hnd.
Qed.

(** What [gather] returns: the lines it had, then one line for each
    cursor, made from the events of its iteration. *)
Lemma gather_lines (join_events : bool) (cursors : list (string * CursorArgs))
    (polls : string -> Poll) (result result' : Lines) :
  NoDup (map fst result ++ map fst cursors) ->
  gather join_events cursors polls result = Return result' ->
  exists lines,
    result' = result ++ zip (map fst cursors) lines
    /\ Forall2 (fun kv line =>
                  BaseCursor.outcome (iteration (polls kv.1)) = Returned
                  /\ points join_events (utcnow (polls kv.1))
                       (BaseCursor.yields (BaseCursor.actions (iteration (polls kv.1))))
                     = inr line) cursors lines.
Proof.
  revert result. induction cursors as [|[metric_name args] cursors IH]; intros result Hnd Hg.
  - simpl in Hg. injection Hg as <-. exists []. simpl. by rewrite app_nil_r.
  - simpl in Hg.
    destruct (BaseCursor.outcome (iteration (polls metric_name))) eqn:Ho; try discriminate.
    destruct (points join_events _ _) as [e|line] eqn:Hp; [discriminate|].
    assert (Hout : metric_name ∉ map fst result).
    { apply NoDup_app in Hnd as (_ & N2 & _). intros Hin. apply (N2 _ Hin). left. }
    rewrite dict_assign_new in Hg by done.
    destruct (IH (result ++ [(metric_name, line)])) as (lines & -> & Hall).
    + rewrite map_app. simpl. by rewrite <- app_assoc.
    + done.
    + exists (line :: lines). split; [by rewrite <- app_assoc|]. by constructor.
Qed.

Lemma cursors_NoDup (self : AssignmentEventsInPool) (start_time : datetime) :
  NoDup (map fst (_cursors self start_time)).
Proof.
  destruct (cursors_keys self start_time _status_dict []) as (H & _). apply H. constructor.
Qed.

(** The lines an instance returns are the lines of its names that are
    not empty: [get_line_names] lists every name that is not [None], but a
    name that is the empty string gets no cursor and so no line.  Every
    line has its own name, and when the names are distinct (as after
    [__attrs_post_init__]) the lines come in the order of
    [get_line_names]. *)
Theorem lines_are_the_nonempty_names (self : AssignmentEventsInPool) (start_time : datetime)
    (polls : string -> Poll) (result : Lines) :
  _get_lines_impl self start_time polls = Return result ->
  NoDup (map fst result)
  /\ (forall name, name ∈ map fst result
        <-> name ∈ get_line_names self /\ name <> ""%string)
  /\ (NoDup (get_line_names self) ->
        map fst result = filter (fun name => name <> ""%string) (get_line_names self)).
Proof.
  intros Hg. unfold _get_lines_impl in Hg.
  pose proof (cursors_NoDup self start_time) as Hnd.
  destruct (gather_lines _ _ _ [] result Hnd Hg) as (lines & -> & Hall).
  apply Forall2_length in Hall.
  assert (Hkeys : map fst (zip (map fst (_cursors self start_time)) lines)
                  = map fst (_cursors self start_time)).
  { apply fst_zip. rewrite length_map. lia. }
  cbn [app]. rewrite Hkeys.
  destruct (cursors_keys self start_time _status_dict []) as (_ & K2 & K3).
  split; [done|]. split.
  - intros name. unfold _cursors. rewrite K2. simpl. split; [|by right].
    intros [H|H]; [by apply elem_of_nil in H|done].
  - intros Hnames. by apply K3.
Qed.

Lemma lines_are_the_nonempty_names_witness :
  exists result, _get_lines_impl (counted "pool") 0 polls_S4 = Return result
                 /\ map fst result = ["submitted"%string].
Proof.
  eexists. split; [vm_compute; reflexivity|].
  destruct (lines_are_the_nonempty_names (counted "pool") 0 polls_S4
              [("submitted"%string, [(1, 1%nat); (2, 1%nat)])]) as (_ & _ & H).
  - vm_compute. reflexivity.
  - etrans; [apply H|reflexivity]. apply NoDup_singleton.
Defined.

Lemma groupby_concat (event_list : list BaseCursor.Event) :
  concat (map snd (groupby event_list)) = event_list.
Proof.
  induction event_list as [|event more IH]; [done|]. simpl.
  destruct (groupby more) as [|[t events] groups]; simpl in *.
  - by rewrite <- IH.
  - destruct (decide (BaseCursor.event_time event = t)); simpl; by rewrite <- IH.
Qed.

Lemma groupby_groups (event_list : list BaseCursor.Event) :
  Forall (fun g => g.2 <> [] /\ Forall (fun event => BaseCursor.event_time event = g.1) g.2)
    (groupby event_list).
Proof.
  induction event_list as [|event more IH]; [constructor|]. simpl.
  destruct (groupby more) as [|[t events] groups]; simpl in *.
  - constructor; [|done]. split; [done|]. by repeat constructor.
  - apply Forall_cons in IH as [[I1 I2] I3]. simpl in *.
    destruct (decide (BaseCursor.event_time event = t)) as [Heq|Hne].
    + constructor; [|done]. split; [done|]. by constructor.
    + constructor; [by split; [|repeat constructor]|]. by constructor.
Qed.

Lemma groupby_adjacent (event_list : list BaseCursor.Event) (i : nat)
    (g h : datetime * list BaseCursor.Event) :
  groupby event_list !! i = Some g -> groupby event_list !! S i = Some h -> g.1 <> h.1.
Proof.
  revert i g h. induction event_list as [|event more IH]; intros i g h; [done|]. simpl.
  destruct (groupby more) as [|[t events] groups] eqn:E.
  - by destruct i.
  - destruct (decide (BaseCursor.event_time event = t)) as [Heq|Hne].
    + destruct i as [|i].
      * simpl. intros [= <-] Hh. simpl. apply (IH 0%nat (t, events) h); done.
      * simpl. intros Hg Hh. by apply (IH (S i) g h).
    + destruct i as [|i].
      * simpl. intros [= <-] [= <-]. done.
      * simpl. intros Hg Hh. by apply (IH i g h).
Qed.

Lemma elem_of_group {A : Type} (x : A) (l : list A) (ls : list (list A)) :
  x ∈ l -> l ∈ ls -> x ∈ concat ls.
Proof.
  intros Hx. induction ls as [|l' ls IH]; intros Hl; [by apply elem_of_nil in Hl|].
  simpl. apply elem_of_app. apply elem_of_cons in Hl as [<-|Hl]; [by left|right; by apply IH].
Qed.

Lemma counts_sum (groups : list (datetime * list BaseCursor.Event)) :
  sum_list (map snd (map (fun g => (g.1, length g.2)) groups))
  = length (concat (map snd groups)).
Proof.
  induction groups as [|g groups IH]; [done|]. simpl. rewrite length_app. by rewrite IH.
Qed.

Lemma gathered_line (join_events : bool) (cursors : list (string * CursorArgs))
    (polls : string -> Poll) (lines : list (list (datetime * nat)))
    (name : string) (line : list (datetime * nat)) :
  Forall2 (fun kv line =>
             BaseCursor.outcome (iteration (polls kv.1)) = Returned
             /\ points join_events (utcnow (polls kv.1))
                  (BaseCursor.yields (BaseCursor.actions (iteration (polls kv.1))))
                = inr line) cursors lines ->
  (name, line) ∈ zip (map fst cursors) lines ->
  name ∈ map fst cursors
  /\ BaseCursor.outcome (iteration (polls name)) = Returned
  /\ points join_events (utcnow (polls name))
       (BaseCursor.yields (BaseCursor.actions (iteration (polls name)))) = inr line.
Proof.
  induction 1 as [|[k args] l cursors lines [H1 H2] _ IH]; simpl.
  - intros H. by apply elem_of_nil in H.
  - intros [[= -> ->]|Hin]%elem_of_cons.
    + split; [left|done].
    + destruct (IH Hin) as (I1 & I2 & I3). split; [by right|done].
Qed.

(** Without [join_events], a line counts the events of its cursor's
    iteration by their time: each point is the time of at least one event
    and counts the events of one run of that time, neighbouring points
    have different times, and the counts of a line add up to the number
    of events the iteration yielded. *)
Theorem counts_add_up (self : AssignmentEventsInPool) (start_time : datetime)
    (polls : string -> Poll) (result : Lines) (name : string)
    (line : list (datetime * nat)) :
  _join_events self = false ->
  _get_lines_impl self start_time polls = Return result ->
  (name, line) ∈ result ->
  let event_list := BaseCursor.yields (BaseCursor.actions (iteration (polls name))) in
  BaseCursor.outcome (iteration (polls name)) = Returned
  /\ sum_list (map snd line) = length event_list
  /\ Forall (fun p => (0 < p.2)%nat) line
  /\ (forall i p q, line !! i = Some p -> line !! S i = Some q -> p.1 <> q.1)
  /\ (forall p, p ∈ line ->
        exists event, event ∈ event_list /\ BaseCursor.event_time event = p.1).
Proof.
  intros Hjoin Hg Hin event_list. unfold _get_lines_impl in Hg. rewrite Hjoin in Hg.
  destruct (gather_lines _ _ _ [] result (cursors_NoDup self start_time) Hg)
    as (lines & -> & Hall).
  destruct (gathered_line _ _ _ _ _ _ Hall Hin) as (_ & Ho & Hp).
  fold event_list in Hp. unfold points in Hp. injection Hp as <-.
  split; [done|]. split; [|split; [|split]].
  - by rewrite counts_sum, groupby_concat.
  - apply Forall_forall. intros p Hp.
    apply list_elem_of_fmap in Hp as (g & -> & Hg'). simpl.
    pose proof (groupby_groups event_list) as Hgr. rewrite Forall_forall in Hgr.
    destruct (Hgr g Hg') as [Hne _]. destruct (g.2); [done|simpl; lia].
  - intros i p q Hp Hq. rewrite list_lookup_fmap in Hp, Hq.
    destruct (groupby event_list !! i) as [g|] eqn:Eg; [|done].
    destruct (groupby event_list !! S i) as [h|] eqn:Eh; [|done].
    simpl in Hp, Hq. injection Hp as <-. injection Hq as <-. simpl.
    by apply (groupby_adjacent event_list i).
  - intros p Hp. apply list_elem_of_fmap in Hp as (g & -> & Hg'). simpl.
    pose proof (groupby_groups event_list) as Hgr. rewrite Forall_forall in Hgr.
    destruct (Hgr g Hg') as [Hne Hall'].
    destruct (g.2) as [|event events] eqn:Eg; [done|].
    exists event. split.
    + rewrite <- (groupby_concat event_list). apply (elem_of_group _ (g.2)).
      * rewrite Eg. left.
      * apply list_elem_of_fmap. by exists g.
    + by apply Forall_cons in Hall' as [? _].
Qed.

Lemma counts_add_up_witness :
  sum_list (map snd [(1, 1%nat); (2, 1%nat)])
  = length (BaseCursor.yields (BaseCursor.actions (iteration (polls_S4 "submitted")))).
Proof.
  destruct (counts_add_up (counted "pool") 0 polls_S4
              [("submitted"%string, [(1, 1%nat); (2, 1%nat)])]
              "submitted" [(1, 1%nat); (2, 1%nat)])
    as (_ & H & _).
  - reflexivity.
  - vm_compute. reflexivity.
  - left.
  - exact H.
Defined.

Lemma gather_attribute_error (cursors : list (string * CursorArgs))
    (polls : string -> Poll) (result : Lines) :
  Forall (fun kv => BaseCursor.outcome (iteration (polls kv.1)) = Returned) cursors ->
  Exists (fun kv => BaseCursor.yields (BaseCursor.actions (iteration (polls kv.1))) <> [])
    cursors ->
  gather true cursors polls result
  = Raise (AttributeError "'NoneType' object has no attribute 'event_time'").
Proof.
  revert result. induction cursors as [|[k args] cursors IH]; intros result Hall Hex.
  - by apply Exists_nil in Hex.
  - apply Forall_cons in Hall as [Ho Hall]. simpl in *. rewrite Ho.
    destruct (BaseCursor.yields (BaseCursor.actions (iteration (polls k)))) as [|ev evs] eqn:E.
    + simpl. apply IH; [done|]. apply Exists_cons in Hex as [Hex|Hex]; [|done].
      simpl in Hex. by rewrite E in Hex.
    + done.
Qed.

(** With [join_events] a metric never reports a count above zero.
    When [_get_lines_impl] returns, no cursor has yielded an event and
    every line is the single point [(utcnow(), 0)].  When the iterations
    all return and one of them has yielded an event, [_get_lines_impl]
    raises [AttributeError]: [event] is [None] where [event.event_time]
    is read. *)
Theorem join_events_never_counts (self : AssignmentEventsInPool) (start_time : datetime)
    (polls : string -> Poll) :
  _join_events self = true ->
  (forall result name line,
     _get_lines_impl self start_time polls = Return result ->
     (name, line) ∈ result ->
     line = [(utcnow (polls name), 0%nat)]
     /\ BaseCursor.yields (BaseCursor.actions (iteration (polls name))) = [])
  /\ (forall name,
        name ∈ map fst (_cursors self start_time) ->
        (forall other, other ∈ map fst (_cursors self start_time) ->
           BaseCursor.outcome (iteration (polls other)) = Returned) ->
        BaseCursor.yields (BaseCursor.actions (iteration (polls name))) <> [] ->
        _get_lines_impl self start_time polls
        = Raise (AttributeError "'NoneType' object has no attribute 'event_time'")).
Proof.
  intros Hjoin. unfold _get_lines_impl. rewrite Hjoin. split.
  - intros result name line Hg Hin.
    destruct (gather_lines _ _ _ [] result (cursors_NoDup self start_time) Hg)
      as (lines & -> & Hall).
    destruct (gathered_line _ _ _ _ _ _ Hall Hin) as (_ & Ho & Hp).
    unfold points in Hp.
    destruct (BaseCursor.yields (BaseCursor.actions (iteration (polls name)))); [|done].
    simpl in Hp. by injection Hp as <-.
  - intros name Hin Hall Hev. apply gather_attribute_error.
    + apply Forall_forall. intros [k args] Hk. apply Hall.
      apply list_elem_of_fmap. by exists (k, args).
    + apply Exists_exists. apply list_elem_of_fmap in Hin as ([k args] & -> & Hk).
      by exists (k, args).
Qed.

Lemma join_events_never_counts_witness :
  _get_lines_impl (joined "pool") 0 polls_S4
  = Raise (AttributeError "'NoneType' object has no attribute 'event_time'").
Proof.
  destruct (join_events_never_counts (joined "pool") 0 polls_S4 eq_refl) as [_ H].
  apply (H "submitted"%string).
  - left.
  - intros other _. vm_compute. reflexivity.
  - vm_compute. discriminate.
Defined.

End MetricsFacts.

(** ** Waiting for an operation *)

Section Waiting.

Import AsyncTolokaClient.






End Waiting.

(** ** The schedule of the pipeline *)

Section ScheduleFacts.

Import Pipeline Schedule.

Lemma foldr_min (t : datetime) (l : list (string * datetime)) :
  let m := foldr (fun kv m => Z.min kv.2 m) t l in
  (m = t \/ exists k, (k, m) ∈ l) /\ m <= t /\ (forall k v, (k, v) ∈ l -> m <= v).
Proof.
  induction l as [|[k v] l IH]; simpl.
  - split; [by left|]. split; [lia|]. intros k v H. by apply elem_of_nil in H.
  - destruct IH as ([IH1|(k' & IH1)] & IH2 & IH3);
      (split; [|split; [lia|]]).
    + destruct (Z.min_spec v (foldr (fun kv m => Z.min kv.2 m) t l)) as [[_ ->]|[_ ->]].
      * right. exists k. left.
      * by left.
    + intros k0 v0 [[= -> ->]|Hin]%elem_of_cons; [lia|].
      specialize (IH3 k0 v0 Hin). lia.
    + destruct (Z.min_spec v (foldr (fun kv m => Z.min kv.2 m) t l)) as [[_ ->]|[_ ->]].
      * right. exists k. left.
      * right. exists k'. by right.
    + intros k0 v0 [[= -> ->]|Hin]%elem_of_cons; [lia|].
      specialize (IH3 k0 v0 Hin). lia.
Qed.

Lemma foldr_max (t : datetime) (l : list (string * datetime)) :
  let m := foldr (fun kv m => Z.max kv.2 m) t l in
  (m = t \/ exists k, (k, m) ∈ l) /\ t <= m /\ (forall k v, (k, v) ∈ l -> v <= m).
Proof.
  induction l as [|[k v] l IH]; simpl.
  - split; [by left|]. split; [lia|]. intros k v H. by apply elem_of_nil in H.
  - destruct IH as ([IH1|(k' & IH1)] & IH2 & IH3);
      (split; [|split; [lia|]]).
    + destruct (Z.max_spec v (foldr (fun kv m => Z.max kv.2 m) t l)) as [[_ ->]|[_ ->]].
      * by left.
      * right. exists k. left.
    + intros k0 v0 [[= -> ->]|Hin]%elem_of_cons; [lia|].
      specialize (IH3 k0 v0 Hin). lia.
    + destruct (Z.max_spec v (foldr (fun kv m => Z.max kv.2 m) t l)) as [[_ ->]|[_ ->]].
      * right. exists k'. by right.
      * right. exists k. left.
    + intros k0 v0 [[= -> ->]|Hin]%elem_of_cons; [lia|].
      specialize (IH3 k0 v0 Hin). lia.
Qed.

Lemma min_time_spec (pending : gmap string datetime) (start_soon : datetime) :
  min_time pending = inr start_soon ->
  (exists k, pending !! k = Some start_soon)
  /\ (forall k t, pending !! k = Some t -> start_soon <= t).
Proof.
  unfold min_time, datetime in *.
  destruct (map_to_list pending) as [|[k0 t0] more] eqn:E; [done|].
  pose proof (elem_of_map_to_list pending) as Hel. rewrite E in Hel.
  intros [= <-]. destruct (foldr_min t0 more) as ([H1|(k & H1)] & H2 & H3). split.
  - exists k0. apply Hel. simpl in *. rewrite H1. left.
  - intros k t Hk. apply Hel in Hk.
    apply elem_of_cons in Hk as [[= -> ->]|Hin]; [done|]. by apply (H3 k).
  - split.
    + exists k. apply Hel. by right.
    + intros k' t Hk. apply Hel in Hk.
      apply elem_of_cons in Hk as [[= -> ->]|Hin]; [done|]. by apply (H3 k').
Qed.

Lemma max_time_spec (pending : gmap string datetime) (start_soon : datetime) :
  max_time pending = inr start_soon ->
  (exists k, pending !! k = Some start_soon)
  /\ (forall k t, pending !! k = Some t -> t <= start_soon).
Proof.
  unfold max_time, datetime in *.
  destruct (map_to_list pending) as [|[k0 t0] more] eqn:E; [done|].
  pose proof (elem_of_map_to_list pending) as Hel. rewrite E in Hel.
  intros [= <-]. destruct (foldr_max t0 more) as ([H1|(k & H1)] & H2 & H3). split.
  - exists k0. apply Hel. simpl in *. rewrite H1. left.
  - intros k t Hk. apply Hel in Hk.
    apply elem_of_cons in Hk as [[= -> ->]|Hin]; [done|]. by apply (H3 k).
  - split.
    + exists k. apply Hel. by right.
    + intros k' t Hk. apply Hel in Hk.
      apply elem_of_cons in Hk as [[= -> ->]|Hin]; [done|]. by apply (H3 k').
Qed.

(** The sleep between two iterations of [run] is at least
    [MIN_SLEEP_SECONDS], and it is long enough for work to be due: when
    the next iteration starts no earlier than the sleep ends, it starts the
    worker whose time was [min(pending.values())], and after
    [max(pending.values())] it starts every pending worker and leaves
    [pending] empty.  Each pending worker is either started or still
    pending, never both; in [check_mode] all are started. *)
Theorem sleep_makes_a_worker_due (pending : gmap string datetime)
    (start_soon now iteration_start : datetime) (check_mode : bool) :
  now + sleep_time start_soon now <= iteration_start ->
  MIN_SLEEP_SECONDS <= sleep_time start_soon now
  /\ (min_time pending = inr start_soon ->
        exists k, to_start pending iteration_start check_mode !! k = Some start_soon)
  /\ (max_time pending = inr start_soon ->
        to_start pending iteration_start check_mode = pending
        /\ still_pending pending iteration_start check_mode = ∅)
  /\ (forall k, to_start pending iteration_start check_mode !! k = None
                \/ still_pending pending iteration_start check_mode !! k = None)
  /\ to_start pending iteration_start check_mode
       ∪ still_pending pending iteration_start check_mode = pending
  /\ (check_mode = true -> to_start pending iteration_start check_mode = pending).
Proof.
  intros Hwake. unfold sleep_time in *.
  assert (Hdue : start_soon <= iteration_start) by lia.
  split; [lia|]. split; [|split; [|split; [|split]]].
  - intros Hmin. destruct (min_time_spec pending start_soon Hmin) as [[k Hk] _].
    exists k. unfold to_start. apply map_lookup_filter_Some. split; [done|].
    unfold due. simpl. apply orb_true_iff. left. by apply Z.leb_le.
  - intros Hmax. destruct (max_time_spec pending start_soon Hmax) as [_ Hall].
    assert (Hevery : forall k t, pending !! k = Some t ->
                       due iteration_start check_mode t = true).
    { intros k t Hk. unfold due. apply orb_true_iff. left. apply Z.leb_le.
      specialize (Hall k t Hk). lia. }
    split.
    + unfold to_start. apply map_filter_id. intros k t Hk. by apply (Hevery k).
    + unfold still_pending. apply map_eq. intros k. rewrite lookup_empty.
      apply map_lookup_filter_None. right. intros t Hk. simpl.
      by rewrite (Hevery k t Hk).
  - intros k. unfold to_start, still_pending.
    destruct (pending !! k) as [t|] eqn:Hk.
    + destruct (due iteration_start check_mode t) eqn:Hd.
      * right. apply map_lookup_filter_None. right. intros t' Hk'. simpl.
        assert (t' = t) by congruence. subst. by rewrite Hd.
      * left. apply map_lookup_filter_None. right. intros t' Hk'. simpl.
        assert (t' = t) by congruence. subst. by rewrite Hd.
    + left. apply map_lookup_filter_None. by left.
  - unfold to_start, still_pending. apply map_eq. intros k.
    destruct (pending !! k) as [t|] eqn:Hk.
    + destruct (due iteration_start check_mode t) eqn:Hd.
      * apply lookup_union_Some_raw. left. by apply map_lookup_filter_Some.
      * apply lookup_union_Some_raw. right. split.
        -- apply map_lookup_filter_None. right. intros t' Hk'. simpl.
           assert (t' = t) by congruence. subst. by rewrite Hd.
        -- by apply map_lookup_filter_Some.
    + apply lookup_union_None. split; apply map_lookup_filter_None; by left.
  - intros ->. unfold to_start. apply map_filter_id. intros k t Hk.
    unfold due. simpl. apply orb_true_r.
Qed.

Lemma sleep_makes_a_worker_due_witness :
  exists k, to_start (<["A"%string := 160]> (<["B"%string := 220]> ∅)) 170 false !! k = Some 160.
Proof.
  destruct (sleep_makes_a_worker_due (<["A"%string := 160]> (<["B"%string := 220]> ∅))
              160 155 170 false) as (_ & H & _).
  - vm_compute. discriminate.
  - apply H. vm_compute. reflexivity.
Defined.

(** After [_process_done_tasks] no worker is both waiting and pending,
    if none was before, which is what [assert worker not in waiting]
    needs; and when the call returns after at least one task, [pending]
    is not empty, so that [min] and [max] of its values do not raise. *)
Theorem done_tasks_keep_the_schedule (self : Pipeline) (pipeline_key : Key)
    (done : list Task) (waiting : gmap string Task) (pending : gmap string datetime) :
  NoDup done ->
  Forall (fun task => waiting !! name (worker task) = Some task) done ->
  (forall k, waiting !! k = None \/ pending !! k = None) ->
  let r := _process_done_tasks self pipeline_key done waiting pending in
  (forall k, Pipeline.waiting r !! k = None \/ Pipeline.pending r !! k = None)
  /\ (raised r = None -> done <> [] ->
        exists start_soon later,
          min_time (Pipeline.pending r) = inr start_soon
          /\ max_time (Pipeline.pending r) = inr later
          /\ start_soon <= later).
Proof.
  intros Hnd Hin Hdisj r.
  pose proof (done_workers_distinct done waiting Hnd Hin) as Hnames.
  assert (Hsome : Forall (fun task => is_Some (waiting !! name (worker task))) done).
  { apply Forall_forall. intros task Ht. rewrite Forall_forall in Hin.
    rewrite (Hin task Ht). eauto. }
  destruct (scan_done done (period self) waiting pending [] [] Hnames Hsome)
    as (w' & p' & Hscan & Hgone & Hpend).
  assert (Hr : Pipeline.waiting r = w' /\ Pipeline.pending r = p'
               /\ (raised r = None -> failed done = [])).
  { subst r. unfold _process_done_tasks. rewrite Hscan. simpl.
    destruct (failed done); [done|]. simpl. split; [done|]. split; [done|]. done. }
  destruct Hr as (-> & -> & Hfailed). split.
  - intros k.
    destruct (decide (k ∈ map (fun task => name (worker task)) done)) as [Hk|Hk].
    + left. apply list_elem_of_fmap in Hk as (task & -> & Ht). by apply Hgone.
    + destruct (scan_other _ _ _ _ _ _ _ _ _ _ _ _ Hk Hscan) as [G1 G2].
      rewrite G1, G2. apply Hdisj.
  - intros Hnone Hne. specialize (Hfailed Hnone).
    destruct done as [|task done']; [done|].
    assert (Hok : exception task = None).
    { unfold failed in Hfailed. simpl in Hfailed.
      destruct (exception task); [|done]. simpl in Hfailed. discriminate. }
    assert (Hp : p' !! name (worker task) = Some (start_time task + period self)).
    { apply Hpend; [left|done]. }
    assert (Hlist : map_to_list p' <> []).
    { intros Hnil. apply map_to_list_empty_iff in Hnil. subst p'. by rewrite lookup_empty in Hp. }
    unfold min_time, max_time.
    destruct (map_to_list p') as [|[k0 t0] more]; [done|].
    do 2 eexists. split; [done|]. split; [done|].
    destruct (foldr_min t0 more) as (_ & H1 & _).
    destruct (foldr_max t0 more) as (_ & H2 & _). simpl in *. lia.
Qed.

Lemma done_tasks_keep_the_schedule_witness :
  let r := _process_done_tasks pipeline_S6 (_get_unique_key pipeline_S6)
             [task_A] waiting_S6 ∅ in
  Pipeline.waiting r !! "A"%string = None \/ Pipeline.pending r !! "A"%string = None.
Proof.
  destruct (done_tasks_keep_the_schedule pipeline_S6 (_get_unique_key pipeline_S6)
              [task_A] waiting_S6 ∅) as [H _].
  - apply NoDup_ListNoDup. repeat constructor; simpl; intuition discriminate.
  - repeat constructor; vm_compute; reflexivity.
  - intros k. right. apply lookup_empty.
  - apply (H "A"%string).
Defined.

End ScheduleFacts.
